(** * Data Grid Engine: DynamicTable and DynamicEditModal

    A shallow embedding of the client-side logic of
    [src/components/common/DynamicTable.tsx] and
    [src/components/common/DynamicEditModal.tsx]: the configuration
    defaults, the search / filter / sort pipeline, the pagination slicer,
    the selection and delete handlers, and the form validation run on save.

    React state is modelled by explicit state passing: a handler is a
    function from the state its closure captured to the next state and the
    list of collaborator (callback) invocations it performs, in order. *)

From Stdlib Require Import ZArith String Ascii Lia Bool Permutation Sorted.
From stdpp Require Import base option list gmap strings pretty.

#[local] Set Warnings "-register-all".
#[local] Open Scope string_scope.
#[local] Open Scope list_scope.
#[local] Open Scope Z_scope.

(** ** JavaScript values *)

Module JS.

(** Numbers are restricted to the integers and NaN: fractions, the
    infinities and the loss of precision above 2^53 are not represented. *)
Inductive number := NaN | Fin (z : Z).

(** The values a row field or a form field can hold.  [VDate t] is a
    [Date] object with time value [t], in milliseconds since the epoch
    ([None] for an Invalid Date); [VFile] is an opaque [File] object (an
    upload).  Arrays, dates and files are compared by reference in
    JavaScript, and no two of them share a reference in this model. *)
Inductive value :=
| VUndefined
| VNull
| VBool (b : bool)
| VNum (n : number)
| VStr (s : string)
| VArr (l : list value)
| VDate (t : option Z)
| VFile (name : string).

Inductive jstype := TUndefined | TObject | TBoolean | TNumber | TString.

Definition typeof (v : value) : jstype :=
  match v with
  | VUndefined => TUndefined
  | VNull | VArr _ | VDate _ | VFile _ => TObject
  | VBool _ => TBoolean
  | VNum _ => TNumber
  | VStr _ => TString
  end.

(** [value === null || value === undefined] *)
Definition isNullish (v : value) : bool :=
  match v with VUndefined | VNull => true | _ => false end.

(** ToBoolean: the condition of [if (value)], negated by [!value]. *)
Definition truthy (v : value) : bool :=
  match v with
  | VUndefined | VNull => false
  | VBool b => b
  | VNum NaN => false
  | VNum (Fin z) => negb (z =? 0)
  | VStr s => negb (String.eqb s "")
  | VArr _ | VDate _ | VFile _ => true
  end.

Definition isArray (v : value) : bool :=
  match v with VArr _ => true | _ => false end.

Definition numberToString (n : number) : string :=
  match n with NaN => "NaN" | Fin z => pretty z end.

(** [Array.prototype.join] on already stringified elements. *)
Fixpoint join (sep : string) (l : list string) : string :=
  match l with
  | [] => ""
  | [x] => x
  | x :: r => x +:+ sep +:+ join sep r
  end.

Definition number_eqb (a b : number) : bool :=
  match a, b with
  | Fin x, Fin y => x =? y
  | _, _ => false
  end.

(** Strict equality [a === b]. *)
Definition strictEq (a b : value) : bool :=
  match a, b with
  | VUndefined, VUndefined => true
  | VNull, VNull => true
  | VBool x, VBool y => Bool.eqb x y
  | VNum x, VNum y => number_eqb x y
  | VStr x, VStr y => String.eqb x y
  | _, _ => false
  end.

(** [array.includes(v)] uses SameValueZero, which differs from [===] only
    in that NaN is found. *)
Definition sameValueZero (a b : value) : bool :=
  match a, b with
  | VNum NaN, VNum NaN => true
  | _, _ => strictEq a b
  end.

Definition arrayIncludes (l : list value) (v : value) : bool :=
  existsb (fun x => sameValueZero x v) l.

(** *** Strings (code units are bytes; case mapping is ASCII) *)

Definition lowerAscii (c : ascii) : ascii :=
  let n := nat_of_ascii c in
  if ((65 <=? n) && (n <=? 90))%nat then ascii_of_nat (n + 32) else c.

Fixpoint toLowerCase (s : string) : string :=
  match s with
  | EmptyString => EmptyString
  | String c r => String (lowerAscii c) (toLowerCase r)
  end.

(** [s.includes(t)]: [t] occurs in [s] as a substring. *)
Fixpoint includes (s t : string) : bool :=
  String.prefix t s ||
  match s with
  | EmptyString => false
  | String _ r => includes r t
  end.

(** [s.replace(/[$,]/g, "")] *)
Fixpoint stripCurrency (s : string) : string :=
  match s with
  | EmptyString => EmptyString
  | String c r =>
      if (Ascii.eqb c "$" || Ascii.eqb c ",")%char
      then stripCurrency r
      else String c (stripCurrency r)
  end.

(** *** The host environment

    What the engine and the locale decide: numeric literal parsing, the
    white space of Unicode, date parsing, the local time zone, locale
    formatting and collation, and the regular expression engine. *)
Record Env := {
  (** [Number.parseFloat(s)] *)
  parseFloat : string -> number;
  (** [Number(s)] on a string *)
  stringToNumber : string -> number;
  (** [n.toLocaleString()] on a number that is not NaN *)
  numberToLocaleString : Z -> string;
  (** [Date.parse(s)]: milliseconds since the epoch, [None] for NaN *)
  dateParse : string -> option Z;
  (** offset of local time from UTC, in milliseconds, at a time value *)
  localOffset : Z -> Z;
  (** [d.toString()], [d.toLocaleDateString()] and [d.toLocaleString()] on
      a valid date *)
  dateToString : Z -> string;
  toLocaleDateString : Z -> string;
  toLocaleString : Z -> string;
  (** [a.localeCompare(b)]: negative, zero or positive *)
  localeCompare : string -> string -> Z;
  (** [s.trim()]: the text without the white space and the line
      terminators at its two ends (U+0009 to U+000D, U+0020, U+00A0,
      U+FEFF, U+2028, U+2029 and the space separators of Unicode) *)
  trim : string -> string;
  (** [new RegExp(pattern)]: the [test] method of the expression, and
      [None] when the pattern is malformed and the constructor throws a
      SyntaxError *)
  newRegExp : string -> option (string -> bool)
}.

Section Coercions.
Context (env : Env).

(** [value.toString()] / [String(value)]; an array joins its elements with
    commas, writing null and undefined elements as the empty string. *)
Fixpoint toString (v : value) : string :=
  match v with
  | VUndefined => "undefined"
  | VNull => "null"
  | VBool b => if b then "true" else "false"
  | VNum n => numberToString n
  | VStr s => s
  | VArr l =>
      join "," (map (fun x => if isNullish x then "" else toString x) l)
  | VDate (Some t) => dateToString env t
  | VDate None => "Invalid Date"
  | VFile _ => "[object File]"
  end.

(** ToPrimitive followed by ToNumber, as in [Number(value)]. *)
Definition toNumber (v : value) : number :=
  match v with
  | VUndefined => NaN
  | VNull => Fin 0
  | VBool b => Fin (if b then 1 else 0)
  | VNum n => n
  | VStr s => stringToNumber env s
  | VDate (Some t) => Fin t
  | VDate None => NaN
  | VArr _ | VFile _ => stringToNumber env (toString v)
  end.

Definition maxTime : Z := 8640000000000000.

(** TimeClip *)
Definition timeClip (n : number) : option Z :=
  match n with
  | NaN => None
  | Fin t => if Z.abs t <=? maxTime then Some t else None
  end.

(** [new Date(value)]: the time value of the date, [None] when it is an
    Invalid Date.  A date is copied, a string is parsed, anything else is
    converted to a number of milliseconds.  The constructor does not
    throw. *)
Definition newDate (v : value) : option Z :=
  match v with
  | VDate t => t
  | VStr s => dateParse env s
  | VArr _ | VFile _ => dateParse env (toString v)
  | _ => timeClip (toNumber v)
  end.

Definition msPerDay : Z := 86400000.

(** The result of [d.toDateString()]: the text "Invalid Date", or a text
    (weekday, month, day of month, year) that is fixed by the local
    calendar day and differs from one day to the next. *)
Inductive dateString := InvalidDate | LocalDay (day : Z).

Definition dateString_eqb (a b : dateString) : bool :=
  match a, b with
  | InvalidDate, InvalidDate => true
  | LocalDay x, LocalDay y => x =? y
  | _, _ => false
  end.

Definition localDay (t : Z) : Z := (t + localOffset env t) / msPerDay.

Definition toDateString (d : option Z) : dateString :=
  match d with
  | None => InvalidDate
  | Some t => LocalDay (localDay t)
  end.

End Coercions.

End JS.

Import JS.

(** ** Data model *)

(** Modelled from the spec: the type [GenericDataItem], declared in
    [types/dynamicTableTypes], of which only the uses are at hand.  A row
    is an open mapping from field names to values that holds an [id]
    string. *)
Record Row := mkRow {
  id : string;
  fields : gmap string value
}.

(** [item[key]] *)
Definition getField (item : Row) (key : string) : value :=
  if String.eqb key "id" then VStr (id item)
  else default VUndefined (fields item !! key).

(** Modelled from the spec: the semantic types of a column ([ColumnConfig]
    is declared in [types/dynamicTableTypes]); the tags are those
    [formatValue] switches on. *)
Inductive ColumnType :=
| ColText | ColCurrency | ColPercentage | ColDate | ColDatetimeLocal
| ColCheckbox | ColSelect | ColMultiselect.

(** Modelled from the spec: [ColumnConfig], with its key, label, semantic
    type and the optional flags [sortable] and [searchable]; the renderer
    and the layout hints are left out. *)
Record ColumnConfig := mkColumn {
  col_key : string;
  col_label : string;
  col_type : ColumnType;
  col_sortable : option bool;
  col_searchable : option bool
}.

(** Modelled from the spec: the types of a filter ([FilterConfig] is
    declared in [types/dynamicTableTypes]); [FilterOther] is any tag the
    pipeline does not know. *)
Inductive FilterType :=
| FilterSelect | FilterDate | FilterDaterange | FilterNumber | FilterText
| FilterOther.

(** Modelled from the spec: [FilterConfig], with its key, label, type,
    multiplicity flag and the values of its options. *)
Record FilterConfig := mkFilter {
  filter_key : string;
  filter_label : string;
  filter_type : FilterType;
  filter_multiple : bool;
  filter_options : list string
}.

Inductive Direction := asc | desc.

Record SortConfig := mkSort {
  sort_key : string;
  direction : Direction
}.

(** ** Configuration normalizer

    [tableConfig] is a partial configuration: every option may be absent.
    The component spreads it over the table of defaults. *)

Module TableConfig.
(** Modelled from the spec: [TableConfig], declared in
    [types/dynamicTableTypes], with the sixteen options the table of
    defaults resolves, each of them optional. *)
Record t := mk {
  title : option string;
  description : option string;
  searchPlaceholder : option string;
  itemsPerPage : option Z;
  enableSearch : option bool;
  enableFilters : option bool;
  enablePagination : option bool;
  enableSelection : option bool;
  enableSorting : option bool;
  stickyHeader : option bool;
  striped : option bool;
  bordered : option bool;
  compact : option bool;
  className : option string;
  emptyMessage : option string;
  loadingMessage : option string
}.

(** [tableConfig = {}] *)
Definition empty : t :=
  mk None None None None None None None None
     None None None None None None None None.
End TableConfig.

Module Config.
(** [Required<TableConfig>] *)
Record t := mk {
  title : string;
  description : string;
  searchPlaceholder : string;
  itemsPerPage : Z;
  enableSearch : bool;
  enableFilters : bool;
  enablePagination : bool;
  enableSelection : bool;
  enableSorting : bool;
  stickyHeader : bool;
  striped : bool;
  bordered : bool;
  compact : bool;
  className : string;
  emptyMessage : string;
  loadingMessage : string
}.
End Config.

(** [const config: Required<TableConfig> = { ...defaults, ...tableConfig }] *)
Definition config (tableConfig : TableConfig.t) : Config.t :=
  {| Config.title := default "Data Table" (TableConfig.title tableConfig);
     Config.description := default "" (TableConfig.description tableConfig);
     Config.searchPlaceholder :=
       default "Search..." (TableConfig.searchPlaceholder tableConfig);
     Config.itemsPerPage := default 10 (TableConfig.itemsPerPage tableConfig);
     Config.enableSearch := default true (TableConfig.enableSearch tableConfig);
     Config.enableFilters :=
       default true (TableConfig.enableFilters tableConfig);
     Config.enablePagination :=
       default true (TableConfig.enablePagination tableConfig);
     Config.enableSelection :=
       default false (TableConfig.enableSelection tableConfig);
     Config.enableSorting :=
       default true (TableConfig.enableSorting tableConfig);
     Config.stickyHeader := default false (TableConfig.stickyHeader tableConfig);
     Config.striped := default true (TableConfig.striped tableConfig);
     Config.bordered := default false (TableConfig.bordered tableConfig);
     Config.compact := default false (TableConfig.compact tableConfig);
     Config.className := default "" (TableConfig.className tableConfig);
     Config.emptyMessage :=
       default "No data found" (TableConfig.emptyMessage tableConfig);
     Config.loadingMessage :=
       default "Loading..." (TableConfig.loadingMessage tableConfig) |}.

(** ** Value formatter *)

Section Formatter.
Context (env : Env).

(** [formatValue(value, column)] *)
Definition formatValue (v : value) (column : ColumnConfig) : string :=
  if isNullish v then "-"
  else
    match col_type column with
    | ColCurrency =>
        let numValue :=
          match v with
          | VStr s => parseFloat env (stripCurrency s)
          | VNum n => n
          | _ => Fin 0
          end in
        match numValue with
        | NaN => "$0"
        | Fin z => "$" +:+ numberToLocaleString env z
        end
    | ColPercentage =>
        let percentValue :=
          match toNumber env v with
          | NaN => Fin 0
          | Fin z => Fin z
          end in
        numberToString percentValue +:+ "%"
    | ColDate =>
        match newDate env v with
        | Some t => toLocaleDateString env t
        | None => "Invalid Date"
        end
    | ColDatetimeLocal =>
        match newDate env v with
        | Some t => toLocaleString env t
        | None => "Invalid Date"
        end
    | ColCheckbox => if truthy v then "Yes" else "No"
    | ColText | ColSelect | ColMultiselect =>
        match v with
        | VArr l =>
            join ", "
                 (map (fun x => if truthy x then toString env x else "") l)
        | _ => if truthy v then toString env v else ""
        end
    end.

End Formatter.

(** ** Query pipeline: search, filter, sort *)

(** [Array.prototype.sort(compareFn)], modelled by a stable insertion
    sort: from the last element to the first, each element is put in front
    of the first element of the sorted rest that it does not compare
    greater than.  A NaN result of the comparison counts as zero. *)
Definition compareResult (n : number) : Z :=
  match n with NaN => 0 | Fin z => z end.

Fixpoint insertBy {A} (compareFn : A -> A -> number) (x : A) (l : list A)
  : list A :=
  match l with
  | [] => [x]
  | y :: r =>
      if compareResult (compareFn x y) <=? 0 then x :: l
      else y :: insertBy compareFn x r
  end.

Definition Array_sort {A} (compareFn : A -> A -> number) (l : list A)
  : list A :=
  foldr (insertBy compareFn) [] l.

(** [Array.prototype.find] *)
Definition Array_find {A} (f : A -> bool) (l : list A) : option A :=
  List.find f l.

Section Query.
Context (env : Env).

(** The search predicate of one row. *)
Definition matchesSearch (columns : list ColumnConfig) (searchTerm : string)
  (item : Row) : bool :=
  let searchableColumns :=
    List.filter
      (fun col => negb (bool_decide (col_searchable col = Some false)))
      columns in
  existsb
    (fun column =>
       let v := getField item (col_key column) in
       if isNullish v then false
       else includes (toLowerCase (formatValue env v column))
                     (toLowerCase searchTerm))
    searchableColumns.

(** The predicate of one active filter on one row.  The filter value is the
    string the select or the date input stored, so
    [filter.multiple && Array.isArray(filterValue)] is false and a
    [daterange] value has neither [start] nor [end]. *)
Definition filterPredicate (f : FilterConfig) (filterValue : string)
  (item : Row) : bool :=
  let itemValue := getField item (filter_key f) in
  match filter_type f with
  | FilterSelect =>
      match itemValue with
      | VArr l => arrayIncludes l (VStr filterValue)
      | _ => strictEq itemValue (VStr filterValue)
      end
  | FilterDate =>
      let itemDate := newDate env itemValue in
      let filterDate := newDate env (VStr filterValue) in
      dateString_eqb (toDateString env itemDate) (toDateString env filterDate)
  | FilterDaterange => true
  | FilterNumber =>
      number_eqb (toNumber env itemValue) (toNumber env (VStr filterValue))
  | FilterText =>
      if isNullish itemValue then false
      else includes (toLowerCase (toString env itemValue))
                    (toLowerCase filterValue)
  | FilterOther => true
  end.

(** One step of [Object.entries(activeFilters).forEach(...)].  The
    entries are kept in insertion order. *)
Definition applyFilter (filters : list FilterConfig)
  (filtered : list Row) (entry : string * string) : list Row :=
  let '(filterKey, filterValue) := entry in
  if String.eqb filterValue "" || String.eqb filterValue "all" then filtered
  else
    match Array_find (fun f => String.eqb (filter_key f) filterKey) filters with
    | None => filtered
    | Some f => List.filter (filterPredicate f filterValue) filtered
    end.

(** The comparison function handed to [sort]. *)
Definition compareRows (sortConfig : SortConfig) (a b : Row) : number :=
  let aValue := getField a (sort_key sortConfig) in
  let bValue := getField b (sort_key sortConfig) in
  if isNullish aValue then Fin 1
  else if isNullish bValue then Fin (-1)
  else
    let comparison :=
      match aValue, bValue with
      | VNum (Fin x), VNum (Fin y) => Fin (x - y)
      | VNum _, VNum _ => NaN
      | _, _ =>
          Fin (localeCompare env (toString env aValue) (toString env bValue))
      end in
    match direction sortConfig, comparison with
    | desc, Fin c => Fin (- c)
    | _, _ => comparison
    end.

(** [filteredData] *)
Definition filteredData (cfg : Config.t) (columns : list ColumnConfig)
  (filters : list FilterConfig) (localData : list Row) (searchTerm : string)
  (activeFilters : list (string * string)) (sortConfig : option SortConfig)
  : list Row :=
  let filtered := localData in
  let filtered :=
    if Config.enableSearch cfg && negb (String.eqb searchTerm "")
    then List.filter (matchesSearch columns searchTerm) filtered
    else filtered in
  let filtered :=
    if Config.enableFilters cfg
    then foldl (applyFilter filters) filtered activeFilters
    else filtered in
  match Config.enableSorting cfg, sortConfig with
  | true, Some sc => Array_sort (compareRows sc) filtered
  | _, _ => filtered
  end.

End Query.

(** ** Pagination slicer *)

(** [Math.ceil(a / b)] for a divisor other than zero.  (At [b = 0]
    JavaScript yields an infinity or NaN, which the integer model does not
    represent.) *)
Definition ceilDiv (a b : Z) : Z := - ((- a) / b).

(** [Array.prototype.slice(start, end)]; a negative index counts from the
    end of the array. *)
Definition relativeIndex (len i : Z) : Z :=
  if i <? 0 then Z.max (len + i) 0 else Z.min i len.

Definition slice {A} (l : list A) (start stop : Z) : list A :=
  let len := Z.of_nat (length l) in
  let k := relativeIndex len start in
  let final := relativeIndex len stop in
  take (Z.to_nat (final - k)) (drop (Z.to_nat k) l).

Definition totalPagesOf (cfg : Config.t) (filtered : list Row) : Z :=
  ceilDiv (Z.of_nat (length filtered)) (Config.itemsPerPage cfg).

Definition startIndexOf (cfg : Config.t) (currentPage : Z) : Z :=
  (currentPage - 1) * Config.itemsPerPage cfg.

Definition currentDataOf (cfg : Config.t) (filtered : list Row)
  (currentPage : Z) : list Row :=
  if Config.enablePagination cfg
  then slice filtered (startIndexOf cfg currentPage)
             (startIndexOf cfg currentPage + Config.itemsPerPage cfg)
  else filtered.

(** An entry of the pagination bar: a page number or the ellipsis. *)
Inductive PageItem := PageNum (n : Z) | Ellipsis.

(** [generatePageNumbers()] *)
Definition generatePageNumbersOf (totalPages currentPage : Z)
  : list PageItem :=
  let maxVisiblePages := 5 in
  if totalPages <=? maxVisiblePages
  then PageNum <$> seqZ 1 totalPages
  else if currentPage <=? 3
  then (PageNum <$> seqZ 1 4) ++ [Ellipsis; PageNum totalPages]
  else if totalPages - 2 <=? currentPage
  then [PageNum 1; Ellipsis] ++ (PageNum <$> seqZ (totalPages - 3) 4)
  else [PageNum 1; Ellipsis] ++ (PageNum <$> seqZ (currentPage - 1) 3)
       ++ [Ellipsis; PageNum totalPages].

(** ** Form fields *)

(** Modelled from the spec: the rule set [config.validation] of a form
    field ([FormFieldConfig] is declared in [types/dynamicTableTypes]):
    numeric bounds, length bounds, a pattern and a custom predicate that
    returns a message or nothing. *)
Record ValidationConfig := mkValidation {
  v_min : option Z;
  v_max : option Z;
  minLength : option Z;
  maxLength : option Z;
  pattern : option string;
  custom : option (value -> option string)
}.

(** Modelled from the spec: [FormFieldConfig], with its key, label,
    required flag, rule set, visibility predicate and value transform; the
    input type, the placement and the section are left out. *)
Record FormFieldConfig := mkField {
  field_key : string;
  field_label : string;
  field_required : bool;
  field_validation : option ValidationConfig;
  showWhen : option (Row -> bool);
  transform : option (value -> value)
}.

(** ** The table component *)

(** Modelled from the spec: [ActionConfig], a custom row action with its
    key and its optional [show] predicate. *)
Record ActionConfig := mkAction {
  action_key : string;
  action_show : option (Row -> bool)
}.

(** The props.  A collaborator is optional; the flag tells whether the
    caller supplied it. *)
Record Props := mkProps {
  columns : list ColumnConfig;
  formFields : list FormFieldConfig;
  filters : list FilterConfig;
  actions : list ActionConfig;
  tableConfig : TableConfig.t;
  has_onDataChange : bool;
  has_onItemEdit : bool;
  has_onItemDelete : bool;
  has_onItemsSelect : bool;
  has_onExport : bool;
  has_onRefresh : bool
}.

(** An invocation of a collaborator. *)
Inductive Call :=
| onDataChange (data : list Row)
| onItemEdit (item : Row)
| onItemDelete (itemId : string)
| onItemsSelect (selectedIds : list string)
| onExport (data : list Row)
| onRefresh
| actionOnClick (key : string) (item : Row).

(** [callback?.(args)] *)
Definition optCall (supplied : bool) (c : Call) : list Call :=
  if supplied then [c] else [].

(** The pending confirmation: [itemId] is the id of the row to delete, or
    "bulk" for the selection. *)
Record DeleteConfirm := mkDeleteConfirm {
  dc_open : bool;
  itemId : string;
  itemName : string
}.

Definition closedConfirm : DeleteConfirm := mkDeleteConfirm false "" "".

(** The state of the component.  [activeFilters] holds strings: its only
    writers are the select control and the date input of a filter, which
    store the value of the control, and the button that clears it. *)
Record State := mkState {
  localData : list Row;
  searchTerm : string;
  activeFilters : list (string * string);
  sortConfig : option SortConfig;
  currentPage : Z;
  selectedItems : list string;
  editModalOpen : bool;
  selectedItem : option Row;
  deleteConfirm : DeleteConfirm;
  viewModalOpen : bool;
  viewItem : option Row
}.

(** The state on mount, seeded from the [data] prop. *)
Definition initialState (data : list Row) : State :=
  mkState data "" [] None 1 [] false None closedConfirm false None.

Definition setLocalData (d : list Row) (s : State) : State :=
  mkState d (searchTerm s) (activeFilters s) (sortConfig s) (currentPage s)
          (selectedItems s) (editModalOpen s) (selectedItem s)
          (deleteConfirm s) (viewModalOpen s) (viewItem s).

Definition setSearchTerm (t : string) (s : State) : State :=
  mkState (localData s) t (activeFilters s) (sortConfig s) (currentPage s)
          (selectedItems s) (editModalOpen s) (selectedItem s)
          (deleteConfirm s) (viewModalOpen s) (viewItem s).

Definition setActiveFilters (f : list (string * string)) (s : State) : State :=
  mkState (localData s) (searchTerm s) f (sortConfig s) (currentPage s)
          (selectedItems s) (editModalOpen s) (selectedItem s)
          (deleteConfirm s) (viewModalOpen s) (viewItem s).

Definition setSortConfig (c : option SortConfig) (s : State) : State :=
  mkState (localData s) (searchTerm s) (activeFilters s) c (currentPage s)
          (selectedItems s) (editModalOpen s) (selectedItem s)
          (deleteConfirm s) (viewModalOpen s) (viewItem s).

Definition setCurrentPage (n : Z) (s : State) : State :=
  mkState (localData s) (searchTerm s) (activeFilters s) (sortConfig s) n
          (selectedItems s) (editModalOpen s) (selectedItem s)
          (deleteConfirm s) (viewModalOpen s) (viewItem s).

Definition setSelectedItems (l : list string) (s : State) : State :=
  mkState (localData s) (searchTerm s) (activeFilters s) (sortConfig s)
          (currentPage s) l (editModalOpen s) (selectedItem s)
          (deleteConfirm s) (viewModalOpen s) (viewItem s).

Definition setEditModalOpen (b : bool) (s : State) : State :=
  mkState (localData s) (searchTerm s) (activeFilters s) (sortConfig s)
          (currentPage s) (selectedItems s) b (selectedItem s)
          (deleteConfirm s) (viewModalOpen s) (viewItem s).

Definition setSelectedItem (i : option Row) (s : State) : State :=
  mkState (localData s) (searchTerm s) (activeFilters s) (sortConfig s)
          (currentPage s) (selectedItems s) (editModalOpen s) i
          (deleteConfirm s) (viewModalOpen s) (viewItem s).

Definition setDeleteConfirm (d : DeleteConfirm) (s : State) : State :=
  mkState (localData s) (searchTerm s) (activeFilters s) (sortConfig s)
          (currentPage s) (selectedItems s) (editModalOpen s) (selectedItem s)
          d (viewModalOpen s) (viewItem s).

Definition setViewModalOpen (b : bool) (s : State) : State :=
  mkState (localData s) (searchTerm s) (activeFilters s) (sortConfig s)
          (currentPage s) (selectedItems s) (editModalOpen s) (selectedItem s)
          (deleteConfirm s) b (viewItem s).

Definition setViewItem (i : option Row) (s : State) : State :=
  mkState (localData s) (searchTerm s) (activeFilters s) (sortConfig s)
          (currentPage s) (selectedItems s) (editModalOpen s) (selectedItem s)
          (deleteConfirm s) (viewModalOpen s) i.

(** [selectedItems.includes(id)] *)
Definition includesId (l : list string) (x : string) : bool :=
  existsb (String.eqb x) l.

Section Table.
Context (env : Env) (p : Props).

Definition cfg : Config.t := config (tableConfig p).

(** The values derived from the state on each render. *)
Definition filteredDataIn (s : State) : list Row :=
  filteredData env cfg (columns p) (filters p) (localData s) (searchTerm s)
               (activeFilters s) (sortConfig s).

Definition totalPages (s : State) : Z := totalPagesOf cfg (filteredDataIn s).

Definition startIndex (s : State) : Z := startIndexOf cfg (currentPage s).

Definition currentData (s : State) : list Row :=
  currentDataOf cfg (filteredDataIn s) (currentPage s).

Definition generatePageNumbers (s : State) : list PageItem :=
  generatePageNumbersOf (totalPages s) (currentPage s).

(** [handleSort(columnKey)] *)
Definition handleSort (columnKey : string) (s : State) : State :=
  match Array_find (fun col => String.eqb (col_key col) columnKey)
                   (columns p) with
  | Some col =>
      if bool_decide (col_sortable col = Some true)
      then
        setSortConfig
          (match sortConfig s with
           | Some current =>
               if String.eqb (sort_key current) columnKey
               then match direction current with
                    | asc => Some (mkSort columnKey desc)
                    | desc => None
                    end
               else Some (mkSort columnKey asc)
           | None => Some (mkSort columnKey asc)
           end) s
      else s
  | None => s
  end.

(** [handleSelectAll(checked)] *)
Definition handleSelectAll (checked : bool) (s : State) : State :=
  if checked
  then setSelectedItems (map id (currentData s)) s
  else setSelectedItems [] s.

(** [handleSelectItem(itemId, checked)] *)
Definition handleSelectItem (itemId : string) (checked : bool) (s : State)
  : State :=
  if checked
  then setSelectedItems (selectedItems s ++ [itemId]) s
  else setSelectedItems
         (List.filter (fun x => negb (String.eqb x itemId)) (selectedItems s))
         s.

(** [handleEdit(item)] *)
Definition handleEdit (item : Row) (s : State) : State :=
  setEditModalOpen true (setSelectedItem (Some item) s).

(** [handleModalSave(updatedItem)] *)
Definition handleModalSave (updatedItem : Row) (s : State)
  : State * list Call :=
  let updatedData :=
    map (fun item =>
           if String.eqb (id item) (id updatedItem) then updatedItem else item)
        (localData s) in
  (setSelectedItem None (setEditModalOpen false (setLocalData updatedData s)),
   optCall (has_onDataChange p) (onDataChange updatedData)
   ++ optCall (has_onItemEdit p) (onItemEdit updatedItem)).

(** [handleView(item)] *)
Definition handleView (item : Row) (s : State) : State :=
  setViewModalOpen true (setViewItem (Some item) s).

(** [item.name?.toString() || item.id] *)
Definition displayName (item : Row) : string :=
  let name := getField item "name" in
  if isNullish name then id item
  else if String.eqb (toString env name) "" then id item
  else toString env name.

(** [handleDelete(item)] *)
Definition handleDelete (item : Row) (s : State) : State :=
  setDeleteConfirm (mkDeleteConfirm true (id item) (displayName item)) s.

(** The click on "Delete Selected". *)
Definition requestBulkDelete (s : State) : State :=
  setDeleteConfirm
    (mkDeleteConfirm true "bulk"
       (pretty (Z.of_nat (length (selectedItems s))) +:+ " selected items"))
    s.

(** The click on "Cancel", and the dialog's [onOpenChange]. *)
Definition cancelDelete (s : State) : State :=
  setDeleteConfirm closedConfirm s.

(** The [newTotalPages] that [confirmDelete] computes.  Like every read in
    a handler, it is of the state of the render whose closure the handler
    belongs to: the rows and the selection as they were before the delete. *)
Definition newTotalPages (s : State) : Z :=
  ceilDiv
    (if String.eqb (itemId (deleteConfirm s)) "bulk"
     then Z.of_nat
            (length
               (List.filter
                  (fun item => negb (includesId (selectedItems s) (id item)))
                  (localData s)))
     else Z.of_nat (length (localData s)) - 1)
    (Config.itemsPerPage cfg).

(** [confirmDelete()]; the state updates are applied after the handler has
    run. *)
Definition confirmDelete (s : State) : State * list Call :=
  let bulk := String.eqb (itemId (deleteConfirm s)) "bulk" in
  let updatedData :=
    if bulk
    then List.filter (fun item => negb (includesId (selectedItems s) (id item)))
                     (localData s)
    else List.filter
           (fun item => negb (String.eqb (id item) (itemId (deleteConfirm s))))
           (localData s) in
  let calls :=
    if bulk
    then optCall (has_onDataChange p) (onDataChange updatedData)
         ++ flat_map (fun x => optCall (has_onItemDelete p) (onItemDelete x))
                     (selectedItems s)
    else optCall (has_onDataChange p) (onDataChange updatedData)
         ++ optCall (has_onItemDelete p)
                    (onItemDelete (itemId (deleteConfirm s))) in
  let s1 := setLocalData updatedData s in
  let s2 := if bulk then setSelectedItems [] s1 else s1 in
  let s3 := setDeleteConfirm closedConfirm s2 in
  let s4 :=
    if (newTotalPages s <? currentPage s) && (0 <? newTotalPages s)
    then setCurrentPage (newTotalPages s) s3
    else s3 in
  (s4, calls).

(** The effect that reports the selection: it runs after every render in
    which [selectedItems] is a new array. *)
Definition selectionEffect (s : State) : list Call :=
  optCall (has_onItemsSelect p) (onItemsSelect (selectedItems s)).

(** [setActiveFilters(prev => ({ ...prev, [key]: value }))] *)
Fixpoint assign (key v : string) (l : list (string * string))
  : list (string * string) :=
  match l with
  | [] => [(key, v)]
  | (k, w) :: r =>
      if String.eqb k key then (k, v) :: r else (k, w) :: assign key v r
  end.

(** What the user, or the parent component, can do to the table: the
    parent hands in new [data]; the user clicks a control or types into
    one.  [SetFilter n v] stores [v] through the control of the [n]-th
    filter, [Sort n] clicks the header of the [n]-th column, [SelectAll]
    clicks the header checkbox, [SelectItem i], [Edit i] and
    [RequestDelete i] act on the [i]-th row of the page, [RowAction n i]
    clicks the [n]-th custom action of that row, [ModalSave item] is the
    edit modal calling [onSave]. *)
Inductive Event :=
| DataChanged (data : list Row)
| Refresh
| Export
| ExportSelected
| SetSearchTerm (t : string)
| SetFilter (n : nat) (v : string)
| ClearFilters
| Sort (n : nat)
| SelectAll
| SelectItem (i : nat)
| ClearSelection
| Edit (i : nat)
| ModalSave (updatedItem : Row)
| CloseModal
| CloseView
| RowAction (n i : nat)
| RequestDelete (i : nat)
| RequestBulkDelete
| CancelDelete
| ConfirmDelete
| PreviousPage
| NextPage
| GotoPage (n : Z).

Definition hasAction (key : string) : bool :=
  existsb (fun a => String.eqb (action_key a) key) (actions p).

(** The rows have an actions cell. *)
Definition hasActionsCell : bool :=
  negb (bool_decide (length (actions p) = 0%nat))
  || negb (bool_decide (length (formFields p) = 0%nat)).

(** The header checkbox is shown checked. *)
Definition headerChecked (s : State) : bool :=
  bool_decide (length (selectedItems s) = length (currentData s))
  && negb (bool_decide (length (currentData s) = 0%nat)).

Definition selectionBarShown (s : State) : bool :=
  Config.enableSelection cfg
  && negb (bool_decide (length (selectedItems s) = 0%nat)).

Definition paginationShown (s : State) : bool :=
  Config.enablePagination cfg && (1 <? totalPages s).

Definition when {A} (b : bool) (x : A) : option A :=
  if b then Some x else None.

(** One event: [None] when the control is not rendered in state [s],
    otherwise the next state and the collaborators invoked.  The guards are
    the conditions of the JSX: the refresh and export buttons need their
    collaborator; the search box needs [enableSearch]; the filter controls
    need [enableFilters] and exist for the select and date filters only;
    the selection bar needs [enableSelection] and a selection that is not
    empty; the row checkboxes and the header checkbox need
    [enableSelection]; the row's own edit button needs form fields and no
    custom action keyed "edit"; the row's delete button needs [onItemDelete]
    and no custom action keyed "delete"; the buttons of the confirmation
    need the dialog to be open; the pagination bar needs [enablePagination]
    and more than one page.  A checkbox reports the opposite of what it
    shows.  An event that calls [setSelectedItems] is followed by the
    effect that reports the selection. *)
Definition step (s : State) (e : Event) : option (State * list Call) :=
  match e with
  | DataChanged data => Some (setLocalData data s, [])
  | Refresh => when (has_onRefresh p) (s, [onRefresh])
  | Export => when (has_onExport p) (s, [onExport (filteredDataIn s)])
  | ExportSelected =>
      when (selectionBarShown s && has_onExport p)
           (s, [onExport
                  (List.filter
                     (fun item => includesId (selectedItems s) (id item))
                     (filteredDataIn s))])
  | SetSearchTerm t => when (Config.enableSearch cfg) (setSearchTerm t s, [])
  | SetFilter n v =>
      f ← filters p !! n;
      let rendered :=
        match filter_type f with
        | FilterSelect =>
            String.eqb v "all" || existsb (String.eqb v) (filter_options f)
        | FilterDate => true
        | _ => false
        end in
      when (Config.enableFilters cfg && rendered)
           (setActiveFilters (assign (filter_key f) v (activeFilters s)) s, [])
  | ClearFilters =>
      when (Config.enableFilters cfg
            && negb (bool_decide (length (filters p) = 0%nat))
            && negb (bool_decide (length (activeFilters s) = 0%nat)))
           (setActiveFilters [] s, [])
  | Sort n =>
      column ← columns p !! n;
      when (bool_decide (col_sortable column = Some true))
           (handleSort (col_key column) s, [])
  | SelectAll =>
      when (Config.enableSelection cfg)
           (let s' := handleSelectAll (negb (headerChecked s)) s in
            (s', selectionEffect s'))
  | SelectItem i =>
      item ← currentData s !! i;
      when (Config.enableSelection cfg)
           (let s' :=
              handleSelectItem (id item)
                (negb (includesId (selectedItems s) (id item))) s in
            (s', selectionEffect s'))
  | ClearSelection =>
      when (selectionBarShown s)
           (let s' := setSelectedItems [] s in (s', selectionEffect s'))
  | Edit i =>
      item ← currentData s !! i;
      when (negb (bool_decide (length (formFields p) = 0%nat))
            && negb (hasAction "edit"))
           (handleEdit item s, [])
  | ModalSave updatedItem =>
      when (negb (bool_decide (length (formFields p) = 0%nat))
            && editModalOpen s && bool_decide (is_Some (selectedItem s)))
           (handleModalSave updatedItem s)
  | CloseModal =>
      when (negb (bool_decide (length (formFields p) = 0%nat))
            && editModalOpen s)
           (setSelectedItem None (setEditModalOpen false s), [])
  | CloseView =>
      when (viewModalOpen s)
           (setViewItem None (setViewModalOpen false s), [])
  | RowAction n i =>
      a ← actions p !! n;
      item ← currentData s !! i;
      if negb (match action_show a with Some f => f item | None => true end)
      then None
      else if String.eqb (action_key a) "view"
      then Some (handleView item s, [])
      else if String.eqb (action_key a) "edit"
      then Some (handleEdit item s, [])
      else Some (s, [actionOnClick (action_key a) item])
  | RequestDelete i =>
      item ← currentData s !! i;
      when (hasActionsCell && has_onItemDelete p && negb (hasAction "delete"))
           (handleDelete item s, [])
  | RequestBulkDelete =>
      when (selectionBarShown s && has_onItemDelete p)
           (requestBulkDelete s, [])
  | CancelDelete => when (dc_open (deleteConfirm s)) (cancelDelete s, [])
  | ConfirmDelete =>
      when (dc_open (deleteConfirm s))
           (let '(s', calls) := confirmDelete s in
            (s',
             if String.eqb (itemId (deleteConfirm s)) "bulk"
             then calls ++ selectionEffect s'
             else calls))
  | PreviousPage =>
      when (paginationShown s)
           (setCurrentPage (Z.max 1 (currentPage s - 1)) s, [])
  | NextPage =>
      when (paginationShown s)
           (setCurrentPage (Z.min (totalPages s) (currentPage s + 1)) s, [])
  | GotoPage n =>
      when (paginationShown s
            && existsb
                 (fun x => match x with PageNum m => m =? n | Ellipsis => false end)
                 (generatePageNumbers s))
           (setCurrentPage n s, [])
  end.

(** A run of events from a state, with the collaborator calls of the run
    in order. *)
Fixpoint run (s : State) (es : list Event) : option (State * list Call) :=
  match es with
  | [] => Some (s, [])
  | e :: r =>
      '(s1, c1) ← step s e;
      '(s2, c2) ← run s1 r;
      Some (s2, c1 ++ c2)
  end.

(** The states the component can be in after mounting with [data]. *)
Inductive reachable (data : list Row) : State -> Prop :=
| reachable_init : reachable data (initialState data)
| reachable_step s e s' calls :
    reachable data s -> step s e = Some (s', calls) -> reachable data s'.

End Table.

(** ** The edit modal: validation and save *)

Module EditModal.

(** The rules of [config.validation]. *)
Inductive Rule :=
| RuleMinLength | RuleMaxLength | RulePattern | RuleMin | RuleMax | RuleCustom.

(** What a pass of [validateForm] builds: the [newErrors] object and, for
    the record, the rules it has tested, each with the key of the field it
    was tested for. *)
Record Report := mkReport {
  newErrors : gmap string string;
  tested : list (string * Rule)
}.

Definition emptyReport : Report := mkReport ∅ [].

(** [newErrors[key] = message] *)
Definition setError (key message : string) (r : Report) : Report :=
  mkReport (<[key := message]> (newErrors r)) (tested r).

(** A configured rule is tested; the message is stored when it fails. *)
Definition testRule (key : string) (rule : Rule) (fails : bool)
  (message : string) (r : Report) : Report :=
  let r := mkReport (newErrors r) (tested r ++ [(key, rule)]) in
  if fails then setError key message r else r.

(** [n && ...] on an optional number: it is present and not zero. *)
Definition truthyLength (n : option Z) : option Z :=
  match n with
  | Some z => if z =? 0 then None else Some z
  | None => None
  end.

(** [pattern && ...] on an optional string: present and not empty. *)
Definition truthyPattern (s : option string) : option string :=
  match s with
  | Some t => if String.eqb t "" then None else Some t
  | None => None
  end.

(** [value < bound] and [value > bound] on numbers; false for NaN. *)
Definition numLt (n : number) (bound : Z) : bool :=
  match n with Fin z => z <? bound | NaN => false end.

Definition numGt (n : number) (bound : Z) : bool :=
  match n with Fin z => bound <? z | NaN => false end.

Definition stringLength (s : string) : Z := Z.of_nat (String.length s).

Record ModalState := mkModal {
  formData : option Row;
  errors : gmap string string;
  uploadedFiles : gmap string (list string)
}.

(** [record[key] = v].  The [id] of a record is a string; a write of
    another kind of value to it is not represented. *)
Definition setField (key : string) (v : value) (item : Row) : Row :=
  if String.eqb key "id"
  then match v with VStr s => mkRow s (fields item) | _ => item end
  else mkRow (id item) (<[key := v]> (fields item)).

(** [fieldConfigs.forEach(body)] with a body that can throw: the elements
    are visited in order and the first exception ends the loop; [None] is
    the exception. *)
Fixpoint forEach {A S : Type} (body : S -> A -> option S) (s : S)
  (l : list A) : option S :=
  match l with
  | [] => Some s
  | x :: l =>
      match body s x with
      | Some s' => forEach body s' l
      | None => None
      end
  end.

Section Validation.
Context (env : Env) (fieldConfigs : list FormFieldConfig).

(** [!value || (typeof value === "string" && value.trim() === "")] *)
Definition requiredFails (v : value) : bool :=
  negb (truthy v)
  || match v with VStr s => String.eqb (trim env s) "" | _ => false end.

(** [handleInputChange(key, value)]: the value is stored, transformed
    when the field has a [transform], and the error of the key, if any, is
    cleared. *)
Definition handleInputChange (key : string) (v : value) (m : ModalState)
  : ModalState :=
  match formData m with
  | None => m
  | Some prev =>
      let updated := setField key v prev in
      let updated :=
        match Array_find (fun c => String.eqb (field_key c) key)
                         fieldConfigs with
        | Some fieldConfig =>
            match transform fieldConfig with
            | Some f => setField key (f v) updated
            | None => updated
            end
        | None => updated
        end in
      let newErrors :=
        match errors m !! key with
        | Some e => if String.eqb e "" then errors m else delete key (errors m)
        | None => errors m
        end in
      mkModal (Some updated) newErrors (uploadedFiles m)
  end.

(** [if (typeof value === "string") { ... }]: the two length rules and the
    pattern.  [new RegExp(pattern)] throws a SyntaxError when the pattern
    is malformed; the result is then [None]. *)
Definition stringRules (config : FormFieldConfig) (s : string)
  (validation : ValidationConfig) (r : Report) : option Report :=
  let key := field_key config in
  let label := field_label config in
  let r :=
    match truthyLength (minLength validation) with
    | Some n =>
        testRule key RuleMinLength (stringLength s <? n)
          (label +:+ " must be at least " +:+ pretty n +:+ " characters")
          r
    | None => r
    end in
  let r :=
    match truthyLength (maxLength validation) with
    | Some n =>
        testRule key RuleMaxLength (n <? stringLength s)
          (label +:+ " must be no more than " +:+ pretty n
           +:+ " characters") r
    | None => r
    end in
  match truthyPattern (pattern validation) with
  | Some pat =>
      match newRegExp env pat with
      | Some test =>
          Some (testRule key RulePattern (negb (test s))
                  (label +:+ " format is invalid") r)
      | None => None
      end
  | None => Some r
  end.

(** [if (typeof value === "number") { ... }]: the two bounds. *)
Definition numberRules (config : FormFieldConfig) (n : number)
  (validation : ValidationConfig) (r : Report) : Report :=
  let key := field_key config in
  let label := field_label config in
  let r :=
    match v_min validation with
    | Some m =>
        testRule key RuleMin (numLt n m)
          (label +:+ " must be at least " +:+ pretty m) r
    | None => r
    end in
  match v_max validation with
  | Some m =>
      testRule key RuleMax (numGt n m)
        (label +:+ " must be no more than " +:+ pretty m) r
  | None => r
  end.

(** [if (custom) { ... }]: the predicate of the caller. *)
Definition customRule (config : FormFieldConfig) (v : value)
  (validation : ValidationConfig) (r : Report) : Report :=
  match custom validation with
  | Some f =>
      match f v with
      | Some customError =>
          testRule (field_key config) RuleCustom
            (negb (String.eqb customError "")) customError r
      | None => testRule (field_key config) RuleCustom false "" r
      end
  | None => r
  end.

(** The type-specific rules of a field whose value is present; [None]
    when the pattern of the field makes [new RegExp] throw. *)
Definition applyValidation (config : FormFieldConfig) (v : value)
  (validation : ValidationConfig) (r : Report) : option Report :=
  match
    match v with
    | VStr s => stringRules config s validation r
    | _ => Some r
    end
  with
  | Some r =>
      let r :=
        match v with
        | VNum n => numberRules config n validation r
        | _ => r
        end in
      Some (customRule config v validation r)
  | None => None
  end.

(** The body of [fieldConfigs.forEach((config) => ...)]; [None] when it
    throws. *)
Definition validateField (data : Row) (r : Report) (config : FormFieldConfig)
  : option Report :=
  let v := getField data (field_key config) in
  if field_required config && requiredFails v
  then Some (setError (field_key config)
               (field_label config +:+ " is required") r)
  else if negb (truthy v) then Some r
  else
    match field_validation config with
    | Some validation => applyValidation config v validation r
    | None => Some r
    end.

(** The pass over the fields made by [validateForm]; [None] when a field
    throws, which ends the pass. *)
Definition validateFields (data : Row) : option Report :=
  forEach (validateField data) emptyReport fieldConfigs.

(** [validateForm()]: the new state and the result; [None] when the pass
    throws, which happens before [setErrors]. *)
Definition validateForm (m : ModalState) : option (ModalState * bool) :=
  match formData m with
  | None => Some (m, false)
  | Some data =>
      match validateFields data with
      | Some r =>
          Some (mkModal (formData m) (newErrors r) (uploadedFiles m),
                bool_decide (size (newErrors r) = 0%nat))
      | None => None
      end
  end.

(** The merge of the uploads into the record that is saved. *)
Definition finalDataOf (data : Row) (files : gmap string (list string))
  : Row :=
  foldr
    (fun '(key, names) acc =>
       if bool_decide (length names = 0%nat) then acc
       else setField key (VArr (VFile <$> names)) acc)
    data (map_to_list files).

(** [handleSave()]: the new state and the records [onSave] is invoked
    with (none or one).  When [validateForm] throws, the promise of
    [handleSave] is rejected: no state has been set and [onSave] is not
    invoked. *)
Definition handleSave (m : ModalState) : ModalState * list Row :=
  match formData m with
  | None => (m, [])
  | Some data =>
      match validateForm m with
      | Some (m', valid) =>
          if valid then (m', [finalDataOf data (uploadedFiles m)])
          else (m', [])
      | None => (m, [])
      end
  end.

(** [renderFormField(config)] renders the field: it returns null when
    there is no record, or when [showWhen] is given and is false on it. *)
Definition fieldRendered (m : ModalState) (config : FormFieldConfig) : bool :=
  match formData m with
  | None => false
  | Some data =>
      match showWhen config with
      | Some f => f data
      | None => true
      end
  end.

End Validation.

End EditModal.

(** ** A host environment to run examples in

    Decimal integer literals, ISO calendar dates at UTC, byte-wise
    collation, and the regular expressions that are a plain text to find.
    A text is a sequence of code units below 256. *)

Module Host.

(** The white space and the line terminators below 256: U+0009 to U+000D,
    U+0020 and U+00A0. *)
Definition isWhite (c : ascii) : bool :=
  let n := nat_of_ascii c in
  ((9 <=? n) && (n <=? 13) || (n =? 32) || (n =? 160))%nat.

Fixpoint trimStart (s : string) : string :=
  match s with
  | EmptyString => EmptyString
  | String c r => if isWhite c then trimStart r else s
  end.

Fixpoint revString (s acc : string) : string :=
  match s with
  | EmptyString => acc
  | String c r => revString r (String c acc)
  end.

Definition trim (s : string) : string :=
  revString (trimStart (revString (trimStart s) "")) "".

(** A pattern is a plain text to find; one that opens a group and does not
    close it is malformed. *)
Definition newRegExp (pat : string) : option (string -> bool) :=
  if includes pat "(" && negb (includes pat ")") then None
  else Some (fun s => includes s pat).

Definition digitOf (c : ascii) : option Z :=
  let n := nat_of_ascii c in
  if ((48 <=? n) && (n <=? 57))%nat then Some (Z.of_nat n - 48) else None.

(** The longest prefix of digits, as a number, and how long it is. *)
Fixpoint digitsPrefix (s : string) (acc : Z) (count : nat) : Z * nat * string :=
  match s with
  | EmptyString => (acc, count, s)
  | String c r =>
      match digitOf c with
      | Some d => digitsPrefix r (10 * acc + d) (S count)
      | None => (acc, count, s)
      end
  end.

Definition signed (s : string) : Z * string :=
  match s with
  | String "-" r => (-1, r)
  | String "+" r => (1, r)
  | _ => (1, s)
  end.

Definition parseFloat (s : string) : number :=
  let '(sign, r) := signed (trimStart s) in
  let '(n, count, _) := digitsPrefix r 0 0 in
  if (count =? 0)%nat then NaN else Fin (sign * n).

Definition stringToNumber (s : string) : number :=
  let t := trim s in
  if String.eqb t "" then Fin 0
  else
    let '(sign, r) := signed t in
    let '(n, count, rest) := digitsPrefix r 0 0 in
    if (count =? 0)%nat || negb (String.eqb rest "") then NaN
    else Fin (sign * n).

(** Days from the epoch to a civil date (proleptic Gregorian calendar). *)
Definition daysFromCivil (y m d : Z) : Z :=
  let y := if m <=? 2 then y - 1 else y in
  let era := y / 400 in
  let yoe := y - era * 400 in
  let mp := (m + 9) mod 12 in
  let doy := (153 * mp + 2) / 5 + d - 1 in
  let doe := yoe * 365 + yoe / 4 - yoe / 100 + doy in
  era * 146097 + doe - 719468.

Definition isLeap (y : Z) : bool :=
  ((y mod 4 =? 0) && negb (y mod 100 =? 0)) || (y mod 400 =? 0).

Definition daysInMonth (y m : Z) : Z :=
  if m =? 2 then (if isLeap y then 29 else 28)
  else if (m =? 4) || (m =? 6) || (m =? 9) || (m =? 11) then 30
  else 31.

(** "YYYY-MM-DD", read as midnight UTC. *)
Definition dateParse (s : string) : option Z :=
  let '(y, cy, r1) := digitsPrefix s 0 0 in
  match r1 with
  | String "-" r1 =>
      let '(m, cm, r2) := digitsPrefix r1 0 0 in
      match r2 with
      | String "-" r2 =>
          let '(d, cd, r3) := digitsPrefix r2 0 0 in
          if (cy =? 4)%nat && (cm =? 2)%nat && (cd =? 2)%nat
             && String.eqb r3 ""
             && (1 <=? m) && (m <=? 12) && (1 <=? d) && (d <=? daysInMonth y m)
          then Some (daysFromCivil y m d * msPerDay)
          else None
      | _ => None
      end
  | _ => None
  end.

Definition localeCompare (a b : string) : Z :=
  match String.compare a b with
  | Lt => -1
  | Eq => 0
  | Gt => 1
  end.

Definition env : Env :=
  {| JS.parseFloat := parseFloat;
     JS.stringToNumber := stringToNumber;
     numberToLocaleString := pretty;
     JS.dateParse := dateParse;
     localOffset := fun _ => 0;
     dateToString := pretty;
     toLocaleDateString := fun t => pretty (t / msPerDay);
     toLocaleString := pretty;
     JS.localeCompare := localeCompare;
     JS.trim := trim;
     JS.newRegExp := newRegExp |}.

End Host.

(** ** Orderings of a sorted array *)

(** No two neighbours stand in an order that the comparison function
    rejects whichever way it is asked.  Insertion, binary insertion and
    merging all leave an array in this shape, whatever the comparison
    function, because two elements end up side by side only after they
    were compared with each other. *)
Fixpoint locallyOrdered {A} (compareFn : A -> A -> number) (l : list A)
  : Prop :=
  match l with
  | [] => True
  | x :: r =>
      match r with
      | [] => True
      | y :: _ =>
          (compareResult (compareFn x y) <= 0
           \/ 0 <= compareResult (compareFn y x))
          /\ locallyOrdered compareFn r
      end
  end.

(** The row has no value to sort by under [key]. *)
Definition nullAt (key : string) (item : Row) : bool :=
  isNullish (getField item key).

(** Every row without a value under [key] stands after every row with
    one. *)
Definition nullsLast (key : string) (l : list Row) : Prop :=
  forall (i j : nat) (a b : Row),
    l !! i = Some a -> l !! j = Some b ->
    nullAt key a = true -> nullAt key b = false -> (j < i)%nat.

(** The ids [onItemDelete] was invoked with, in order. *)
Definition deleteNotifications (calls : list Call) : list string :=
  omap (fun c => match c with onItemDelete x => Some x | _ => None end) calls.

(** ** Example data *)

Module Ex.

(** A configuration in which the caller supplies every option. *)
Definition fullTableConfig : TableConfig.t :=
  TableConfig.mk (Some "Users") (Some "All users") (Some "Find...") (Some 25)
    (Some false) (Some false) (Some false) (Some true) (Some false)
    (Some true) (Some false) (Some true) (Some true) (Some "wide")
    (Some "Nothing here") (Some "Please wait").

Definition scored (i : string) (score : value) : Row :=
  mkRow i {[ "score" := score ]}.

(** Scores null, 10 and 5. *)
Definition scores : list Row :=
  [scored "1" VNull; scored "2" (VNum (Fin 10)); scored "3" (VNum (Fin 5))].

Definition byScore (d : Direction) : option SortConfig :=
  Some (mkSort "score" d).

(** One row per page, with selection and the delete collaborator. *)
Definition pagedConfig : TableConfig.t :=
  TableConfig.mk None None None (Some 1) None None None (Some true) None
    None None None None None None None.

Definition nameField : FormFieldConfig :=
  mkField "name" "Name" false None None None.

Definition props : Props :=
  mkProps [mkColumn "name" "Name" ColText (Some true) None]
          [nameField] [] [] pagedConfig true true true true true true.

Definition named (i name : string) : Row :=
  mkRow i {[ "name" := VStr name ]}.

Definition people : list Row :=
  [named "1" "Alice"; named "2" "Bob"; named "3" "Carol"].

(** Alice is selected, then Bob on the next page; Bob is deleted on his
    own; then the selection is sent for deletion. *)
Definition staleRun : list Event :=
  [SelectItem 0; NextPage; SelectItem 0; RequestDelete 0; ConfirmDelete;
   RequestBulkDelete].

(** All three are selected, page by page, and sent for deletion from
    page 3. *)
Definition emptyingRun : list Event :=
  [SelectItem 0; NextPage; SelectItem 0; NextPage; SelectItem 0;
   RequestBulkDelete].

(** On page 3, the delete of its only row is requested. *)
Definition lastPageRun : list Event :=
  [NextPage; NextPage; RequestDelete 0].

(** With the search term "a" (Alice and Carol), the row of page 2 is
    deleted. *)
Definition searchRun : list Event :=
  [SetSearchTerm "a"; NextPage; RequestDelete 0; ConfirmDelete].

(** The state a run of events from the mounted example leads to. *)
Definition after (es : list Event) : State :=
  match run Host.env props (initialState people) es with
  | Some (s, _) => s
  | None => initialState people
  end.

Definition lastPageState : State := after lastPageRun.

(** A date filter on the field "joined", and two rows: one joined on a
    day, one whose field does not hold a date. *)
Definition joinedFilter : FilterConfig :=
  mkFilter "joined" "Joined" FilterDate false [].

Definition joinedOn (i : string) (v : value) : Row :=
  mkRow i {[ "joined" := v ]}.

Definition members : list Row :=
  [joinedOn "1" (VStr "2024-01-15"); joinedOn "2" (VStr "n/a");
   mkRow "3" ∅].

(** A required field that is shown for married people only, and a hidden
    field with a length rule. *)
Definition isMarried (data : Row) : bool :=
  strictEq (getField data "married") (VBool true).

Definition spouseField : FormFieldConfig :=
  mkField "spouse" "Spouse" true None (Some isMarried) None.

Definition maidenNameField : FormFieldConfig :=
  mkField "maidenName" "Maiden name" false
          (Some (mkValidation None None (Some 3) None None None))
          (Some isMarried) None.

Definition single : Row :=
  mkRow "1" {[ "married" := VBool false; "maidenName" := VStr "x" ]}.

(** A required e-mail field with rules, and a second field specification
    on the same key with another label. *)
Definition emailRules : ValidationConfig :=
  mkValidation None None (Some 5) None (Some "@")
               (Some (fun _ => Some "Not accepted")).

Definition emailField : FormFieldConfig :=
  mkField "email" "Email" true (Some emailRules) None None.

Definition contactField : FormFieldConfig :=
  mkField "email" "Contact email" true None None None.

Definition noteField : FormFieldConfig :=
  mkField "note" "Note" false
          (Some (mkValidation None None (Some 2) None None None)) None None.

(** A space, a no-break space (U+00A0) and a tab. *)
Definition blank : string :=
  String " " (String (ascii_of_nat 160) (String (ascii_of_nat 9) "")).

(** A field whose pattern opens a group that it does not close, and a
    record with a blank e-mail and a text for that field. *)
Definition brokenField : FormFieldConfig :=
  mkField "code" "Code" false
          (Some (mkValidation None None None None (Some "(") None)) None None.

Definition blankEmail : Row :=
  mkRow "7" {[ "email" := VStr blank; "code" := VStr "x1" ]}.

Definition noEmail : Row := mkRow "7" ∅.

(** Two rows per page, four people. *)
Definition pairConfig : TableConfig.t :=
  TableConfig.mk None None None (Some 2) None None None (Some true) None
    None None None None None None None.

Definition pairProps : Props :=
  mkProps [mkColumn "name" "Name" ColText (Some true) None]
          [nameField] [] [] pairConfig true true true true true true.

Definition four : list Row :=
  [named "1" "Alice"; named "2" "Bob"; named "3" "Carol"; named "4" "Dave"].

(** A table with a sortable and a plain column. *)
Definition nameColumn : ColumnConfig :=
  mkColumn "name" "Name" ColText (Some true) None.

Definition noteColumn : ColumnConfig :=
  mkColumn "note" "Note" ColText None None.

Definition sortProps : Props :=
  mkProps [nameColumn; noteColumn] [nameField] [] [] pairConfig
          true true true true true true.

(** Staff with a role and a status, and a select filter on each. *)
Definition employee (i name role status : string) : Row :=
  mkRow i {[ "name" := VStr name; "role" := VStr role;
             "status" := VStr status ]}.

Definition staff : list Row :=
  [employee "1" "Alice" "admin" "active";
   employee "2" "Bob" "user" "active";
   employee "3" "Carol" "admin" "inactive";
   employee "4" "Bobby" "user" "inactive"].

Definition roleFilter : FilterConfig :=
  mkFilter "role" "Role" FilterSelect false ["admin"; "user"].

Definition statusFilter : FilterConfig :=
  mkFilter "status" "Status" FilterSelect false ["active"; "inactive"].

Definition staffProps : Props :=
  mkProps [nameColumn] [nameField] [roleFilter; statusFilter] [] pairConfig
          true true true true true true.

(** A table one of whose rows has the id "bulk". *)
Definition withBulk : list Row :=
  [named "1" "Alice"; named "bulk" "Bulk order"; named "2" "Bob"].

Definition salaryColumn : ColumnConfig :=
  mkColumn "salary" "Salary" ColCurrency (Some true) None.

Definition shortEmail : Row := mkRow "7" {[ "email" := VStr "ab" ]}.

Definition married : Row :=
  mkRow "8" {[ "name" := VStr "Dana"; "married" := VBool true;
               "spouse" := VStr "Eli" ]}.

(** A required age with a lower bound, and a record whose age is 0. *)
Definition ageField : FormFieldConfig :=
  mkField "age" "Age" true
          (Some (mkValidation (Some 18) None None None None None)) None None.

Definition newborn : Row := mkRow "9" {[ "age" := VNum (Fin 0) ]}.

End Ex.

(** ** The edit modal: uploads and their previews *)

Module Uploads.

Import EditModal.

(** The object URLs of the browser: [URL.createObjectURL] hands out a URL
    that was never handed out before and keeps it alive until
    [URL.revokeObjectURL] is called with it.  A URL is identified by the
    number of the call that created it. *)
Record Browser := mkBrowser {
  nextUrl : nat;
  live : list nat
}.

Definition createObjectURL (b : Browser) : nat * Browser :=
  (nextUrl b, mkBrowser (S (nextUrl b)) (live b ++ [nextUrl b])).

Definition revokeObjectURL (url : nat) (b : Browser) : Browser :=
  mkBrowser (nextUrl b)
            (List.filter (fun u => negb (Nat.eqb u url)) (live b)).

(** The state of the modal with the previews of its uploads, and the
    browser.  A file is identified by its name. *)
Record State := mkState {
  modal : ModalState;
  filePreviewUrls : gmap string (list nat);
  browser : Browser
}.

(** The modal has just been mounted, in a browser without object URLs. *)
Definition initial : State :=
  mkState (mkModal None ∅ ∅) ∅ (mkBrowser 0 []).

(** [uploadedFiles[key] || []] and [filePreviewUrls[key] || []] *)
Definition filesOf (st : State) (key : string) : list string :=
  default [] (uploadedFiles (modal st) !! key).

Definition previewsOf (st : State) (key : string) : list nat :=
  default [] (filePreviewUrls st !! key).

(** The body of [newFiles.forEach((file) => ...)]: a URL is created for the
    file and appended to the previews of the field, of which five are
    kept. *)
Definition addPreview (fieldKey : string)
  (acc : gmap string (list nat) * Browser) (file : string)
  : gmap string (list nat) * Browser :=
  let '(url, b) := createObjectURL (snd acc) in
  (<[fieldKey := take 5 (default [] (fst acc !! fieldKey) ++ [url])]> (fst acc),
   b).

(** [handleFileUpload(fieldKey, files)]; [files] is [None] for null. *)
Definition handleFileUpload (fieldKey : string) (files : option (list string))
  (st : State) : State :=
  match files with
  | None => st
  | Some fileList =>
      let newFiles := take 5 fileList in
      let m := modal st in
      let uploaded :=
        <[fieldKey := take 5 (filesOf st fieldKey ++ newFiles)]>
          (uploadedFiles m) in
      let previews :=
        foldl (addPreview fieldKey) (filePreviewUrls st, browser st) newFiles in
      mkState (mkModal (formData m) (errors m) uploaded)
              (fst previews) (snd previews)
  end.

(** [removeFile(fieldKey, index)] *)
Definition removeFile (fieldKey : string) (index : nat) (st : State) : State :=
  let m := modal st in
  let uploaded :=
    <[fieldKey := match uploadedFiles m !! fieldKey with
                  | Some l => delete index l
                  | None => []
                  end]> (uploadedFiles m) in
  let urls := previewsOf st fieldKey in
  let b :=
    match urls !! index with
    | Some url => revokeObjectURL url (browser st)
    | None => browser st
    end in
  mkState (mkModal (formData m) (errors m) uploaded)
          (<[fieldKey := delete index urls]> (filePreviewUrls st)) b.

(** [Object.values(filePreviewUrls).flat()] *)
Definition allPreviews (st : State) : list nat :=
  concat (snd <$> map_to_list (filePreviewUrls st)).

(** [handleClose()]: the form is emptied, every preview URL is revoked and
    [onClose] is invoked (once). *)
Definition handleClose (st : State) : State :=
  mkState (mkModal None ∅ ∅) ∅
          (foldl (fun b url => revokeObjectURL url b) (browser st)
                 (allPreviews st)).

(** The effect on a new [item]: the form is seeded with a copy of it; the
    errors, the uploads and the previews are dropped. *)
Definition openItem (item : Row) (st : State) : State :=
  mkState (mkModal (Some item) ∅ ∅) ∅ (browser st).

(** What the user does with the uploads of the open modal. *)
Inductive Action :=
| Upload (fieldKey : string) (files : option (list string))
| Remove (fieldKey : string) (index : nat)
| Close
| Open (item : Row).

Definition act (st : State) (a : Action) : State :=
  match a with
  | Upload fieldKey files => handleFileUpload fieldKey files st
  | Remove fieldKey index => removeFile fieldKey index st
  | Close => handleClose st
  | Open item => openItem item st
  end.

(** The previews of the fields other than [key]. *)
Definition otherPreviews (key : string) (st : State) : list nat :=
  concat (snd <$> map_to_list (delete key (filePreviewUrls st))).

(** The uploads and the previews of every field go together: there are as
    many of the one as of the other, and at most five. *)
Definition aligned (st : State) : Prop :=
  forall key,
    length (filesOf st key) = length (previewsOf st key)
    /\ (length (filesOf st key) <= 5)%nat.

(** The URL is the preview of some field. *)
Definition shown (st : State) (url : nat) : Prop :=
  exists key, In url (previewsOf st key).

(** The state the modal keeps between two actions: the uploads and the
    previews go together, no URL is the preview of two files, every preview
    is alive, and every URL that is alive was created by the browser. *)
Definition consistent (st : State) : Prop :=
  aligned st
  /\ NoDup (allPreviews st)
  /\ (forall url, In url (allPreviews st) -> In url (live (browser st)))
  /\ (forall url, In url (live (browser st)) ->
                  (url < nextUrl (browser st))%nat).

End Uploads.

(** ** The animated icon *)

Module Lordicon.

(** A palette as the caller writes it: the entries of the object in
    insertion order; an entry may be undefined. *)
Definition Colors := list (string * option string).

Record Props := mkProps {
  colors : option Colors;
  hoverColors : option Colors;
  darkColors : option Colors;
  darkHoverColors : option Colors;
  isActive : bool
}.

(** The truthiness of a colour: undefined and the empty string are falsy. *)
Definition truthy (v : option string) : bool :=
  match v with
  | Some s => negb (String.eqb s "")
  | None => false
  end.

(** [`${key}:${value}`] *)
Definition entry (kv : string * option string) : string :=
  fst kv +:+ ":" +:+ default "" (snd kv).

(** [formatColors(colorObj)] *)
Definition formatColors (colorObj : option Colors) : option string :=
  match colorObj with
  | None => None
  | Some obj =>
      let colorEntries :=
        List.map entry (List.filter (fun kv => truthy (snd kv)) obj) in
      if (0 <? Z.of_nat (length colorEntries))
      then Some (String.concat "," colorEntries)
      else None
  end.

Definition green : Colors :=
  [("primary", Some "#4dba28"); ("secondary", Some "#4bb3fd")].

Definition gray : Colors :=
  [("primary", Some "#6b7280"); ("secondary", Some "#9ca3af")].

(** [isDark && palette]: the palette, in the dark theme. *)
Definition inDark (isDark : bool) (palette : option Colors) : option Colors :=
  if isDark then palette else None.

(** [getCurrentColors()], for the theme of [useTheme()] and the hover
    state. *)
Definition getCurrentColors (p : Props) (theme : option string)
  (isHovered : bool) : Colors :=
  let isDark := bool_decide (theme = Some "dark") in
  if isActive p then
    match inDark isDark (darkColors p) with
    | Some c => c
    | None => default green (colors p)
    end
  else if isHovered then
    match inDark isDark (darkHoverColors p) with
    | Some c => c
    | None =>
        match hoverColors p with
        | Some c => c
        | None =>
            match inDark isDark (darkColors p) with
            | Some c => c
            | None => default green (colors p)
            end
        end
    end
  else
    match inDark isDark (darkColors p) with
    | Some c => c
    | None => default gray (colors p)
    end.

(** [formattedColors], the [colors] attribute of the icon. *)
Definition formattedColors (p : Props) (theme : option string)
  (isHovered : bool) : option string :=
  formatColors (Some (getCurrentColors p theme isHovered)).

End Lordicon.

(** ** The dashboard frame and its sidebar *)

Module DashboardWrapper.

Definition minWidth : Z := 72.
Definition maxWidth : Z := 400.

(** [getIconColors(isActive, isDark)] *)
Definition getIconColors (isActive isDark : bool) : Lordicon.Colors :=
  if isActive then
    [("primary", Some (if isDark then "#FFFF00" else "#4dba28"));
     ("secondary", Some (if isDark then "#FFFF00" else "#4dba28"))]
  else
    [("primary", Some (if isDark then "#FFFF00" else "#4dba28"));
     ("secondary", Some (if isDark then "#FFFF00" else "#4dba28"))].

(** The icon of a link: [<Lordicon colors={getIconColors(isActive, isDark)}
    .../>], with neither another palette nor [isActive]. *)
Definition linkIcon (pathname href : string) (theme : option string)
  : Lordicon.Props :=
  Lordicon.mkProps
    (Some (getIconColors (String.eqb pathname href)
                         (bool_decide (theme = Some "dark"))))
    None None None false.

(** The state of the frame.  Widths and mouse positions are whole pixels. *)
Record State := mkState {
  open : bool;
  sidebarWidth : Z;
  isResizing : bool;
  startX : Z;
  startWidth : Z;
  manualToggle : bool
}.

Definition initial : State := mkState false 220 false 0 0 false.

(** [handleMouseDown(e)] on the border, with [e.clientX] *)
Definition handleMouseDown (clientX : Z) (s : State) : State :=
  mkState (open s) (sidebarWidth s) true clientX (sidebarWidth s)
          (manualToggle s).

(** [handleMouseMove(e)]; the listener is on the document while
    [isResizing]. *)
Definition handleMouseMove (clientX : Z) (s : State) : State :=
  if negb (isResizing s) then s
  else
    let deltaX := clientX - startX s in
    let newWidth :=
      Z.min (Z.max (startWidth s + deltaX) minWidth) maxWidth in
    mkState (negb (newWidth <=? minWidth + 20)) newWidth
            (isResizing s) (startX s) (startWidth s) (manualToggle s).

(** [handleMouseUp()]; the listener is on the document while
    [isResizing]. *)
Definition handleMouseUp (s : State) : State :=
  if negb (isResizing s) then s
  else mkState (open s) (sidebarWidth s) false (startX s) (startWidth s)
               (manualToggle s).

(** [handleToggleClick()] *)
Definition handleToggleClick (s : State) : State :=
  mkState (negb (open s)) (sidebarWidth s) (isResizing s) (startX s)
          (startWidth s) true.

(** [setOpen], as handed to the sidebar. *)
Definition setOpen (b : bool) (s : State) : State :=
  mkState b (sidebarWidth s) (isResizing s) (startX s) (startWidth s)
          (manualToggle s).

(** The effect on [open], [isResizing] and [manualToggle]: a toggle that is
    not part of a drag sets the width. *)
Definition toggleEffect (s : State) : State :=
  if negb (isResizing s) && manualToggle s then
    mkState (open s) (if open s then 220 else minWidth) (isResizing s)
            (startX s) (startWidth s) false
  else s.

Inductive Event :=
| MouseDown (clientX : Z)
| MouseMove (clientX : Z)
| MouseUp
| ToggleClick
| SetOpen (b : bool).

(** An event, its handler and the effect that follows the render. *)
Definition step (s : State) (e : Event) : State :=
  toggleEffect
    match e with
    | MouseDown x => handleMouseDown x s
    | MouseMove x => handleMouseMove x s
    | MouseUp => handleMouseUp s
    | ToggleClick => handleToggleClick s
    | SetOpen b => setOpen b s
    end.

Definition run (s : State) (events : list Event) : State :=
  foldl step s events.

(** [Math.min(Math.max(w, minWidth), maxWidth)] *)
Definition clampWidth (w : Z) : Z := Z.min (Z.max w minWidth) maxWidth.

End DashboardWrapper.

(** ** Further readings of the state *)

(** The page numbers of the pagination bar, without the ellipses. *)
Definition pageNumbersOf (l : list PageItem) : list Z :=
  omap (fun x => match x with PageNum n => Some n | Ellipsis => None end) l.

(** [handleSort(columnKey)] called [n] times in a row. *)
Fixpoint clickHeader (p : Props) (n : nat) (columnKey : string) (s : State)
  : State :=
  match n with
  | O => s
  | S m => handleSort p columnKey (clickHeader p m columnKey s)
  end.

(** The entries of a report are messages that are not empty, each under
    the key of one of the given fields. *)
Definition wellKeyed (keys : list string) (r : EditModal.Report) : Prop :=
  forall k msg,
    EditModal.newErrors r !! k = Some msg -> msg <> "" /\ In k keys.

(** * Properties *)

(** ** Configuration normalizer *)

(** C8, as the specification words it, fails: on the empty configuration
    the resolved layout is striped. *)
Lemma config_empty_is_striped :
  Config.striped (config TableConfig.empty) <> false.
Proof. discriminate. Qed.

(** C8 (amended): on the empty partial configuration the normalizer resolves
    search, filters, pagination (10 items per page) and sorting to enabled,
    selection to disabled, and the layout to striped, not bordered and not
    compact; an option the caller supplies replaces its default; the
    normalizer is a total function. *)
Theorem config_defaults_and_overrides :
  config TableConfig.empty
  = Config.mk "Data Table" "" "Search..." 10 true true true false true
              false true false false "" "No data found" "Loading..."
  /\ forall tc : TableConfig.t,
      (forall v, TableConfig.title tc = Some v ->
                 Config.title (config tc) = v)
      /\ (forall v, TableConfig.description tc = Some v ->
                    Config.description (config tc) = v)
      /\ (forall v, TableConfig.searchPlaceholder tc = Some v ->
                    Config.searchPlaceholder (config tc) = v)
      /\ (forall v, TableConfig.itemsPerPage tc = Some v ->
                    Config.itemsPerPage (config tc) = v)
      /\ (forall v, TableConfig.enableSearch tc = Some v ->
                    Config.enableSearch (config tc) = v)
      /\ (forall v, TableConfig.enableFilters tc = Some v ->
                    Config.enableFilters (config tc) = v)
      /\ (forall v, TableConfig.enablePagination tc = Some v ->
                    Config.enablePagination (config tc) = v)
      /\ (forall v, TableConfig.enableSelection tc = Some v ->
                    Config.enableSelection (config tc) = v)
      /\ (forall v, TableConfig.enableSorting tc = Some v ->
                    Config.enableSorting (config tc) = v)
      /\ (forall v, TableConfig.stickyHeader tc = Some v ->
                    Config.stickyHeader (config tc) = v)
      /\ (forall v, TableConfig.striped tc = Some v ->
                    Config.striped (config tc) = v)
      /\ (forall v, TableConfig.bordered tc = Some v ->
                    Config.bordered (config tc) = v)
      /\ (forall v, TableConfig.compact tc = Some v ->
                    Config.compact (config tc) = v)
      /\ (forall v, TableConfig.className tc = Some v ->
                    Config.className (config tc) = v)
      /\ (forall v, TableConfig.emptyMessage tc = Some v ->
                    Config.emptyMessage (config tc) = v)
      /\ (forall v, TableConfig.loadingMessage tc = Some v ->
                    Config.loadingMessage (config tc) = v).
Proof.
  split; [reflexivity|].
  intros tc. unfold config. cbn.
  repeat split; intros v Hv; rewrite Hv; reflexivity.
Qed.

Lemma config_defaults_and_overrides_witness :
  Config.title (config Ex.fullTableConfig) = "Users"
  /\ Config.itemsPerPage (config Ex.fullTableConfig) = 25
  /\ Config.enableSearch (config Ex.fullTableConfig) = false
  /\ Config.enableSelection (config Ex.fullTableConfig) = true
  /\ Config.striped (config Ex.fullTableConfig) = false
  /\ Config.loadingMessage (config Ex.fullTableConfig) = "Please wait".
Proof.
  destruct config_defaults_and_overrides as [_ H].
  destruct (H Ex.fullTableConfig)
    as (Ht & _ & _ & Hi & Hs & _ & _ & Hsel & _ & _ & Hst & _ & _ & _ & _ & Hl).
  repeat apply conj.
  - apply Ht; reflexivity.
  - apply Hi; reflexivity.
  - apply Hs; reflexivity.
  - apply Hsel; reflexivity.
  - apply Hst; reflexivity.
  - apply Hl; reflexivity.
Defined.

(** ** Pagination slicer *)

Lemma ceilDiv_nonneg (n k : Z) : 0 <= n -> 0 < k -> 0 <= ceilDiv n k.
Proof.
  intros Hn Hk. unfold ceilDiv.
  pose proof (Z.div_mod (- n) k ltac:(lia)) as Hdm.
  pose proof (Z.mod_pos_bound (- n) k Hk). nia.
Qed.

Lemma ceilDiv_covers (n k : Z) : 0 < k -> n <= ceilDiv n k * k.
Proof.
  intros Hk. unfold ceilDiv.
  pose proof (Z.div_mod (- n) k ltac:(lia)) as Hdm.
  pose proof (Z.mod_pos_bound (- n) k Hk). nia.
Qed.

Lemma ceilDiv_tight (n k : Z) : 0 < k -> (ceilDiv n k - 1) * k < n.
Proof.
  intros Hk. unfold ceilDiv.
  pose proof (Z.div_mod (- n) k ltac:(lia)) as Hdm.
  pose proof (Z.mod_pos_bound (- n) k Hk). nia.
Qed.

(** A page window is the chunk of [k] elements that starts at [i * k]. *)
Lemma slice_chunk {A} (l : list A) (k : Z) (i : nat) :
  0 < k ->
  slice l (Z.of_nat i * k) (Z.of_nat i * k + k)
  = take (Z.to_nat k) (drop (i * Z.to_nat k) l).
Proof.
  intros Hk. unfold slice, relativeIndex.
  set (len := Z.of_nat (length l)).
  assert (Hs : 0 <= Z.of_nat i * k) by nia.
  destruct (Z.ltb_spec (Z.of_nat i * k) 0); [lia|].
  destruct (Z.ltb_spec (Z.of_nat i * k + k) 0); [lia|].
  assert (Hi : (i * Z.to_nat k)%nat = Z.to_nat (Z.of_nat i * k)).
  { rewrite Z2Nat.inj_mul by lia. rewrite Nat2Z.id. reflexivity. }
  rewrite Hi.
  destruct (Z.le_gt_cases (Z.of_nat i * k) len) as [Hle|Hgt].
  - rewrite (Z.min_l _ _ Hle).
    destruct (Z.le_gt_cases (Z.of_nat i * k + k) len) as [Hle2|Hgt2].
    + rewrite (Z.min_l _ _ Hle2). f_equal. lia.
    + rewrite (Z.min_r _ len) by lia.
      rewrite !take_ge; [reflexivity| |]; rewrite length_drop; unfold len in *; lia.
  - rewrite (Z.min_r _ len) by lia. rewrite (Z.min_r _ len) by lia.
    rewrite Z.sub_diag. cbn [Z.to_nat take].
    rewrite (drop_ge l (Z.to_nat (Z.of_nat i * k))) by (unfold len in *; lia).
    destruct (Z.to_nat k); reflexivity.
Qed.

Lemma chunks_concat {A} (l : list A) (k m : nat) :
  concat (map (fun i => take k (drop (i * k) l)) (seq 0 m)) = take (m * k) l.
Proof.
  induction m as [|m IH].
  - reflexivity.
  - rewrite seq_S, map_app, concat_app, IH. cbn [map concat plus].
    rewrite app_nil_r, take_take_drop. f_equal. lia.
Qed.

Lemma pages_concat {A} (l : list A) (k : Z) :
  0 < k ->
  concat (map (fun pg => slice l ((pg - 1) * k) ((pg - 1) * k + k))
              (seqZ 1 (ceilDiv (Z.of_nat (length l)) k)))
  = l.
Proof.
  intros Hk. unfold seqZ.
  rewrite <- list_fmap_compose.
  pose proof (ceilDiv_nonneg (Z.of_nat (length l)) k ltac:(lia) Hk) as Hm.
  pose proof (ceilDiv_covers (Z.of_nat (length l)) k Hk) as Hc.
  set (m := Z.to_nat (ceilDiv (Z.of_nat (length l)) k)) in *.
  transitivity
    (concat (map (fun i => take (Z.to_nat k) (drop (i * Z.to_nat k) l))
                 (seq 0 m))).
  - f_equal. apply map_ext. intros i. cbn.
    replace (Z.of_nat i + 1 - 1) with (Z.of_nat i) by lia.
    apply slice_chunk; assumption.
  - rewrite chunks_concat. apply take_ge. subst m. nia.
Qed.

Lemma filteredDataIn_setCurrentPage env p n s :
  filteredDataIn env p (setCurrentPage n s) = filteredDataIn env p s.
Proof. reflexivity. Qed.

(** C6: with pagination enabled and a positive page size, the page windows
    of the pages 1 to [totalPages], one after the other, are the filtered
    sequence: nothing is repeated and nothing is left out. *)
Theorem pagination_covers_filtered (env : Env) (p : Props) (s : State) :
  Config.enablePagination (cfg p) = true ->
  0 < Config.itemsPerPage (cfg p) ->
  concat (map (fun pg => currentData env p (setCurrentPage pg s))
              (seqZ 1 (totalPages env p s)))
  = filteredDataIn env p s.
Proof.
  intros Hen Hk.
  unfold currentData, currentDataOf, totalPages, totalPagesOf, startIndexOf.
  rewrite Hen. cbn [currentPage setCurrentPage].
  erewrite map_ext.
  - apply (pages_concat (filteredDataIn env p s) _ Hk).
  - intros pg. rewrite filteredDataIn_setCurrentPage. reflexivity.
Qed.

Lemma pagination_covers_filtered_witness :
  concat (map (fun pg =>
                 currentData Host.env Ex.props
                   (setCurrentPage pg (initialState Ex.people)))
              (seqZ 1 (totalPages Host.env Ex.props (initialState Ex.people))))
  = filteredDataIn Host.env Ex.props (initialState Ex.people).
Proof.
  apply (pagination_covers_filtered Host.env Ex.props (initialState Ex.people)).
  - reflexivity.
  - reflexivity.
Defined.

(** ** Sorting *)

Lemma insertBy_Permutation {A} (c : A -> A -> number) x l :
  Permutation (x :: l) (insertBy c x l).
Proof.
  induction l as [|y r IH]; cbn.
  - reflexivity.
  - destruct (compareResult (c x y) <=? 0).
    + reflexivity.
    + rewrite perm_swap. constructor. exact IH.
Qed.

Lemma Array_sort_Permutation {A} (c : A -> A -> number) l :
  Permutation l (Array_sort c l).
Proof.
  induction l as [|x r IH]; cbn.
  - constructor.
  - rewrite <- insertBy_Permutation. constructor. exact IH.
Qed.

Lemma insertBy_locallyOrdered {A} (c : A -> A -> number) x l :
  locallyOrdered c l -> locallyOrdered c (insertBy c x l).
Proof.
  induction l as [|y r IH]; intros Hl.
  - exact I.
  - cbn [insertBy].
    destruct (Z.leb_spec (compareResult (c x y)) 0) as [Hle|Hgt].
    + split; [left; exact Hle | exact Hl].
    + assert (Hr : locallyOrdered c r).
      { destruct r; [exact I | apply Hl]. }
      specialize (IH Hr).
      destruct r as [|z r'].
      * cbn. split; [right; lia | exact I].
      * cbn [insertBy] in *.
        destruct (compareResult (c x z) <=? 0).
        -- split; [right; lia | exact IH].
        -- split; [apply Hl | exact IH].
Qed.

Lemma Array_sort_locallyOrdered {A} (c : A -> A -> number) l :
  locallyOrdered c (Array_sort c l).
Proof.
  induction l as [|x r IH]; cbn.
  - exact I.
  - apply insertBy_locallyOrdered, IH.
Qed.

(** Whatever routine sorted the rows: once a row without a value is met,
    no row with a value can follow it. *)
Lemma locallyOrdered_after_null env sc (x : Row) (r : list Row) :
  locallyOrdered (compareRows env sc) (x :: r) ->
  nullAt (sort_key sc) x = true ->
  Forall (fun y => nullAt (sort_key sc) y = true) r.
Proof.
  revert x. induction r as [|y r IH]; intros x Hl Hx.
  - constructor.
  - destruct Hl as [Hxy Hr].
    assert (Hy : nullAt (sort_key sc) y = true).
    { destruct (nullAt (sort_key sc) y) eqn:Hy; [reflexivity|exfalso].
      unfold nullAt in Hx, Hy. unfold compareRows in Hxy.
      rewrite Hx, Hy in Hxy. cbn in Hxy. lia. }
    constructor; [exact Hy | apply (IH y); assumption].
Qed.

Lemma locallyOrdered_nullsLast env sc (l : list Row) :
  locallyOrdered (compareRows env sc) l -> nullsLast (sort_key sc) l.
Proof.
  induction l as [|x r IH]; intros Hl i j a b Hi Hj Ha Hb.
  - discriminate.
  - assert (Hr : locallyOrdered (compareRows env sc) r).
    { destruct r; [exact I | apply Hl]. }
    destruct i as [|i], j as [|j]; cbn in Hi, Hj.
    + congruence.
    + injection Hi as ->.
      pose proof (locallyOrdered_after_null env sc a r Hl Ha) as Hall.
      rewrite Forall_forall in Hall.
      assert (Hin : b ∈ r) by (apply list_elem_of_lookup; eauto).
      rewrite (Hall b Hin) in Hb. discriminate.
    + lia.
    + specialize (IH Hr i j a b Hi Hj Ha Hb). lia.
Qed.

(** C5: with sorting enabled and a sort on key K, every row of the sorted
    output whose K value is null or undefined stands after every row whose
    K value is not, ascending and descending alike; the output holds the
    rows the unsorted pipeline yields; and the scores null, 10, 5 come out
    as 5, 10, null ascending and as 10, 5, null descending. *)
Theorem sort_puts_nulls_last (env : Env) (c : Config.t)
  (columns : list ColumnConfig) (filters : list FilterConfig)
  (rows : list Row) (term : string) (active : list (string * string))
  (sc : SortConfig) :
  Config.enableSorting c = true ->
  nullsLast (sort_key sc)
            (filteredData env c columns filters rows term active (Some sc))
  /\ Permutation (filteredData env c columns filters rows term active None)
                 (filteredData env c columns filters rows term active (Some sc))
  /\ map (fun r => getField r "score")
         (filteredData env (config TableConfig.empty) [] [] Ex.scores "" []
                       (Ex.byScore asc))
     = [VNum (Fin 5); VNum (Fin 10); VNull]
  /\ map (fun r => getField r "score")
         (filteredData env (config TableConfig.empty) [] [] Ex.scores "" []
                       (Ex.byScore desc))
     = [VNum (Fin 10); VNum (Fin 5); VNull].
Proof.
  intros Hs. unfold filteredData. rewrite Hs.
  split; [|split; [|split]].
  - apply (locallyOrdered_nullsLast env sc), Array_sort_locallyOrdered.
  - destruct (Config.enableSorting c); apply Array_sort_Permutation.
  - reflexivity.
  - reflexivity.
Qed.

Lemma sort_puts_nulls_last_witness :
  nullsLast "score"
            (filteredData Host.env (config TableConfig.empty) [] [] Ex.scores
                          "" [] (Ex.byScore desc)).
Proof.
  apply (sort_puts_nulls_last Host.env (config TableConfig.empty) [] []
           Ex.scores "" [] (mkSort "score" desc)).
  reflexivity.
Defined.

(** ** Selection *)

Lemma includesId_true (l : list string) (x : string) :
  includesId l x = true <-> In x l.
Proof.
  unfold includesId. rewrite existsb_exists. split.
  - intros (y & Hy & He). apply String.eqb_eq in He. congruence.
  - intros H. exists x. split; [exact H | apply String.eqb_refl].
Qed.

(** Alice is selected on page 1; on page 2 the header checkbox selects
    Carol and Dave and drops Alice; clicked again, it empties the
    selection. *)
Lemma select_all_on_second_page :
  exists s1 calls1 s2 calls2 s3 calls3,
    run Host.env Ex.pairProps (initialState Ex.four) [SelectItem 0; NextPage]
    = Some (s1, calls1)
    /\ selectedItems s1 = ["1"]
    /\ step Host.env Ex.pairProps s1 SelectAll = Some (s2, calls2)
    /\ selectedItems s2 = ["3"; "4"]
    /\ calls2 = [onItemsSelect ["3"; "4"]]
    /\ step Host.env Ex.pairProps s2 SelectAll = Some (s3, calls3)
    /\ selectedItems s3 = []
    /\ calls3 = [onItemsSelect []].
Proof.
  eexists _, _, _, _, _, _.
  split; [vm_compute; reflexivity|]. split; [reflexivity|].
  split; [vm_compute; reflexivity|]. split; [reflexivity|].
  split; [reflexivity|].
  split; [vm_compute; reflexivity|]. split; reflexivity.
Qed.

(** C10: unchecking the header checkbox empties the selection, so every id
    is dropped from it, also the ids of rows that are not on the current
    page; checking it makes the selection exactly the ids of the rows of
    the current page, in their order, so ids selected on other pages are
    dropped.  Rows, page and filters are left as they were. *)
Theorem select_all_replaces_selection (env : Env) (p : Props) (s : State) :
  selectedItems (handleSelectAll env p false s) = []
  /\ (forall x, ~ In x (selectedItems (handleSelectAll env p false s)))
  /\ selectedItems (handleSelectAll env p true s)
     = map id (currentData env p s)
  /\ (forall x, In x (selectedItems (handleSelectAll env p true s))
                <-> exists item, In item (currentData env p s) /\ id item = x)
  /\ (forall checked,
        localData (handleSelectAll env p checked s) = localData s
        /\ currentPage (handleSelectAll env p checked s) = currentPage s
        /\ currentData env p (handleSelectAll env p checked s)
           = currentData env p s).
Proof.
  repeat apply conj.
  - reflexivity.
  - intros x H. exact H.
  - reflexivity.
  - intros x. cbn. rewrite in_map_iff. split.
    + intros (item & He & Hi). exists item. auto.
    + intros (item & Hi & He). exists item. auto.
  - intros []; repeat apply conj; reflexivity.
Qed.

(** ** The delete flow *)

Lemma when_Some {A} (b : bool) (x y : A) :
  when b x = Some y -> b = true /\ x = y.
Proof. destruct b; cbn; intros H; [injection H as ->; auto | discriminate]. Qed.

Lemma optCall_In supplied c d : In d (optCall supplied c) -> d = c.
Proof. destruct supplied; cbn; intuition. Qed.

Lemma modalSave_keeps_ids (u : Row) (l : list Row) :
  map id (map (fun item => if String.eqb (id item) (id u) then u else item) l)
  = map id l.
Proof.
  rewrite map_map. apply map_ext. intros item.
  destruct (String.eqb_spec (id item) (id u)); congruence.
Qed.

(** Inversion of one step. *)
Ltac step_inv H :=
  unfold step in H; cbn beta iota in H;
  repeat match type of H with
    | when _ _ = Some _ =>
        apply when_Some in H; destruct H as [? H]
    | mbind _ ?o = Some _ =>
        let E := fresh "E" in
        destruct o eqn:E; cbn [mbind option_bind] in H; [|discriminate H]
    | (if ?c then _ else _) = Some _ =>
        let E := fresh "E" in destruct c eqn:E; [try discriminate H|try discriminate H]
    | Some _ = Some _ => injection H as H
    end.

Lemma step_keeps_ids env p s e s' calls :
  step env p s e = Some (s', calls) ->
  e <> ConfirmDelete -> (forall d, e <> DataChanged d) ->
  map id (localData s') = map id (localData s).
Proof.
  intros H Hc Hd.
  destruct e; try congruence; try (exfalso; eapply Hd; reflexivity);
    step_inv H; try (inversion H; subst; reflexivity).
  - inversion H; subst. unfold handleSort.
    repeat case_match; reflexivity.
  - inversion H; subst. unfold handleSelectAll.
    repeat case_match; reflexivity.
  - inversion H; subst. unfold handleSelectItem.
    repeat case_match; reflexivity.
  - unfold handleModalSave in H. inversion H; subst. cbn.
    apply modalSave_keeps_ids.
Qed.

Lemma selectionEffect_In p s c :
  In c (selectionEffect p s) -> c = onItemsSelect (selectedItems s).
Proof. apply optCall_In. Qed.

Lemma step_other_calls env p s e s' calls :
  step env p s e = Some (s', calls) ->
  e <> ConfirmDelete ->
  (forall x, ~ In (onItemDelete x) calls)
  /\ ((forall u, e <> ModalSave u) -> forall d, ~ In (onDataChange d) calls).
Proof.
  intros H Hc.
  destruct e; try congruence; step_inv H;
    try (inversion H; subst; split; [intros x Hin | intros _ d Hin];
         cbn in Hin;
         repeat match goal with
           | Hin : _ \/ _ |- _ => destruct Hin as [Hin|Hin]
           | Hin : In _ (selectionEffect _ _) |- _ =>
               apply selectionEffect_In in Hin
           end;
         solve [discriminate | contradiction]).
  unfold handleModalSave in H. inversion H; subst. split.
  - intros x Hin. apply in_app_or in Hin as [Hin|Hin];
      apply optCall_In in Hin; discriminate.
  - intros Hu. exfalso. eapply Hu. reflexivity.
Qed.

Lemma deleteNotifications_app (a b : list Call) :
  deleteNotifications (a ++ b)
  = deleteNotifications a ++ deleteNotifications b.
Proof. apply omap_app. Qed.

Lemma deleteNotifications_selectionEffect p s :
  deleteNotifications (selectionEffect p s) = [].
Proof. unfold selectionEffect, optCall. destruct (has_onItemsSelect p); reflexivity. Qed.

Lemma deleteNotifications_bulk (l : list string) :
  deleteNotifications
    (flat_map (fun x => optCall true (onItemDelete x)) l) = l.
Proof. induction l as [|x r IH]; cbn in *; [|f_equal; exact IH]; reflexivity. Qed.

Lemma confirmDelete_query p s :
  searchTerm (fst (confirmDelete p s)) = searchTerm s
  /\ activeFilters (fst (confirmDelete p s)) = activeFilters s
  /\ localData (fst (confirmDelete p s))
     = if String.eqb (itemId (deleteConfirm s)) "bulk"
       then List.filter
              (fun item => negb (includesId (selectedItems s) (id item)))
              (localData s)
       else List.filter
              (fun item =>
                 negb (String.eqb (id item) (itemId (deleteConfirm s))))
              (localData s).
Proof.
  unfold confirmDelete. cbn [fst].
  repeat apply conj; repeat case_match; reflexivity.
Qed.

(** The notifications of the confirm. *)
Lemma confirmDelete_calls p s :
  (has_onDataChange p = true ->
   In (onDataChange (localData (fst (confirmDelete p s))))
      (snd (confirmDelete p s)))
  /\ (has_onItemDelete p = true ->
      deleteNotifications (snd (confirmDelete p s))
      = if String.eqb (itemId (deleteConfirm s)) "bulk"
        then selectedItems s
        else [itemId (deleteConfirm s)]).
Proof.
  pose proof (confirmDelete_query p s) as (_ & _ & Hl). rewrite Hl.
  unfold confirmDelete. cbn [snd].
  split.
  - intros ->.
    destruct (String.eqb (itemId (deleteConfirm s)) "bulk");
      apply in_or_app; left; left; reflexivity.
  - intros ->.
    destruct (String.eqb (itemId (deleteConfirm s)) "bulk");
      rewrite deleteNotifications_app.
    + rewrite deleteNotifications_bulk.
      destruct (has_onDataChange p); reflexivity.
    + destruct (has_onDataChange p); reflexivity.
Qed.

(** C3: asking for a delete, of one row or of the selection, only opens the
    confirmation: the rows are the same and no collaborator is invoked;
    cancelling closes it and leaves rows, selection and page as they were,
    again with no collaborator invoked.  No event other than the confirm
    (and the parent handing in new data) changes which rows there are, and
    none other invokes [onItemDelete]; [onDataChange] is invoked by the
    confirm and otherwise only by a saved edit.  The confirm removes the
    rows and makes both notifications. *)
Theorem delete_needs_confirmation (env : Env) (p : Props) (s : State) :
  (forall i s' calls,
      step env p s (RequestDelete i) = Some (s', calls) ->
      localData s' = localData s /\ calls = []
      /\ dc_open (deleteConfirm s') = true)
  /\ (forall s' calls,
        step env p s RequestBulkDelete = Some (s', calls) ->
        localData s' = localData s /\ calls = []
        /\ dc_open (deleteConfirm s') = true)
  /\ (forall s' calls,
        step env p s CancelDelete = Some (s', calls) ->
        localData s' = localData s /\ selectedItems s' = selectedItems s
        /\ currentPage s' = currentPage s /\ calls = []
        /\ deleteConfirm s' = closedConfirm)
  /\ (forall e s' calls,
        step env p s e = Some (s', calls) ->
        e <> ConfirmDelete ->
        ((forall d, e <> DataChanged d) ->
         map id (localData s') = map id (localData s))
        /\ (forall x, ~ In (onItemDelete x) calls)
        /\ ((forall u, e <> ModalSave u) ->
            forall d, ~ In (onDataChange d) calls))
  /\ (forall s' calls,
        step env p s ConfirmDelete = Some (s', calls) ->
        localData s'
        = (if String.eqb (itemId (deleteConfirm s)) "bulk"
           then List.filter
                  (fun item => negb (includesId (selectedItems s) (id item)))
                  (localData s)
           else List.filter
                  (fun item =>
                     negb (String.eqb (id item) (itemId (deleteConfirm s))))
                  (localData s))
        /\ dc_open (deleteConfirm s') = false
        /\ (has_onDataChange p = true ->
            In (onDataChange (localData s')) calls)
        /\ (has_onItemDelete p = true ->
            deleteNotifications calls
            = if String.eqb (itemId (deleteConfirm s)) "bulk"
              then selectedItems s
              else [itemId (deleteConfirm s)])).
Proof.
  repeat apply conj.
  - intros i s' calls H. step_inv H. inversion H; subst. auto.
  - intros s' calls H. step_inv H. inversion H; subst. auto.
  - intros s' calls H. step_inv H. inversion H; subst.
    repeat apply conj; reflexivity.
  - intros e s' calls H Hc. split; [|apply (step_other_calls _ _ _ _ _ _ H Hc)].
    intros Hd. apply (step_keeps_ids _ _ _ _ _ _ H Hc Hd).
  - intros s' calls H. step_inv H.
    pose proof (confirmDelete_query p s) as (_ & _ & Hl).
    pose proof (confirmDelete_calls p s) as [Hdc Hid].
    destruct (confirmDelete p s) as [s1 c1] eqn:E. cbn [fst snd] in *.
    assert (Hcalls : (has_onDataChange p = true ->
                      In (onDataChange (localData s1)) calls)
                     /\ deleteNotifications calls = deleteNotifications c1).
    { destruct (String.eqb (itemId (deleteConfirm s)) "bulk");
        inversion H; subst; [|auto].
      split.
      - intros Hd. apply in_or_app. left. auto.
      - rewrite deleteNotifications_app, deleteNotifications_selectionEffect.
        apply app_nil_r. }
    assert (Hs : s' = s1)
      by (destruct (String.eqb (itemId (deleteConfirm s)) "bulk");
          inversion H; reflexivity).
    subst s'. destruct Hcalls as [Hc1 Hc2].
    repeat apply conj.
    + exact Hl.
    + replace s1 with (fst (confirmDelete p s)) by (rewrite E; reflexivity).
      unfold confirmDelete. cbn [fst]. repeat case_match; reflexivity.
    + exact Hc1.
    + intros Hd. rewrite Hc2. apply Hid, Hd.
Qed.

Lemma delete_needs_confirmation_witness :
  match step Host.env Ex.props (initialState Ex.people) (RequestDelete 0) with
  | Some (s1, calls1) =>
      localData s1 = Ex.people /\ calls1 = []
      /\ match step Host.env Ex.props s1 CancelDelete with
         | Some (s2, calls2) => localData s2 = localData s1 /\ calls2 = []
         | None => False
         end
      /\ match step Host.env Ex.props s1 ConfirmDelete with
         | Some (s3, calls3) =>
             map id (localData s3) = ["2"; "3"]
             /\ In (onDataChange (localData s3)) calls3
             /\ deleteNotifications calls3 = ["1"]
         | None => False
         end
  | None => False
  end.
Proof.
  destruct (delete_needs_confirmation Host.env Ex.props
              (initialState Ex.people)) as (Hreq & _ & _ & _ & _).
  destruct (step Host.env Ex.props (initialState Ex.people) (RequestDelete 0))
    as [[s1 calls1]|] eqn:E1; [|vm_compute in E1; discriminate E1].
  destruct (Hreq 0%nat s1 calls1 E1) as (Hd & Hc & Ho).
  assert (Hs1 : deleteConfirm s1 = mkDeleteConfirm true "1" "Alice").
  { vm_compute in E1. injection E1 as <- _. reflexivity. }
  destruct (delete_needs_confirmation Host.env Ex.props s1)
    as (_ & _ & Hcancel & _ & Hconfirm).
  repeat apply conj; [exact Hd | exact Hc | |].
  - destruct (step Host.env Ex.props s1 CancelDelete)
      as [[s2 calls2]|] eqn:E2.
    + destruct (Hcancel s2 calls2 eq_refl) as (H1 & _ & _ & H2 & _). auto.
    + unfold step in E2. rewrite Hs1 in E2. discriminate E2.
  - destruct (step Host.env Ex.props s1 ConfirmDelete)
      as [[s3 calls3]|] eqn:E3.
    + destruct (Hconfirm s3 calls3 eq_refl) as (H1 & _ & H2 & H3).
      repeat apply conj.
      * rewrite H1, Hd, Hs1. reflexivity.
      * apply H2. reflexivity.
      * rewrite (H3 eq_refl), Hs1. reflexivity.
    + unfold step in E3. rewrite Hs1 in E3. cbn in E3.
      destruct (confirmDelete Ex.props s1); discriminate E3.
Defined.

(** ** Bulk delete *)

Lemma bulk_filter_In (sel : list string) (l : list Row) (item : Row) :
  In item (List.filter (fun r => negb (includesId sel (id r))) l)
  <-> In item l /\ ~ In (id item) sel.
Proof.
  rewrite filter_In, negb_true_iff, <- not_true_iff_false, includesId_true.
  reflexivity.
Qed.

Lemma flat_map_optCall_true (f : string -> Call) (l : list string) :
  flat_map (fun x => optCall true (f x)) l = map f l.
Proof. induction l as [|x r IH]; cbn in *; [|f_equal; exact IH]; reflexivity. Qed.

(** C4 (amended): on confirming a bulk delete every row whose id is in the
    selection is removed and the other rows are kept; [onItemDelete] is
    invoked once for each entry of the selection, in the order of the
    selection, whether or not a row had that id; and the selection is
    emptied. *)
Theorem bulk_delete_confirm (p : Props) (s : State) :
  itemId (deleteConfirm s) = "bulk" ->
  has_onItemDelete p = true ->
  let s' := fst (confirmDelete p s) in
  let calls := snd (confirmDelete p s) in
  localData s'
  = List.filter (fun item => negb (includesId (selectedItems s) (id item)))
                (localData s)
  /\ (forall item, In item (localData s')
                   <-> In item (localData s)
                       /\ ~ In (id item) (selectedItems s))
  /\ selectedItems s' = []
  /\ calls = optCall (has_onDataChange p) (onDataChange (localData s'))
             ++ map onItemDelete (selectedItems s).
Proof.
  intros Hb Hd s' calls.
  assert (Hl : localData s'
               = List.filter
                   (fun item => negb (includesId (selectedItems s) (id item)))
                   (localData s)).
  { subst s'. unfold confirmDelete. rewrite Hb. cbn.
    repeat case_match; reflexivity. }
  repeat apply conj.
  - exact Hl.
  - intros item. rewrite Hl. apply bulk_filter_In.
  - subst s'. unfold confirmDelete. rewrite Hb. cbn.
    repeat case_match; reflexivity.
  - rewrite Hl. subst calls. unfold confirmDelete.
    rewrite Hb, Hd, flat_map_optCall_true. reflexivity.
Qed.

(** The state in which the selection of [Ex.staleRun] awaits the confirm. *)
Lemma staleRun_state :
  exists s calls0,
    run Host.env Ex.props (initialState Ex.people) Ex.staleRun
    = Some (s, calls0)
    /\ itemId (deleteConfirm s) = "bulk"
    /\ map id (localData s) = ["1"; "3"]
    /\ selectedItems s = ["1"; "2"]
    /\ deleteNotifications calls0 = ["2"].
Proof.
  eexists _, _. split; [vm_compute; reflexivity|].
  repeat apply conj; reflexivity.
Qed.

Lemma bulk_delete_confirm_witness :
  exists s calls0,
    run Host.env Ex.props (initialState Ex.people) Ex.staleRun
    = Some (s, calls0)
    /\ map id (localData (fst (confirmDelete Ex.props s))) = ["3"]
    /\ selectedItems (fst (confirmDelete Ex.props s)) = []
    /\ deleteNotifications (snd (confirmDelete Ex.props s)) = ["1"; "2"].
Proof.
  eexists _, _. split; [vm_compute; reflexivity|].
  match goal with
  | |- context [confirmDelete Ex.props ?s] =>
      destruct (bulk_delete_confirm Ex.props s eq_refl eq_refl)
        as (Hl & _ & Hs & Hc)
  end.
  repeat apply conj.
  - rewrite Hl. reflexivity.
  - exact Hs.
  - rewrite Hc. reflexivity.
Defined.

(** C4, as the specification words it, fails: after Bob's row was deleted
    on its own his id is still in the selection, and the confirm of the
    bulk delete invokes [onItemDelete] with it although no row has it. *)
Lemma bulk_delete_notifies_for_absent_row :
  exists s calls0,
    run Host.env Ex.props (initialState Ex.people) Ex.staleRun
    = Some (s, calls0)
    /\ itemId (deleteConfirm s) = "bulk"
    /\ ~ (forall x, In (onItemDelete x) (snd (confirmDelete Ex.props s)) ->
                    In x (map id (localData s))).
Proof.
  eexists _, _. split; [vm_compute; reflexivity|].
  split; [reflexivity|].
  intros H. specialize (H "2").
  cbn in H.
  assert (Hin : In "2" ["1"; "3"]) by (apply H; auto).
  cbn in Hin. intuition discriminate.
Qed.

(** ** The page index *)

Lemma pageNumbers_ge_1 (tp cp n : Z) :
  existsb (fun x => match x with PageNum m => m =? n | Ellipsis => false end)
          (generatePageNumbersOf tp cp) = true ->
  1 <= n.
Proof.
  rewrite existsb_exists. intros (x & Hin & Hx).
  destruct x as [m|]; [|discriminate]. apply Z.eqb_eq in Hx. subst m.
  apply list_elem_of_In in Hin.
  unfold generatePageNumbersOf in Hin.
  destruct (Z.leb_spec tp 5).
  { apply list_elem_of_fmap in Hin as (k & [= ->] & Hk).
    apply elem_of_seqZ in Hk. lia. }
  destruct (Z.leb_spec cp 3).
  { apply elem_of_app in Hin as [Hin|Hin].
    - apply list_elem_of_fmap in Hin as (k & [= ->] & Hk).
      apply elem_of_seqZ in Hk. lia.
    - apply list_elem_of_In in Hin. cbn in Hin.
      destruct Hin as [Hin|[Hin|[]]]; [discriminate|]. injection Hin as <-. lia. }
  destruct (Z.leb_spec (tp - 2) cp).
  { apply elem_of_app in Hin as [Hin|Hin].
    - apply list_elem_of_In in Hin. cbn in Hin.
      destruct Hin as [Hin|[Hin|[]]]; [|discriminate]. injection Hin as <-. lia.
    - apply list_elem_of_fmap in Hin as (k & [= ->] & Hk).
      apply elem_of_seqZ in Hk. lia. }
  apply elem_of_app in Hin as [Hin|Hin].
  { apply list_elem_of_In in Hin. cbn in Hin.
    destruct Hin as [Hin|[Hin|[]]]; [|discriminate]. injection Hin as <-. lia. }
  apply elem_of_app in Hin as [Hin|Hin].
  { apply list_elem_of_fmap in Hin as (k & [= ->] & Hk).
    apply elem_of_seqZ in Hk. lia. }
  apply list_elem_of_In in Hin. cbn in Hin.
  destruct Hin as [Hin|[Hin|[]]]; [discriminate|]. injection Hin as <-. lia.
Qed.

Lemma confirmDelete_currentPage p s :
  currentPage (fst (confirmDelete p s))
  = if (newTotalPages p s <? currentPage s) && (0 <? newTotalPages p s)
    then newTotalPages p s else currentPage s.
Proof.
  unfold confirmDelete. cbn [fst].
  destruct ((newTotalPages p s <? currentPage s) && (0 <? newTotalPages p s));
    repeat case_match; reflexivity.
Qed.

Lemma step_currentPage env p s e s' calls :
  step env p s e = Some (s', calls) ->
  1 <= currentPage s -> 1 <= currentPage s'.
Proof.
  intros H Hs.
  destruct e; step_inv H;
    try (inversion H; subst; cbn; first [exact Hs | lia]).
  - inversion H; subst. unfold handleSort. repeat case_match; exact Hs.
  - inversion H; subst. unfold handleSelectAll. repeat case_match; exact Hs.
  - inversion H; subst. unfold handleSelectItem. repeat case_match; exact Hs.
  - destruct (confirmDelete p s) as [s1 c1] eqn:E.
    assert (Hp : currentPage s' = currentPage (fst (confirmDelete p s))).
    { rewrite E. cbn. repeat case_match; inversion H; subst; reflexivity. }
    rewrite Hp, confirmDelete_currentPage.
    destruct (Z.ltb_spec (newTotalPages p s) (currentPage s)),
             (Z.ltb_spec 0 (newTotalPages p s)); cbn; lia.
  - inversion H; subst. cbn.
    unfold paginationShown in *.
    apply andb_true_iff in H0 as [_ Ht]. apply Z.ltb_lt in Ht. lia.
  - inversion H; subst. cbn.
    apply andb_true_iff in H0 as [_ Hn].
    apply (pageNumbers_ge_1 _ _ _ Hn).
Qed.

(** In every state the component can reach the page index is at least 1. *)
Lemma reachable_currentPage env p data s :
  reachable env p data s -> 1 <= currentPage s.
Proof.
  induction 1 as [|s e s' calls _ IH Hstep].
  - cbn. lia.
  - apply (step_currentPage _ _ _ _ _ _ Hstep IH).
Qed.

Lemma run_reachable env p data es : forall s s' calls,
  reachable env p data s -> run env p s es = Some (s', calls) ->
  reachable env p data s'.
Proof.
  induction es as [|e es IH]; intros s s' calls Hr H; cbn in H.
  - injection H as <- _. exact Hr.
  - destruct (step env p s e) as [[s1 c1]|] eqn:E1; [|discriminate H].
    cbn in H.
    destruct (run env p s1 es) as [[s2 c2]|] eqn:E2; [|discriminate H].
    cbn in H. injection H as <- _.
    eapply IH; [|exact E2]. econstructor; eassumption.
Qed.

Lemma filter_keeps_all (t : string) (l : list Row) :
  ~ In t (map id l) ->
  List.filter (fun item => negb (String.eqb (id item) t)) l = l.
Proof.
  induction l as [|x r IH]; intros Hn.
  - reflexivity.
  - cbn [map In] in Hn. cbn [List.filter].
    destruct (String.eqb_spec (id x) t); [tauto|].
    cbn [negb]. f_equal. apply IH. tauto.
Qed.

Lemma filter_removes_one (t : string) (l : list Row) :
  NoDup (map id l) -> In t (map id l) ->
  Z.of_nat
    (length (List.filter (fun item => negb (String.eqb (id item) t)) l))
  = Z.of_nat (length l) - 1.
Proof.
  induction l as [|x r IH]; intros Hnd Hin.
  - contradiction.
  - cbn [map] in Hnd, Hin. apply NoDup_cons in Hnd as [Hx Hnd].
    cbn [List.filter length].
    destruct (String.eqb_spec (id x) t) as [He|Hne]; cbn [negb length].
    + rewrite filter_keeps_all
        by (rewrite <- He, <- list_elem_of_In; exact Hx).
      lia.
    + destruct Hin as [Hin|Hin]; [contradiction|].
      rewrite Nat2Z.inj_succ, (IH Hnd Hin). lia.
Qed.

(** Without a search term and without active filters, the pipeline keeps
    every row. *)
Lemma filteredData_unfiltered_length env c columns filters rows sc :
  length (filteredData env c columns filters rows "" [] sc) = length rows.
Proof.
  unfold filteredData. rewrite andb_false_r. cbn [foldl].
  assert (Hf : (if Config.enableFilters c then rows else rows) = rows)
    by (destruct (Config.enableFilters c); reflexivity).
  rewrite Hf.
  destruct (Config.enableSorting c), sc; try reflexivity.
  symmetry. apply Permutation_length, Array_sort_Permutation.
Qed.

Lemma step_confirm_fst env p s s' calls :
  step env p s ConfirmDelete = Some (s', calls) ->
  s' = fst (confirmDelete p s).
Proof.
  intros H. step_inv H.
  destruct (confirmDelete p s) as [s1 c1]. inversion H; subst. reflexivity.
Qed.

(** When nothing is searched for or filtered, and a single delete aims at
    the one row that has its id, the [newTotalPages] of the handler is the
    page count of the rows left. *)
Lemma newTotalPages_exact env p s :
  searchTerm s = "" -> activeFilters s = [] ->
  (itemId (deleteConfirm s) = "bulk"
   \/ NoDup (map id (localData s))
      /\ In (itemId (deleteConfirm s)) (map id (localData s))) ->
  totalPages env p (fst (confirmDelete p s)) = newTotalPages p s.
Proof.
  intros Ht Hf Hcase.
  destruct (confirmDelete_query p s) as (Hst & Hsf & Hsl).
  unfold totalPages, totalPagesOf, filteredDataIn, newTotalPages.
  rewrite Hst, Hsf, Ht, Hf, filteredData_unfiltered_length, Hsl.
  destruct (String.eqb_spec (itemId (deleteConfirm s)) "bulk") as [Hb|Hb].
  - reflexivity.
  - destruct Hcase as [Hc|[Hnd Hin]]; [contradiction|].
    rewrite (filter_removes_one _ _ Hnd Hin). reflexivity.
Qed.

(** C1 (amended): the page index is at least 1 in every state the
    component reaches.  On confirming a delete, single or bulk, while no
    search term and no filter is set (and a single delete aims at the one
    row with its id), let newTotalPages be the page count of the rows that
    are left, for a positive page size: if the page index before the delete
    exceeds newTotalPages and newTotalPages is positive, the page index
    becomes newTotalPages; otherwise it stays as it was, also when no page
    is left; so whenever pages are left it does not point past the last
    one. *)
Theorem page_index_after_delete (env : Env) (p : Props) (data : list Row) :
  (forall s, reachable env p data s -> 1 <= currentPage s)
  /\ (forall s s' calls,
        step env p s ConfirmDelete = Some (s', calls) ->
        0 < Config.itemsPerPage (cfg p) ->
        searchTerm s = "" -> activeFilters s = [] ->
        (itemId (deleteConfirm s) = "bulk"
         \/ NoDup (map id (localData s))
            /\ In (itemId (deleteConfirm s)) (map id (localData s))) ->
        (totalPages env p s' < currentPage s -> 0 < totalPages env p s' ->
         currentPage s' = totalPages env p s')
        /\ (~ (totalPages env p s' < currentPage s
               /\ 0 < totalPages env p s') ->
            currentPage s' = currentPage s)
        /\ (0 < totalPages env p s' ->
            currentPage s' <= totalPages env p s')).
Proof.
  split; [intros s; apply reachable_currentPage|].
  intros s s' calls Hstep Hk Ht Hf Hcase.
  apply step_confirm_fst in Hstep. subst s'.
  rewrite (newTotalPages_exact env p s Ht Hf Hcase).
  rewrite confirmDelete_currentPage.
  destruct (Z.ltb_spec (newTotalPages p s) (currentPage s)),
           (Z.ltb_spec 0 (newTotalPages p s)); cbn; lia.
Qed.

Lemma page_index_after_delete_witness :
  1 <= currentPage Ex.lastPageState
  /\ currentPage Ex.lastPageState = 3
  /\ match step Host.env Ex.props Ex.lastPageState ConfirmDelete with
     | Some (s', _) =>
         totalPages Host.env Ex.props s' = 2
         /\ currentPage s' = totalPages Host.env Ex.props s'
     | None => False
     end.
Proof.
  destruct (page_index_after_delete Host.env Ex.props Ex.people)
    as [Hinv Hclamp].
  split; [|split; [reflexivity|]].
  - apply Hinv.
    apply (run_reachable Host.env Ex.props Ex.people Ex.lastPageRun
             (initialState Ex.people) _ []).
    + constructor.
    + vm_compute. reflexivity.
  - destruct (step Host.env Ex.props Ex.lastPageState ConfirmDelete)
      as [[s' calls]|] eqn:E; [|vm_compute in E; discriminate E].
    assert (Ht : totalPages Host.env Ex.props s' = 2).
    { vm_compute in E. injection E as <- _. reflexivity. }
    split; [exact Ht|].
    refine (proj1 (Hclamp Ex.lastPageState s' calls E _ _ _ _) _ _).
    + reflexivity.
    + reflexivity.
    + reflexivity.
    + right. split.
      * apply (bool_decide_unpack _). vm_compute. exact I.
      * vm_compute. auto.
    + rewrite Ht. reflexivity.
    + rewrite Ht. reflexivity.
Defined.

(** C1, as the specification words it, fails: when the confirm of a bulk
    delete from page 3 leaves no row, the page count is 0, below the page
    index, and the page index stays 3, which is not max(1, 0). *)
Lemma page_index_kept_when_no_page_is_left :
  exists s calls0 s' calls,
    run Host.env Ex.props (initialState Ex.people) Ex.emptyingRun
    = Some (s, calls0)
    /\ step Host.env Ex.props s ConfirmDelete = Some (s', calls)
    /\ localData s' = []
    /\ totalPages Host.env Ex.props s' < currentPage s
    /\ currentPage s' <> Z.max 1 (totalPages Host.env Ex.props s').
Proof.
  eexists _, _, _, _.
  split; [vm_compute; reflexivity|].
  split; [vm_compute; reflexivity|].
  split; [reflexivity|]. split; [reflexivity|].
  vm_compute. discriminate.
Qed.

(** With a search term set, the handler still counts the pages of all the
    rows: after the delete the one row that matches fills one page, and the
    page index is left at 2. *)
Lemma page_index_with_search_term :
  exists s calls,
    run Host.env Ex.props (initialState Ex.people) Ex.searchRun
    = Some (s, calls)
    /\ map id (filteredDataIn Host.env Ex.props s) = ["1"]
    /\ totalPages Host.env Ex.props s = 1
    /\ currentPage s = 2
    /\ currentData Host.env Ex.props s = [].
Proof.
  eexists _, _. split; [vm_compute; reflexivity|].
  repeat apply conj; reflexivity.
Qed.

(** ** The date filter *)

(** When the row's value and the filter value are not both unparsable, the
    row passes exactly when both are dates of one local calendar day. *)
Lemma date_filter_same_day env f filterValue item :
  filter_type f = FilterDate ->
  is_Some (newDate env (getField item (filter_key f)))
  \/ is_Some (newDate env (VStr filterValue)) ->
  filterPredicate env f filterValue item = true
  <-> exists t u,
        newDate env (getField item (filter_key f)) = Some t
        /\ newDate env (VStr filterValue) = Some u
        /\ localDay env t = localDay env u.
Proof.
  intros Hf Hsome. unfold filterPredicate. rewrite Hf.
  destruct (newDate env (getField item (filter_key f))) as [t|],
           (newDate env (VStr filterValue)) as [u|]; cbn.
  - rewrite Z.eqb_eq. split.
    + intros H. exists t, u. auto.
    + intros (t' & u' & [= <-] & [= <-] & H). exact H.
  - split; [discriminate|]. intros (? & ? & _ & H & _). discriminate.
  - split; [discriminate|]. intros (? & ? & H & _). discriminate.
  - destruct Hsome as [[? H]|[? H]]; discriminate.
Qed.

(** C9 at the failing input: a row whose field is not a date passes a date
    filter whose value is not a date either.  [new Date] does not throw, so
    the [catch] that would return false is never entered, and the two
    "Invalid Date" texts compare equal. *)
Theorem date_filter_passes_unparsable (env : Env) (f : FilterConfig)
  (filterValue : string) (item : Row) :
  filter_type f = FilterDate ->
  newDate env (getField item (filter_key f)) = None ->
  newDate env (VStr filterValue) = None ->
  filterPredicate env f filterValue item = true.
Proof.
  intros Hf Hi Hv. unfold filterPredicate. rewrite Hf, Hi, Hv. reflexivity.
Qed.

Lemma date_filter_passes_unparsable_witness :
  filterPredicate Host.env Ex.joinedFilter "abc" (Ex.joinedOn "2" (VStr "n/a"))
  = true
  /\ map id
       (filteredData Host.env (config TableConfig.empty) [] [Ex.joinedFilter]
                     Ex.members "" [("joined", "abc")] None)
     = ["2"; "3"].
Proof.
  split.
  - apply (date_filter_passes_unparsable Host.env Ex.joinedFilter "abc"
             (Ex.joinedOn "2" (VStr "n/a"))); reflexivity.
  - reflexivity.
Defined.

(** ** Form validation *)

Import EditModal.

Lemma forEach_app {A S : Type} (body : S -> A -> option S) (l1 l2 : list A) :
  forall s,
    forEach body s (l1 ++ l2)
    = match forEach body s l1 with
      | Some s' => forEach body s' l2
      | None => None
      end.
Proof.
  induction l1 as [|x l1 IH]; intros s; cbn [forEach app]; [reflexivity|].
  destruct (body s x) as [s'|]; [apply IH | reflexivity].
Qed.

(** A property of the report that every field keeps is kept by the pass,
    when the pass comes to its end. *)
Lemma forEach_invariant {A S : Type} (P : S -> Prop)
  (body : S -> A -> option S) (l : list A) :
  (forall s x s', In x l -> P s -> body s x = Some s' -> P s') ->
  forall s s', P s -> forEach body s l = Some s' -> P s'.
Proof.
  induction l as [|x l IH]; intros Hbody s s' Hs Hrun; cbn [forEach] in Hrun.
  - injection Hrun as <-. exact Hs.
  - destruct (body s x) as [s1|] eqn:Hx; [|discriminate].
    apply (IH (fun s0 y s0' Hy => Hbody s0 y s0' (or_intror Hy)) s1 s');
      [|exact Hrun].
    apply (Hbody s x s1); [left; reflexivity | exact Hs | exact Hx].
Qed.

Lemma testRule_other key rule fails message r k :
  key <> k ->
  newErrors (testRule key rule fails message r) !! k = newErrors r !! k.
Proof.
  intros Hne. unfold testRule, setError. destruct fails; cbn.
  - apply lookup_insert_ne. exact Hne.
  - reflexivity.
Qed.

Lemma stringRules_other env config s validation r r' k :
  stringRules env config s validation r = Some r' ->
  field_key config <> k ->
  newErrors r' !! k = newErrors r !! k.
Proof.
  unfold stringRules. intros Hrun Hne.
  destruct (truthyPattern (pattern validation)) as [pat|];
    [destruct (newRegExp env pat) as [test|]; [|discriminate]|];
    injection Hrun as <-;
    repeat case_match; repeat rewrite testRule_other by exact Hne;
    reflexivity.
Qed.

Lemma numberRules_other config n validation r k :
  field_key config <> k ->
  newErrors (numberRules config n validation r) !! k = newErrors r !! k.
Proof.
  intros Hne. unfold numberRules.
  repeat case_match; repeat rewrite testRule_other by exact Hne; reflexivity.
Qed.

Lemma customRule_other config v validation r k :
  field_key config <> k ->
  newErrors (customRule config v validation r) !! k = newErrors r !! k.
Proof.
  intros Hne. unfold customRule.
  repeat case_match; repeat rewrite testRule_other by exact Hne; reflexivity.
Qed.

Lemma applyValidation_other env config v validation r r' k :
  applyValidation env config v validation r = Some r' ->
  field_key config <> k ->
  newErrors r' !! k = newErrors r !! k.
Proof.
  unfold applyValidation. intros Hrun Hne.
  destruct v; cbn in Hrun;
    try (injection Hrun as <-; rewrite customRule_other by exact Hne;
         rewrite ?numberRules_other by exact Hne; reflexivity).
  destruct (stringRules env config s validation r) as [r1|] eqn:Hs;
    [|discriminate].
  injection Hrun as <-. rewrite customRule_other by exact Hne.
  apply (stringRules_other env config s validation r r1 k Hs Hne).
Qed.

(** A field specification touches the error entry of its own key only. *)
Lemma validateField_other env data r r' config k :
  validateField env data r config = Some r' ->
  field_key config <> k ->
  newErrors r' !! k = newErrors r !! k.
Proof.
  unfold validateField. intros Hrun Hne.
  destruct (field_required config && _).
  - injection Hrun as <-. cbn. apply lookup_insert_ne. exact Hne.
  - destruct (negb _); [injection Hrun as <-; reflexivity|].
    destruct (field_validation config);
      [|injection Hrun as <-; reflexivity].
    apply (applyValidation_other _ _ _ _ _ _ _ Hrun Hne).
Qed.

Lemma validateFields_others env data after k :
  (forall c, In c after -> field_key c <> k) ->
  forall r r',
    forEach (validateField env data) r after = Some r' ->
    newErrors r' !! k = newErrors r !! k.
Proof.
  intros Hk r r' Hrun.
  refine (forEach_invariant
            (fun r0 => newErrors r0 !! k = newErrors r !! k)
            (validateField env data) after _ r r' eq_refl Hrun).
  intros r0 c r1 Hc Hr0 Hc1. rewrite <- Hr0.
  apply (validateField_other env data r0 r1 c k Hc1). apply Hk, Hc.
Qed.

(** No rule and no field takes an entry out of the report. *)
Lemma testRule_keeps key rule fails message r k :
  is_Some (newErrors r !! k) ->
  is_Some (newErrors (testRule key rule fails message r) !! k).
Proof.
  intros Hk. unfold testRule, setError. destruct fails; cbn; [|exact Hk].
  destruct (decide (key = k)) as [->|Hne].
  - rewrite lookup_insert_eq. eexists. reflexivity.
  - rewrite lookup_insert_ne by exact Hne. exact Hk.
Qed.

Lemma stringRules_keeps env config s validation r r' k :
  stringRules env config s validation r = Some r' ->
  is_Some (newErrors r !! k) -> is_Some (newErrors r' !! k).
Proof.
  unfold stringRules. intros Hrun Hk.
  destruct (truthyPattern (pattern validation)) as [pat|];
    [destruct (newRegExp env pat) as [test|]; [|discriminate]|];
    injection Hrun as <-;
    repeat case_match; repeat apply testRule_keeps; exact Hk.
Qed.

Lemma numberRules_keeps config n validation r k :
  is_Some (newErrors r !! k) ->
  is_Some (newErrors (numberRules config n validation r) !! k).
Proof.
  intros Hk. unfold numberRules.
  repeat case_match; repeat apply testRule_keeps; exact Hk.
Qed.

Lemma customRule_keeps config v validation r k :
  is_Some (newErrors r !! k) ->
  is_Some (newErrors (customRule config v validation r) !! k).
Proof.
  intros Hk. unfold customRule.
  repeat case_match; repeat apply testRule_keeps; exact Hk.
Qed.

Lemma applyValidation_keeps env config v validation r r' k :
  applyValidation env config v validation r = Some r' ->
  is_Some (newErrors r !! k) -> is_Some (newErrors r' !! k).
Proof.
  unfold applyValidation. intros Hrun Hk.
  destruct v; cbn in Hrun;
    try (injection Hrun as <-; apply customRule_keeps;
         try apply numberRules_keeps; exact Hk).
  destruct (stringRules env config s validation r) as [r1|] eqn:Hs;
    [|discriminate].
  injection Hrun as <-. apply customRule_keeps.
  apply (stringRules_keeps env config s validation r r1 k Hs Hk).
Qed.

Lemma validateField_keeps env data r r' config k :
  validateField env data r config = Some r' ->
  is_Some (newErrors r !! k) -> is_Some (newErrors r' !! k).
Proof.
  unfold validateField. intros Hrun Hk.
  destruct (field_required config && _).
  - injection Hrun as <-. cbn.
    destruct (decide (field_key config = k)) as [->|Hne].
    + rewrite lookup_insert_eq. eexists. reflexivity.
    + rewrite lookup_insert_ne by exact Hne. exact Hk.
  - destruct (negb _); [injection Hrun as <-; exact Hk|].
    destruct (field_validation config);
      [|injection Hrun as <-; exact Hk].
    apply (applyValidation_keeps _ _ _ _ _ _ _ Hrun Hk).
Qed.

Lemma validateFields_keep env data after k :
  forall r r',
    forEach (validateField env data) r after = Some r' ->
    is_Some (newErrors r !! k) -> is_Some (newErrors r' !! k).
Proof.
  intros r r' Hrun Hk.
  refine (forEach_invariant (fun r0 => is_Some (newErrors r0 !! k))
            (validateField env data) after _ r r' Hk Hrun).
  intros r0 c r1 _ Hr0 Hc1.
  apply (validateField_keeps env data r0 r1 c k Hc1 Hr0).
Qed.

Lemma validateField_required env data r config :
  field_required config = true ->
  requiredFails env (getField data (field_key config)) = true ->
  validateField env data r config
  = Some (setError (field_key config)
            (field_label config +:+ " is required") r).
Proof.
  intros Hreq Hv. unfold validateField. rewrite Hreq, Hv. reflexivity.
Qed.

(** The validation pass does not look at [showWhen]. *)
Lemma validateField_ignores_showWhen env data r k l req v sw1 sw2 tr :
  validateField env data r (mkField k l req v sw1 tr)
  = validateField env data r (mkField k l req v sw2 tr).
Proof. reflexivity. Qed.

(** A pass that leaves an entry refuses the save and shows the entries. *)
Lemma handleSave_blocked env fieldConfigs data errs files report k :
  validateFields env fieldConfigs data = Some report ->
  is_Some (newErrors report !! k) ->
  handleSave env fieldConfigs (mkModal (Some data) errs files)
  = (mkModal (Some data) (newErrors report) files, []).
Proof.
  intros Hrun Hk. unfold handleSave, validateForm.
  cbn [formData uploadedFiles]. rewrite Hrun.
  rewrite bool_decide_eq_false_2; [reflexivity|].
  rewrite map_size_empty_iff. intros He. rewrite He, lookup_empty in Hk.
  destruct Hk as [x Hx]. discriminate.
Qed.

(** A pass that throws sets no state and saves nothing. *)
Lemma handleSave_thrown env fieldConfigs data errs files :
  validateFields env fieldConfigs data = None ->
  handleSave env fieldConfigs (mkModal (Some data) errs files)
  = (mkModal (Some data) errs files, []).
Proof.
  intros Hrun. unfold handleSave, validateForm.
  cbn [formData uploadedFiles]. rewrite Hrun. reflexivity.
Qed.

(** What a required field without a value does to a save. *)
Lemma required_field_refuses env (before after : list FormFieldConfig)
  (config : FormFieldConfig) (data : Row) (errs : gmap string string)
  (files : gmap string (list string)) :
  field_required config = true ->
  requiredFails env (getField data (field_key config)) = true ->
  let fieldConfigs := before ++ config :: after in
  let message := field_label config +:+ " is required" in
  let m := mkModal (Some data) errs files in
  (forall r,
     validateField env data r config
     = Some (setError (field_key config) message r))
  /\ snd (handleSave env fieldConfigs m) = []
  /\ (forall report,
        validateFields env fieldConfigs data = Some report ->
        is_Some (newErrors report !! field_key config)
        /\ ((forall c, In c after -> field_key c <> field_key config) ->
            newErrors report !! field_key config = Some message)
        /\ handleSave env fieldConfigs m
           = (mkModal (Some data) (newErrors report) files, []))
  /\ (validateFields env fieldConfigs data = None ->
      handleSave env fieldConfigs m = (m, [])).
Proof.
  intros Hreq Hfails fieldConfigs message m.
  assert (Hreport : forall report,
            validateFields env fieldConfigs data = Some report ->
            is_Some (newErrors report !! field_key config)
            /\ ((forall c, In c after -> field_key c <> field_key config) ->
                newErrors report !! field_key config = Some message)).
  { intros report Hrun. unfold validateFields, fieldConfigs in Hrun.
    rewrite forEach_app in Hrun.
    destruct (forEach (validateField env data) emptyReport before)
      as [r0|]; [|discriminate].
    cbn [forEach] in Hrun.
    rewrite (validateField_required env data r0 config Hreq Hfails) in Hrun.
    assert (Hset : newErrors (setError (field_key config) message r0)
                   !! field_key config = Some message)
      by (cbn; apply lookup_insert_eq).
    split.
    - apply (validateFields_keep env data after _ _ _ Hrun).
      exists message. exact Hset.
    - intros Hafter.
      rewrite (validateFields_others env data after _ Hafter _ _ Hrun).
      exact Hset. }
  split; [|split; [|split]].
  - intros r. apply (validateField_required env data r config Hreq Hfails).
  - destruct (validateFields env fieldConfigs data) as [report|] eqn:Hrun.
    + destruct (Hreport report eq_refl) as [Hsome _].
      unfold m.
      rewrite (handleSave_blocked env fieldConfigs data errs files report
                 _ Hrun Hsome).
      reflexivity.
    + unfold m. rewrite (handleSave_thrown env _ data errs files Hrun).
      reflexivity.
  - intros report Hrun. destruct (Hreport report Hrun) as [Hsome Hmsg].
    split; [exact Hsome|]. split; [exact Hmsg|].
    apply (handleSave_blocked env fieldConfigs data errs files report
             _ Hrun Hsome).
  - intros Hrun. apply (handleSave_thrown env _ data errs files Hrun).
Qed.

(** C2 at the failing input: for a record of an unmarried person the
    required field "spouse" is not rendered, its visibility predicate being
    false, and yet the save is refused with "Spouse is required" and
    [onSave] is not invoked; and the length rule of the hidden field
    "maidenName" is tested and leaves its message. *)
Theorem hidden_field_is_validated (env : Env) :
  let fieldConfigs := [Ex.spouseField; Ex.maidenNameField] in
  let m := mkModal (Some Ex.single) ∅ ∅ in
  fieldRendered m Ex.spouseField = false
  /\ fieldRendered m Ex.maidenNameField = false
  /\ validateFields env fieldConfigs Ex.single
     = Some (mkReport
               {[ "spouse" := "Spouse is required";
                  "maidenName" := "Maiden name must be at least 3 characters" ]}
               [("maidenName", RuleMinLength)])
  /\ handleSave env fieldConfigs m
     = (mkModal (Some Ex.single)
          {[ "spouse" := "Spouse is required";
             "maidenName" := "Maiden name must be at least 3 characters" ]}
          ∅, []).
Proof.
  repeat apply conj; reflexivity.
Qed.

(** C7, as the specification words it, fails: with two field
    specifications on the key "email", both required, and no e-mail in the
    record, the entry of the key is the message of the second one, so the
    mapping does not hold "Email is required" for the first. *)
Lemma required_message_overwritten :
  field_required Ex.emailField = true
  /\ getField Ex.noEmail (field_key Ex.emailField) = VUndefined
  /\ exists report,
       validateFields Host.env [Ex.emailField; Ex.contactField] Ex.noEmail
       = Some report
       /\ newErrors report !! field_key Ex.emailField
          = Some "Contact email is required"
       /\ newErrors report !! field_key Ex.emailField
          <> Some (field_label Ex.emailField +:+ " is required").
Proof.
  repeat apply conj; [reflexivity | reflexivity |].
  eexists. split; [reflexivity|]. split; [reflexivity|].
  vm_compute. discriminate.
Qed.

(** C7 (amended): on save, for a required field whose value is missing,
    or is a string that is blank once trimmed, no rule of the field is
    tested, its key gets the message "<label> is required", and [onSave] is
    not invoked.  When the pass over the fields comes to its end, the key
    has an entry in the error mapping that is shown, and the entry is
    "<label> is required" unless a later field specification has the same
    key; when the pass throws instead (at the malformed pattern of some
    field), no error is shown and the state stays as it was.  A field that
    is empty and not required is passed over, no rule is tested for it.
    With the single required field "email" absent from the record, the
    mapping is {email: "Email is required"}. *)
Theorem required_field_blocks_save (env : Env)
  (before after : list FormFieldConfig) (config : FormFieldConfig)
  (data : Row) (errs : gmap string string) (files : gmap string (list string)) :
  field_required config = true ->
  (isNullish (getField data (field_key config)) = true
   \/ exists s, getField data (field_key config) = VStr s
                /\ trim env s = "") ->
  let fieldConfigs := before ++ config :: after in
  let message := field_label config +:+ " is required" in
  let m := mkModal (Some data) errs files in
  (forall r,
     validateField env data r config
     = Some (mkReport (<[field_key config := message]> (newErrors r))
                      (tested r)))
  /\ snd (handleSave env fieldConfigs m) = []
  /\ (forall report,
        validateFields env fieldConfigs data = Some report ->
        is_Some (newErrors report !! field_key config)
        /\ ((forall c, In c after -> field_key c <> field_key config) ->
            newErrors report !! field_key config = Some message)
        /\ handleSave env fieldConfigs m
           = (mkModal (Some data) (newErrors report) files, []))
  /\ (validateFields env fieldConfigs data = None ->
      handleSave env fieldConfigs m = (m, []))
  /\ (forall c r,
        field_required c = false ->
        truthy (getField data (field_key c)) = false ->
        validateField env data r c = Some r)
  /\ validateFields env [Ex.emailField] Ex.noEmail
     = Some (mkReport {[ "email" := "Email is required" ]} [])
  /\ snd (handleSave env [Ex.emailField] (mkModal (Some Ex.noEmail) ∅ ∅)) = [].
Proof.
  intros Hreq Hv fieldConfigs message m.
  assert (Hfails :
            requiredFails env (getField data (field_key config)) = true).
  { unfold requiredFails. destruct Hv as [Hn|(s & -> & Hs)].
    - destruct (getField data (field_key config)); try discriminate; reflexivity.
    - rewrite Hs. apply orb_true_r. }
  destruct (required_field_refuses env before after config data errs files
              Hreq Hfails) as (Hfield & Hsave & Hreport & Hthrown).
  split; [exact Hfield|]. split; [exact Hsave|].
  split; [exact Hreport|]. split; [exact Hthrown|].
  split; [|split; reflexivity].
  intros c r Hc Ht. unfold validateField. rewrite Hc, Ht. reflexivity.
Qed.

Lemma required_field_blocks_save_witness :
  validateField Host.env Ex.blankEmail emptyReport Ex.emailField
  = Some (mkReport {[ "email" := "Email is required" ]} [])
  /\ snd (handleSave Host.env [Ex.emailField; Ex.noteField]
                     (mkModal (Some Ex.blankEmail) ∅ ∅)) = []
  /\ handleSave Host.env [Ex.brokenField; Ex.emailField]
                (mkModal (Some Ex.blankEmail) ∅ ∅)
     = (mkModal (Some Ex.blankEmail) ∅ ∅, []).
Proof.
  destruct (required_field_blocks_save Host.env [] [Ex.noteField]
              Ex.emailField Ex.blankEmail ∅ ∅) as (H1 & H2 & _).
  - reflexivity.
  - right. exists Ex.blank. split; reflexivity.
  - split; [apply (H1 emptyReport)|]. split; [exact H2|].
    destruct (required_field_blocks_save Host.env [Ex.brokenField] []
                Ex.emailField Ex.blankEmail ∅ ∅) as (_ & _ & _ & H4 & _).
    + reflexivity.
    + right. exists Ex.blank. split; reflexivity.
    + apply H4. reflexivity.
Defined.

(** * Further properties of the table *)

(** ** The pagination bar *)

Lemma seqZ_3 (m : Z) : seqZ m 3 = [m; m + 1; m + 2].
Proof.
  unfold seqZ. change (Z.to_nat 3) with 3%nat. cbn.
  repeat (f_equal; try lia).
Qed.

Lemma seqZ_4 (m : Z) : seqZ m 4 = [m; m + 1; m + 2; m + 3].
Proof.
  unfold seqZ. change (Z.to_nat 4) with 4%nat. cbn.
  repeat (f_equal; try lia).
Qed.

Lemma pageNumbersOf_nums (l : list Z) : pageNumbersOf (PageNum <$> l) = l.
Proof.
  induction l as [|x r IH]; cbn in *; [reflexivity|].
  f_equal. exact IH.
Qed.

(** X1: on a page between 1 and the page count, the pagination bar
    (a) links the current page, (b) links only pages between 1 and the page
    count, (c) lists them in strictly increasing order, so none twice,
    (d) starts with page 1 and ends with the last page, and (e) has at most
    seven entries, ellipses included. *)
Theorem pagination_bar_shape (totalPages currentPage : Z) :
  1 <= currentPage <= totalPages ->
  let bar := generatePageNumbersOf totalPages currentPage in
  In currentPage (pageNumbersOf bar)
  /\ (forall n, In n (pageNumbersOf bar) -> 1 <= n <= totalPages)
  /\ StronglySorted Z.lt (pageNumbersOf bar)
  /\ head bar = Some (PageNum 1)
  /\ last bar = Some (PageNum totalPages)
  /\ (length bar <= 7)%nat.
Proof.
  intros Hcp bar. subst bar. unfold generatePageNumbersOf.
  destruct (Z.leb_spec totalPages 5) as [H5|H5].
  { assert (Ht : totalPages = 1 \/ totalPages = 2 \/ totalPages = 3
                 \/ totalPages = 4 \/ totalPages = 5) by lia.
    destruct Ht as [->|[->|[->|[->| ->]]]];
      [ change (seqZ 1 1) with [1]
      | change (seqZ 1 2) with [1; 2]
      | change (seqZ 1 3) with [1; 2; 3]
      | change (seqZ 1 4) with [1; 2; 3; 4]
      | change (seqZ 1 5) with [1; 2; 3; 4; 5] ]; cbn;
      (repeat apply conj;
       [ lia | intros n Hn; lia
       | repeat constructor; lia | reflexivity | reflexivity | lia ]). }
  destruct (Z.leb_spec currentPage 3) as [H3|H3].
  { rewrite seqZ_4. cbn.
    repeat apply conj;
      [ lia | intros n Hn; lia
      | repeat constructor; lia | reflexivity | reflexivity | lia ]. }
  destruct (Z.leb_spec (totalPages - 2) currentPage) as [Hl|Hl].
  { rewrite seqZ_4. cbn.
    repeat apply conj;
      [ lia | intros n Hn; lia
      | repeat constructor; lia | reflexivity
      | f_equal; f_equal; lia | lia ]. }
  rewrite seqZ_3. cbn.
  repeat apply conj;
    [ lia | intros n Hn; lia
    | repeat constructor; lia | reflexivity | reflexivity | lia ].
Qed.

Lemma pagination_bar_shape_witness :
  In 6 (pageNumbersOf (generatePageNumbersOf 12 6))
  /\ last (generatePageNumbersOf 12 6) = Some (PageNum 12)
  /\ (length (generatePageNumbersOf 12 6) <= 7)%nat.
Proof.
  destruct (pagination_bar_shape 12 6 ltac:(lia)) as (H1 & _ & _ & _ & H2 & H3).
  repeat apply conj; assumption.
Defined.

(** ** Sorting by a column header *)

Lemma handleSort_found p col s :
  Array_find (fun c => String.eqb (col_key c) (col_key col)) (columns p)
  = Some col ->
  col_sortable col = Some true ->
  handleSort p (col_key col) s
  = setSortConfig
      (match sortConfig s with
       | Some current =>
           if String.eqb (sort_key current) (col_key col)
           then match direction current with
                | asc => Some (mkSort (col_key col) desc)
                | desc => None
                end
           else Some (mkSort (col_key col) asc)
       | None => Some (mkSort (col_key col) asc)
       end) s.
Proof.
  intros Hf Hs. unfold handleSort. rewrite Hf, Hs.
  rewrite bool_decide_eq_true_2 by reflexivity. reflexivity.
Qed.

(** X2: the header of a sortable column cycles through ascending,
    descending and no sort: from a state that is not sorted by that column,
    one click sorts ascending, a second descending, a third removes the
    sort.  A click never touches the rows, the page, the selection or the
    filters, and [handleSort] with a key that belongs to no column, or to a
    column that is not sortable, changes nothing. *)
Theorem sort_header_cycle (p : Props) (col : ColumnConfig) (s : State) :
  Array_find (fun c => String.eqb (col_key c) (col_key col)) (columns p)
  = Some col ->
  col_sortable col = Some true ->
  (forall c, sortConfig s = Some c -> sort_key c <> col_key col) ->
  sortConfig (clickHeader p 1 (col_key col) s)
  = Some (mkSort (col_key col) asc)
  /\ sortConfig (clickHeader p 2 (col_key col) s)
     = Some (mkSort (col_key col) desc)
  /\ sortConfig (clickHeader p 3 (col_key col) s) = None
  /\ (forall n,
        localData (clickHeader p n (col_key col) s) = localData s
        /\ currentPage (clickHeader p n (col_key col) s) = currentPage s
        /\ selectedItems (clickHeader p n (col_key col) s) = selectedItems s
        /\ activeFilters (clickHeader p n (col_key col) s) = activeFilters s
        /\ searchTerm (clickHeader p n (col_key col) s) = searchTerm s)
  /\ (forall key,
        match Array_find (fun c => String.eqb (col_key c) key) (columns p) with
        | Some c => col_sortable c <> Some true
        | None => True
        end ->
        handleSort p key s = s).
Proof.
  intros Hf Hs Hother.
  assert (H1 : sortConfig (clickHeader p 1 (col_key col) s)
               = Some (mkSort (col_key col) asc)).
  { cbn [clickHeader]. rewrite (handleSort_found p col s Hf Hs). cbn.
    destruct (sortConfig s) as [c|] eqn:Hc; [|reflexivity].
    specialize (Hother c eq_refl). apply String.eqb_neq in Hother.
    rewrite Hother. reflexivity. }
  assert (H2 : sortConfig (clickHeader p 2 (col_key col) s)
               = Some (mkSort (col_key col) desc)).
  { cbn [clickHeader] in *. rewrite (handleSort_found p col _ Hf Hs). cbn.
    rewrite H1. cbn. rewrite String.eqb_refl. reflexivity. }
  repeat apply conj.
  - exact H1.
  - exact H2.
  - cbn [clickHeader] in *. rewrite (handleSort_found p col _ Hf Hs). cbn.
    rewrite H2. cbn. rewrite String.eqb_refl. reflexivity.
  - intros n. induction n as [|n IH]; [repeat apply conj; reflexivity|].
    cbn [clickHeader]. rewrite (handleSort_found p col _ Hf Hs). cbn.
    exact IH.
  - intros key Hk. unfold handleSort.
    destruct (Array_find (fun c => String.eqb (col_key c) key) (columns p))
      as [c|]; [|reflexivity].
    rewrite bool_decide_eq_false_2 by exact Hk. reflexivity.
Qed.

Lemma sort_header_cycle_witness :
  sortConfig (clickHeader Ex.sortProps 2 "name" (initialState Ex.four))
  = Some (mkSort "name" desc)
  /\ sortConfig (clickHeader Ex.sortProps 3 "name" (initialState Ex.four))
     = None
  /\ handleSort Ex.sortProps "note" (initialState Ex.four)
     = initialState Ex.four
  /\ handleSort Ex.sortProps "salary" (initialState Ex.four)
     = initialState Ex.four.
Proof.
  destruct (sort_header_cycle Ex.sortProps Ex.nameColumn (initialState Ex.four))
    as (_ & H2 & H3 & _ & Hno).
  - reflexivity.
  - reflexivity.
  - intros c Hc. discriminate Hc.
  - repeat apply conj.
    + exact H2.
    + exact H3.
    + apply Hno. cbn. discriminate.
    + apply Hno. exact I.
Defined.

(** ** What the query pipeline keeps *)

Lemma List_filter_sublist {A} (f : A -> bool) (l : list A) :
  List.filter f l `sublist_of` l.
Proof.
  induction l as [|x r IH]; cbn; [constructor|].
  destruct (f x); constructor; exact IH.
Qed.

Lemma map_sublist {A B} (f : A -> B) (l1 l2 : list A) :
  l1 `sublist_of` l2 -> map f l1 `sublist_of` map f l2.
Proof. induction 1; cbn; constructor; assumption. Qed.

Lemma applyFilter_sublist env filters l entry :
  applyFilter env filters l entry `sublist_of` l.
Proof.
  unfold applyFilter. destruct entry as [k v].
  destruct (String.eqb v "" || String.eqb v "all"); [reflexivity|].
  destruct (Array_find _ filters); [apply List_filter_sublist | reflexivity].
Qed.

Lemma applyFilters_sublist env filters active : forall l,
  foldl (applyFilter env filters) l active `sublist_of` l.
Proof.
  induction active as [|entry r IH]; intros l; cbn; [reflexivity|].
  etransitivity; [apply IH | apply applyFilter_sublist].
Qed.

Lemma filteredData_unsorted_sublist env c columns filters rows term active :
  filteredData env c columns filters rows term active None `sublist_of` rows.
Proof.
  unfold filteredData.
  assert (Hs : (if Config.enableSearch c && negb (String.eqb term "")
                then List.filter (matchesSearch env columns term) rows
                else rows) `sublist_of` rows).
  { destruct (_ && _); [apply List_filter_sublist | reflexivity]. }
  assert (Hf : forall l, (if Config.enableFilters c
                          then foldl (applyFilter env filters) l active
                          else l) `sublist_of` l).
  { intros l. destruct (Config.enableFilters c);
      [apply applyFilters_sublist | reflexivity]. }
  destruct (Config.enableSorting c); (etransitivity; [apply Hf | exact Hs]).
Qed.

Lemma filteredData_sorted_Permutation env c columns filters rows term active
  sc :
  Permutation (filteredData env c columns filters rows term active None)
              (filteredData env c columns filters rows term active sc).
Proof.
  unfold filteredData.
  destruct (Config.enableSorting c), sc; try reflexivity.
  apply Array_sort_Permutation.
Qed.

(** X3: the pipeline only selects and rearranges.  Without a sort its
    output is a subsequence of the rows, in their order; with a sort it is a
    rearrangement of that subsequence; so every row it yields is a row of
    the table, there are never more of them than rows, and when the ids of
    the rows are distinct so are the ids of the output. *)
Theorem pipeline_selects_and_rearranges (env : Env) (c : Config.t)
  (columns : list ColumnConfig) (filters : list FilterConfig)
  (rows : list Row) (term : string) (active : list (string * string))
  (sc : option SortConfig) :
  filteredData env c columns filters rows term active None `sublist_of` rows
  /\ Permutation (filteredData env c columns filters rows term active None)
                 (filteredData env c columns filters rows term active sc)
  /\ (forall item,
        In item (filteredData env c columns filters rows term active sc) ->
        In item rows)
  /\ (length (filteredData env c columns filters rows term active sc)
      <= length rows)%nat
  /\ (NoDup (map id rows) ->
      NoDup (map id (filteredData env c columns filters rows term active sc))).
Proof.
  pose proof (filteredData_unsorted_sublist env c columns filters rows term
                active) as Hsub.
  pose proof (filteredData_sorted_Permutation env c columns filters rows term
                active sc) as Hperm.
  repeat apply conj.
  - exact Hsub.
  - exact Hperm.
  - intros item Hin. apply list_elem_of_In.
    eapply elem_of_sublist; [|exact Hsub].
    apply list_elem_of_In. eapply Permutation_in; [symmetry; exact Hperm|].
    exact Hin.
  - rewrite <- (Permutation_length Hperm). apply sublist_length, Hsub.
  - intros Hnd.
    rewrite <- (Permutation_map id Hperm).
    eapply sublist_NoDup; [exact Hnd | apply map_sublist, Hsub].
Qed.

Lemma pipeline_selects_and_rearranges_witness :
  NoDup (map id (filteredData Host.env (config TableConfig.empty)
                   [Ex.nameColumn] [] Ex.four "a" []
                   (Some (mkSort "name" desc)))).
Proof.
  apply (pipeline_selects_and_rearranges Host.env (config TableConfig.empty)
           [Ex.nameColumn] [] Ex.four "a" [] (Some (mkSort "name" desc))).
  apply (bool_decide_unpack _). vm_compute. exact I.
Defined.

(** ** Filters *)

Lemma List_filter_comm {A} (f g : A -> bool) (l : list A) :
  List.filter f (List.filter g l) = List.filter g (List.filter f l).
Proof.
  induction l as [|x r IH]; cbn; [reflexivity|].
  destruct (f x) eqn:Hf, (g x) eqn:Hg; cbn; rewrite ?Hf, ?Hg, IH; reflexivity.
Qed.

Lemma applyFilter_comm env filters l e1 e2 :
  applyFilter env filters (applyFilter env filters l e1) e2
  = applyFilter env filters (applyFilter env filters l e2) e1.
Proof.
  unfold applyFilter. destruct e1 as [k1 v1], e2 as [k2 v2].
  destruct (String.eqb v1 "" || String.eqb v1 "all"),
           (String.eqb v2 "" || String.eqb v2 "all"); try reflexivity.
  destruct (Array_find (fun f => String.eqb (filter_key f) k1) filters),
           (Array_find (fun f => String.eqb (filter_key f) k2) filters);
    try reflexivity.
  apply List_filter_comm.
Qed.

(** The condition under which an entry of [activeFilters] constrains a
    row, and how. *)
Lemma applyFilter_In env filters l k v item :
  In item (applyFilter env filters l (k, v))
  <-> In item l
      /\ (v <> "" -> v <> "all" ->
          forall f,
            Array_find (fun f => String.eqb (filter_key f) k) filters = Some f ->
            filterPredicate env f v item = true).
Proof.
  unfold applyFilter.
  destruct (String.eqb_spec v "") as [->|Hne]; cbn [orb].
  { split; [intros H; split; [exact H | congruence] | tauto]. }
  destruct (String.eqb_spec v "all") as [->|Hna].
  { split; [intros H; split; [exact H | congruence] | tauto]. }
  destruct (Array_find _ filters) as [f|].
  - rewrite filter_In. split.
    + intros [Hi Hp]. split; [exact Hi|]. intros _ _ f' [= <-]. exact Hp.
    + intros [Hi Hp]. split; [exact Hi|]. apply Hp; auto.
  - split; [intros H; split; [exact H | discriminate] | tauto].
Qed.

Lemma applyFilters_In env filters active : forall l item,
  In item (foldl (applyFilter env filters) l active)
  <-> In item l
      /\ (forall k v f,
            In (k, v) active -> v <> "" -> v <> "all" ->
            Array_find (fun f => String.eqb (filter_key f) k) filters = Some f ->
            filterPredicate env f v item = true).
Proof.
  induction active as [|[k v] r IH]; intros l item; cbn [foldl].
  - split; [intros H; split; [exact H | intros ? ? ? []] | tauto].
  - rewrite IH, applyFilter_In. split.
    + intros [[Hi Hkv] Hr]. split; [exact Hi|].
      intros k' v' f [[= <- <-]|Hin] H1 H2 H3; [apply Hkv | eapply Hr]; eauto.
    + intros [Hi Hall]. repeat split; [exact Hi | |].
      * intros H1 H2 f H3. apply (Hall k v f); auto. left. reflexivity.
      * intros k' v' f Hin. apply Hall. right. exact Hin.
Qed.

(** X4: the active filters are a conjunction.  A row comes out of the
    filter stage exactly when it went in and, for every entry of
    [activeFilters] whose value is neither empty nor "all" and whose key is
    the key of a filter, it passes the predicate of the first filter with
    that key; an entry with the value "all", an empty value or a key that no
    filter has constrains nothing.  The order of the entries does not
    matter: any rearrangement of them yields the same rows in the same
    order. *)
Theorem filters_are_a_conjunction (env : Env) (filters : list FilterConfig)
  (active : list (string * string)) (rows : list Row) :
  (forall item,
      In item (foldl (applyFilter env filters) rows active)
      <-> In item rows
          /\ (forall k v f,
                In (k, v) active -> v <> "" -> v <> "all" ->
                Array_find (fun f => String.eqb (filter_key f) k) filters
                = Some f ->
                filterPredicate env f v item = true))
  /\ (forall active',
        Permutation active active' ->
        foldl (applyFilter env filters) rows active
        = foldl (applyFilter env filters) rows active').
Proof.
  split; [intros item; apply applyFilters_In|].
  intros active' Hperm. revert rows.
  induction Hperm as [|e l l' _ IH|e1 e2 l|l l' l'' _ IH1 _ IH2];
    intros rows; cbn [foldl].
  - reflexivity.
  - apply IH.
  - rewrite applyFilter_comm. reflexivity.
  - rewrite IH1. apply IH2.
Qed.

Lemma filters_are_a_conjunction_witness :
  foldl (applyFilter Host.env [Ex.roleFilter; Ex.statusFilter]) Ex.staff
        [("role", "admin"); ("status", "active")]
  = foldl (applyFilter Host.env [Ex.roleFilter; Ex.statusFilter]) Ex.staff
          [("status", "active"); ("role", "admin")].
Proof.
  apply (filters_are_a_conjunction Host.env [Ex.roleFilter; Ex.statusFilter]
           [("role", "admin"); ("status", "active")] Ex.staff).
  apply perm_swap.
Defined.

(** ** Search *)

Lemma append_String (c : ascii) (a b : string) :
  String c a +:+ b = String c (a +:+ b).
Proof. reflexivity. Qed.

Lemma append_empty (b : string) : "" +:+ b = b.
Proof. reflexivity. Qed.

Lemma prefix_app (t s : string) :
  String.prefix t s = true <-> exists b, s = t +:+ b.
Proof.
  revert s. induction t as [|c t IH]; intros s.
  - split; [intros _; exists s; reflexivity | intros _; destruct s; reflexivity].
  - destruct s as [|d s]; cbn.
    + split; [discriminate | intros [b Hb]; discriminate].
    + destruct (ascii_dec c d) as [->|Hne].
      * rewrite IH. split; intros [b Hb]; exists b;
          rewrite append_String in *; congruence.
      * split; [discriminate|].
        intros [b Hb]. rewrite append_String in Hb. congruence.
Qed.

Lemma string_app_assoc (a b c : string) : (a +:+ b) +:+ c = a +:+ (b +:+ c).
Proof.
  induction a as [|x a IH]; [reflexivity|].
  rewrite !append_String, IH. reflexivity.
Qed.

(** [s.includes(t)] holds exactly when [s] is some text, then [t], then
    some text. *)
Lemma includes_app (s t : string) :
  includes s t = true <-> exists a b, s = a +:+ (t +:+ b).
Proof.
  induction s as [|c s IH]; cbn [includes]; rewrite orb_true_iff, prefix_app.
  - split.
    + intros [[b Hb]|H]; [exists "", b; exact Hb | discriminate].
    + intros (a & b & H). left.
      destruct a; [exists b; exact H | discriminate].
  - rewrite IH. split.
    + intros [[b Hb]|(a & b & H)].
      * exists "", b. exact Hb.
      * exists (String c a), b. rewrite append_String. congruence.
    + intros (a & b & H). destruct a as [|x a].
      * left. exists b. exact H.
      * right. exists a, b. rewrite append_String in H. congruence.
Qed.

Lemma includes_trans (s t u : string) :
  includes s t = true -> includes t u = true -> includes s u = true.
Proof.
  rewrite !includes_app. intros (a & b & ->) (a' & b' & ->).
  exists (a +:+ a'), (b' +:+ b).
  rewrite !string_app_assoc. reflexivity.
Qed.

Lemma toLowerCase_app (a b : string) :
  toLowerCase (a +:+ b) = toLowerCase a +:+ toLowerCase b.
Proof.
  induction a as [|c a IH]; [reflexivity|].
  rewrite append_String. cbn [toLowerCase]. rewrite append_String, IH.
  reflexivity.
Qed.

Lemma toLowerCase_includes (s t : string) :
  includes s t = true -> includes (toLowerCase s) (toLowerCase t) = true.
Proof.
  rewrite !includes_app. intros (a & b & ->).
  exists (toLowerCase a), (toLowerCase b).
  rewrite !toLowerCase_app. reflexivity.
Qed.

Lemma includes_nonempty (s t : string) :
  includes s t = true -> s = "" -> t = "".
Proof.
  rewrite includes_app. intros (a & b & ->) H.
  destruct a; [|discriminate]. destruct t; [reflexivity | discriminate].
Qed.

Lemma toLowerCase_empty (t : string) : toLowerCase t = "" -> t = "".
Proof. destruct t; [reflexivity | discriminate]. Qed.

Lemma lowerAscii_idem (c : ascii) : lowerAscii (lowerAscii c) = lowerAscii c.
Proof.
  destruct c as [[] [] [] [] [] [] [] []]; reflexivity.
Qed.

Lemma toLowerCase_idem (t : string) :
  toLowerCase (toLowerCase t) = toLowerCase t.
Proof.
  induction t as [|c t IH]; cbn; [reflexivity|].
  rewrite lowerAscii_idem, IH. reflexivity.
Qed.

(** A row is in the output of the pipeline exactly when it is a row of the
    table, matches the search term if the search is on and the term is not
    empty, and passes the active filters if filtering is on. *)
Lemma filteredData_In env c columns filters rows term active sc item :
  In item (filteredData env c columns filters rows term active sc)
  <-> In item rows
      /\ (Config.enableSearch c = true -> term <> "" ->
          matchesSearch env columns term item = true)
      /\ (Config.enableFilters c = true ->
          forall k v f,
            In (k, v) active -> v <> "" -> v <> "all" ->
            Array_find (fun f => String.eqb (filter_key f) k) filters = Some f ->
            filterPredicate env f v item = true).
Proof.
  transitivity
    (In item (filteredData env c columns filters rows term active None)).
  { split; apply Permutation_in;
      [symmetry|]; apply filteredData_sorted_Permutation. }
  unfold filteredData.
  assert (Hsearch :
            forall x,
              In x (if Config.enableSearch c && negb (String.eqb term "")
                    then List.filter (matchesSearch env columns term) rows
                    else rows)
              <-> In x rows
                  /\ (Config.enableSearch c = true -> term <> "" ->
                      matchesSearch env columns term x = true)).
  { intros x. destruct (Config.enableSearch c); cbn [andb].
    - destruct (String.eqb_spec term "") as [->|Hne]; cbn [negb].
      + split; [intros H; split; [exact H | congruence] | tauto].
      + rewrite filter_In. split; [tauto|]. intros [H1 H2]. auto.
    - split; [intros H; split; [exact H | discriminate] | tauto]. }
  assert (Hgoal :
            In item
              (if Config.enableFilters c
               then foldl (applyFilter env filters)
                      (if Config.enableSearch c && negb (String.eqb term "")
                       then List.filter (matchesSearch env columns term) rows
                       else rows) active
               else
                 if Config.enableSearch c && negb (String.eqb term "")
                 then List.filter (matchesSearch env columns term) rows
                 else rows)
            <-> In item rows
                /\ (Config.enableSearch c = true -> term <> "" ->
                    matchesSearch env columns term item = true)
                /\ (Config.enableFilters c = true ->
                    forall k v f,
                      In (k, v) active -> v <> "" -> v <> "all" ->
                      Array_find (fun f => String.eqb (filter_key f) k) filters
                      = Some f ->
                      filterPredicate env f v item = true)).
  { destruct (Config.enableFilters c).
    - rewrite applyFilters_In, Hsearch. split.
      + intros [[H1 H2] H3]. split; [exact H1|]. split; [exact H2|].
        intros _. exact H3.
      + intros (H1 & H2 & H3). split; [split; assumption|].
        apply H3. reflexivity.
    - rewrite Hsearch. split.
      + intros [H1 H2]. split; [exact H1|]. split; [exact H2|]. discriminate.
      + intros (H1 & H2 & _). split; assumption. }
  destruct (Config.enableSorting c); exact Hgoal.
Qed.

Lemma matchesSearch_refine env columns t1 t2 item :
  includes (toLowerCase t2) (toLowerCase t1) = true ->
  matchesSearch env columns t2 item = true ->
  matchesSearch env columns t1 item = true.
Proof.
  intros Ht. unfold matchesSearch. rewrite !existsb_exists.
  intros (col & Hin & Hm). exists col. split; [exact Hin|].
  destruct (isNullish (getField item (col_key col))); [discriminate|].
  eapply includes_trans; eassumption.
Qed.

(** X5: refining the search term narrows the result.  If the term [t1]
    occurs in the term [t2], letter case aside, then with the same rows,
    columns, filters and sort every row shown for [t2] is shown for [t1]. *)
Theorem search_refinement_narrows (env : Env) (c : Config.t)
  (columns : list ColumnConfig) (filters : list FilterConfig)
  (rows : list Row) (active : list (string * string))
  (sc : option SortConfig) (t1 t2 : string) :
  includes (toLowerCase t2) (toLowerCase t1) = true ->
  forall item,
    In item (filteredData env c columns filters rows t2 active sc) ->
    In item (filteredData env c columns filters rows t1 active sc).
Proof.
  intros Ht item. rewrite !filteredData_In.
  intros (Hin & Hs & Hf). split; [exact Hin|]. split; [|exact Hf].
  intros Hen Hne. apply (matchesSearch_refine env columns t1 t2 item Ht).
  apply Hs; [exact Hen|]. intros ->.
  apply Hne, toLowerCase_empty.
  apply (includes_nonempty _ _ Ht). reflexivity.
Qed.

Lemma search_refinement_narrows_witness :
  In (Ex.employee "4" "Bobby" "user" "inactive")
     (filteredData Host.env (config TableConfig.empty) [Ex.nameColumn]
        [] Ex.staff "bo" [] None).
Proof.
  apply (search_refinement_narrows Host.env (config TableConfig.empty)
           [Ex.nameColumn] [] Ex.staff [] None "bo" "Bobb").
  - reflexivity.
  - vm_compute. left. reflexivity.
Defined.

(** ** Page windows *)

Lemma slice_sublist {A} (l : list A) (a b : Z) : slice l a b `sublist_of` l.
Proof.
  unfold slice. etransitivity; [apply sublist_take | apply sublist_drop].
Qed.

Lemma currentDataOf_window (c : Config.t) (filtered : list Row) (pg : Z) :
  Config.enablePagination c = true -> 0 < Config.itemsPerPage c -> 1 <= pg ->
  currentDataOf c filtered pg
  = take (Z.to_nat (Config.itemsPerPage c))
         (drop (Z.to_nat (pg - 1) * Z.to_nat (Config.itemsPerPage c)) filtered).
Proof.
  intros Hen Hk Hpg. unfold currentDataOf, startIndexOf. rewrite Hen.
  replace (pg - 1) with (Z.of_nat (Z.to_nat (pg - 1))) at 1 2 by lia.
  apply slice_chunk. exact Hk.
Qed.

(** X6: with pagination on and a positive page size, the window of a page
    [pg >= 1] is a run of consecutive rows of the filtered sequence: the
    filtered rows are the rows before the window, the window and the rows
    after it, and the rows before it are the first
    [(pg - 1) * itemsPerPage], or all of them when there are fewer.  Every
    page before the last holds exactly [itemsPerPage] rows, the last page
    holds at least one and at most [itemsPerPage], and a page after the
    last is empty. *)
Theorem page_window_sizes (env : Env) (p : Props) (s : State) (pg : Z) :
  Config.enablePagination (cfg p) = true ->
  0 < Config.itemsPerPage (cfg p) ->
  1 <= pg ->
  let page := currentData env p (setCurrentPage pg s) in
  (exists before after,
      filteredDataIn env p s = before ++ page ++ after
      /\ Z.of_nat (length before)
         = Z.min ((pg - 1) * Config.itemsPerPage (cfg p))
                 (Z.of_nat (length (filteredDataIn env p s))))
  /\ (pg < totalPages env p s ->
      Z.of_nat (length page) = Config.itemsPerPage (cfg p))
  /\ (pg = totalPages env p s ->
      0 < Z.of_nat (length page) <= Config.itemsPerPage (cfg p))
  /\ (totalPages env p s < pg -> page = []).
Proof.
  intros Hen Hk Hpg page. subst page.
  unfold currentData. rewrite filteredDataIn_setCurrentPage.
  cbn [currentPage setCurrentPage].
  rewrite (currentDataOf_window _ _ _ Hen Hk Hpg).
  unfold totalPages, totalPagesOf.
  set (l := filteredDataIn env p s).
  set (k := Config.itemsPerPage (cfg p)) in *.
  split.
  { exists (take (Z.to_nat (pg - 1) * Z.to_nat k) l),
           (drop (Z.to_nat k) (drop (Z.to_nat (pg - 1) * Z.to_nat k) l)).
    split.
    - rewrite (take_drop (Z.to_nat k)), take_drop. reflexivity.
    - rewrite length_take. nia. }
  pose proof (ceilDiv_covers (Z.of_nat (length l)) k Hk) as Hc.
  pose proof (ceilDiv_tight (Z.of_nat (length l)) k Hk) as Ht.
  assert (Hlen : Z.of_nat (length (take (Z.to_nat k)
                    (drop (Z.to_nat (pg - 1) * Z.to_nat k) l)))
                 = Z.max 0 (Z.min k (Z.of_nat (length l) - (pg - 1) * k))).
  { rewrite length_take, length_drop. nia. }
  repeat apply conj.
  - intros Hlt. rewrite Hlen. nia.
  - intros He. rewrite Hlen. nia.
  - intros Hgt. apply nil_length_inv. nia.
Qed.

Lemma page_window_sizes_witness :
  Z.of_nat (length (currentData Host.env Ex.pairProps
                      (setCurrentPage 1 (initialState Ex.people)))) = 2
  /\ 0 < Z.of_nat (length (currentData Host.env Ex.pairProps
                             (setCurrentPage 2 (initialState Ex.people))))
  /\ currentData Host.env Ex.pairProps
       (setCurrentPage 3 (initialState Ex.people)) = [].
Proof.
  repeat apply conj.
  - apply (page_window_sizes Host.env Ex.pairProps (initialState Ex.people) 1);
      first [reflexivity | lia].
  - apply (page_window_sizes Host.env Ex.pairProps (initialState Ex.people) 2);
      first [reflexivity | lia].
  - apply (page_window_sizes Host.env Ex.pairProps (initialState Ex.people) 3);
      first [reflexivity | lia].
Defined.

(** ** Page navigation *)

Lemma pageNumbers_in_range (tp cp n : Z) :
  existsb (fun x => match x with PageNum m => m =? n | Ellipsis => false end)
          (generatePageNumbersOf tp cp) = true ->
  1 <= n <= tp.
Proof.
  intros H. split; [apply (pageNumbers_ge_1 tp cp n H)|].
  rewrite existsb_exists in H. destruct H as (x & Hin & Hx).
  destruct x as [m|]; [|discriminate]. apply Z.eqb_eq in Hx. subst m.
  unfold generatePageNumbersOf in Hin.
  destruct (Z.leb_spec tp 5).
  { apply in_map_iff in Hin as (k & [= ->] & Hk).
    apply list_elem_of_In, elem_of_seqZ in Hk. lia. }
  destruct (Z.leb_spec cp 3).
  { rewrite seqZ_4 in Hin. cbn in Hin.
    repeat (destruct Hin as [Hin|Hin]; [try discriminate; injection Hin as <-; lia|]).
    contradiction. }
  destruct (Z.leb_spec (tp - 2) cp).
  { rewrite seqZ_4 in Hin. cbn in Hin.
    repeat (destruct Hin as [Hin|Hin]; [try discriminate; injection Hin as <-; lia|]).
    contradiction. }
  rewrite seqZ_3 in Hin. cbn in Hin.
  repeat (destruct Hin as [Hin|Hin]; [try discriminate; injection Hin as <-; lia|]).
  contradiction.
Qed.

(** X7: the pagination controls keep the page index on a page that exists.
    From a page between 1 and the page count, "previous", "next" and a
    click on a page link lead to a page between 1 and the page count and
    change neither the rows nor the page count; "previous" on page 1 and
    "next" on the last page stay where they are; a page link leads to its
    page. *)
Theorem page_navigation_stays_in_range (env : Env) (p : Props)
  (s s' : State) (e : Event) (calls : list Call) :
  step env p s e = Some (s', calls) ->
  (e = PreviousPage \/ e = NextPage \/ exists n, e = GotoPage n) ->
  1 <= currentPage s <= totalPages env p s ->
  1 <= currentPage s' <= totalPages env p s'
  /\ totalPages env p s' = totalPages env p s
  /\ localData s' = localData s
  /\ calls = []
  /\ (e = PreviousPage -> currentPage s' = Z.max 1 (currentPage s - 1))
  /\ (e = NextPage ->
      currentPage s' = Z.min (totalPages env p s) (currentPage s + 1))
  /\ (forall n, e = GotoPage n -> currentPage s' = n).
Proof.
  intros H He Hr.
  destruct He as [->|[->|[n ->]]]; step_inv H; inversion H; subst; clear H;
    unfold totalPages in *; cbn [currentPage setCurrentPage localData].
  - change (filteredDataIn env p (setCurrentPage _ s))
      with (filteredDataIn env p s).
    repeat apply conj; try reflexivity; try lia; try discriminate.
  - change (filteredDataIn env p (setCurrentPage _ s))
      with (filteredDataIn env p s).
    repeat apply conj; try reflexivity; try lia; try discriminate.
  - change (filteredDataIn env p (setCurrentPage n s))
      with (filteredDataIn env p s).
    match goal with
    | Hb : _ && existsb _ _ = true |- _ =>
        apply andb_true_iff in Hb as [_ Hb];
        apply pageNumbers_in_range in Hb
    end.
    unfold totalPages in *.
    repeat apply conj; try reflexivity; try lia; try discriminate.
    intros m [= ->]. reflexivity.
Qed.

Lemma page_navigation_stays_in_range_witness :
  match step Host.env Ex.props (initialState Ex.people) NextPage with
  | Some (s', _) =>
      1 <= currentPage s' <= totalPages Host.env Ex.props s'
      /\ currentPage s' = 2
  | None => False
  end.
Proof.
  destruct (step Host.env Ex.props (initialState Ex.people) NextPage)
    as [[s' calls]|] eqn:E; [|vm_compute in E; discriminate E].
  destruct (page_navigation_stays_in_range Host.env Ex.props
              (initialState Ex.people) s' NextPage calls E)
    as (H1 & _ & _ & _ & _ & H2 & _).
  - right. left. reflexivity.
  - vm_compute. split; discriminate.
  - split; [exact H1|]. rewrite (H2 eq_refl). reflexivity.
Defined.

(** ** The selection *)

Lemma currentData_sublist env p s :
  currentData env p s `sublist_of` filteredDataIn env p s.
Proof.
  unfold currentData, currentDataOf.
  destruct (Config.enablePagination (cfg p));
    [apply slice_sublist | reflexivity].
Qed.

Lemma currentData_ids_NoDup env p s :
  NoDup (map id (localData s)) -> NoDup (map id (currentData env p s)).
Proof.
  intros Hnd.
  eapply sublist_NoDup; [|apply map_sublist, currentData_sublist].
  unfold filteredDataIn.
  rewrite <- (Permutation_map id
                (filteredData_sorted_Permutation env (cfg p) (columns p)
                   (filters p) (localData s) (searchTerm s) (activeFilters s)
                   (sortConfig s))).
  eapply sublist_NoDup; [exact Hnd|].
  apply map_sublist, filteredData_unsorted_sublist.
Qed.

Lemma deselect_fresh (l : list string) (x : string) :
  ~ In x l ->
  List.filter (fun y => negb (String.eqb y x)) (l ++ [x]) = l.
Proof.
  intros Hn. rewrite List.filter_app. cbn.
  rewrite String.eqb_refl. cbn. rewrite app_nil_r.
  induction l as [|y r IH]; cbn; [reflexivity|].
  destruct (String.eqb_spec y x) as [->|Hne].
  - exfalso. apply Hn. left. reflexivity.
  - cbn. f_equal. apply IH. intros H. apply Hn. right. exact H.
Qed.

(** X8: the checkbox of a row toggles the id of that row and no other.
    After a click on the checkbox of the [i]-th row of the page, the id of
    that row is selected exactly if it was not before, every other id is
    selected exactly if it was before, and [onItemsSelect] gets the new
    selection; when the id was not selected, a second click on the same
    checkbox gives back the selection as it was, in the same order. *)
Theorem row_checkbox_toggles (env : Env) (p : Props) (s : State) (i : nat)
  (item : Row) :
  Config.enableSelection (cfg p) = true ->
  currentData env p s !! i = Some item ->
  exists s1,
    step env p s (SelectItem i) = Some (s1, selectionEffect p s1)
    /\ (In (id item) (selectedItems s1) <-> ~ In (id item) (selectedItems s))
    /\ (forall x, x <> id item ->
                  (In x (selectedItems s1) <-> In x (selectedItems s)))
    /\ localData s1 = localData s
    /\ currentPage s1 = currentPage s
    /\ (~ In (id item) (selectedItems s) ->
        exists s2,
          step env p s1 (SelectItem i) = Some (s2, selectionEffect p s2)
          /\ selectedItems s2 = selectedItems s).
Proof.
  intros Hen Hi.
  assert (Hstep : forall t,
            currentData env p t = currentData env p s ->
            step env p t (SelectItem i)
            = Some (handleSelectItem (id item)
                      (negb (includesId (selectedItems t) (id item))) t,
                    selectionEffect p
                      (handleSelectItem (id item)
                         (negb (includesId (selectedItems t) (id item))) t))).
  { intros t Ht. unfold step. rewrite Ht, Hi. cbn [mbind option_bind].
    rewrite Hen. reflexivity. }
  eexists. split; [apply (Hstep s); reflexivity|].
  unfold handleSelectItem.
  destruct (includesId (selectedItems s) (id item)) eqn:Hinc; cbn [negb].
  - apply includesId_true in Hinc. cbn [selectedItems setSelectedItems].
    refine (conj _ (conj _ (conj eq_refl (conj eq_refl _)))).
    + rewrite filter_In, negb_true_iff, String.eqb_neq. tauto.
    + intros x Hx. rewrite filter_In, negb_true_iff, String.eqb_neq. tauto.
    + intros Hn. contradiction.
  - assert (Hn : ~ In (id item) (selectedItems s))
      by (rewrite <- includesId_true, Hinc; discriminate).
    cbn [selectedItems setSelectedItems].
    refine (conj _ (conj _ (conj eq_refl (conj eq_refl _)))).
    + rewrite in_app_iff. cbn. tauto.
    + intros x Hx. rewrite in_app_iff. cbn. split; [|tauto].
      intros [H|[H|[]]]; [exact H | congruence].
    + intros _. eexists. split; [apply Hstep; reflexivity|].
      cbn [selectedItems setSelectedItems].
      assert (Hinc' : includesId (selectedItems s ++ [id item]) (id item)
                      = true).
      { apply includesId_true, in_app_iff. right. left. reflexivity. }
      rewrite Hinc'. cbn [negb]. unfold handleSelectItem.
      cbn [selectedItems setSelectedItems].
      apply deselect_fresh, Hn.
Qed.

Lemma row_checkbox_toggles_witness :
  exists s1,
    step Host.env Ex.pairProps (initialState Ex.four) (SelectItem 1)
    = Some (s1, selectionEffect Ex.pairProps s1)
    /\ (In "2" (selectedItems s1)
        <-> ~ In "2" (selectedItems (initialState Ex.four))).
Proof.
  destruct (row_checkbox_toggles Host.env Ex.pairProps (initialState Ex.four)
              1%nat (Ex.named "2" "Bob") eq_refl eq_refl)
    as (s1 & H1 & H2 & _).
  exists s1. split; assumption.
Defined.

(** X9: the selection never holds an id twice.  From a state whose rows
    have distinct ids and whose selection has no duplicate, every event
    leads to a selection without duplicates. *)
Theorem selection_has_no_duplicates (env : Env) (p : Props) (s s' : State)
  (e : Event) (calls : list Call) :
  step env p s e = Some (s', calls) ->
  NoDup (map id (localData s)) ->
  NoDup (selectedItems s) ->
  NoDup (selectedItems s').
Proof.
  intros H Hrows Hsel.
  destruct e; step_inv H;
    try (inversion H; subst; exact Hsel).
  - inversion H; subst. unfold handleSort. repeat case_match; exact Hsel.
  - inversion H; subst. unfold handleSelectAll.
    destruct (negb (headerChecked env p s)); cbn.
    + apply currentData_ids_NoDup, Hrows.
    + constructor.
  - inversion H; subst. unfold handleSelectItem.
    destruct (includesId (selectedItems s) (id r)) eqn:Hinc; cbn.
    + eapply sublist_NoDup; [exact Hsel | apply List_filter_sublist].
    + apply NoDup_app. repeat split.
      * exact Hsel.
      * intros x Hx Hx'. apply list_elem_of_In in Hx.
        apply list_elem_of_singleton in Hx'. subst x.
        apply includesId_true in Hx. congruence.
      * apply NoDup_singleton.
  - inversion H; subst. constructor.
  - pose proof (step_confirm_fst env p s s' calls) as Hfst.
    assert (Hs : s' = fst (confirmDelete p s)).
    { destruct (confirmDelete p s) as [s1 c1].
      destruct (String.eqb (itemId (deleteConfirm s)) "bulk");
        inversion H; reflexivity. }
    rewrite Hs. unfold confirmDelete. cbn [fst].
    repeat case_match; cbn; first [exact Hsel | constructor].
Qed.

Lemma selection_has_no_duplicates_witness :
  match step Host.env Ex.pairProps (initialState Ex.four) SelectAll with
  | Some (s', _) => NoDup (selectedItems s') /\ selectedItems s' = ["1"; "2"]
  | None => False
  end.
Proof.
  destruct (step Host.env Ex.pairProps (initialState Ex.four) SelectAll)
    as [[s' calls]|] eqn:E; [|vm_compute in E; discriminate E].
  split.
  - apply (selection_has_no_duplicates Host.env Ex.pairProps
             (initialState Ex.four) s' SelectAll calls E).
    + apply (bool_decide_unpack _). vm_compute. exact I.
    + constructor.
  - vm_compute in E. injection E as <- _. reflexivity.
Defined.

(** ** A saved edit *)

Lemma map_replace_absent (u : Row) (l : list Row) :
  ~ In (id u) (map id l) ->
  map (fun item => if String.eqb (id item) (id u) then u else item) l = l.
Proof.
  induction l as [|x r IH]; intros Hn; cbn; [reflexivity|].
  cbn in Hn. destruct (String.eqb_spec (id x) (id u)) as [He|Hne].
  - exfalso. apply Hn. left. exact He.
  - f_equal. apply IH. tauto.
Qed.

(** X10: a saved edit replaces rows in place.  The table keeps as many rows
    as before, with the same ids at the same positions; the row at a
    position is the saved record if it had the id of the saved record and
    is untouched otherwise; the modal is closed; [onDataChange] is invoked
    with the new rows and then [onItemEdit] with the saved record.  When no
    row has the id of the saved record, the rows are left exactly as they
    were, and both collaborators are invoked all the same. *)
Theorem saved_edit_replaces_in_place (p : Props) (u : Row) (s : State) :
  let s' := fst (handleModalSave p u s) in
  let calls := snd (handleModalSave p u s) in
  length (localData s') = length (localData s)
  /\ map id (localData s') = map id (localData s)
  /\ (forall i r,
        localData s !! i = Some r ->
        localData s' !! i
        = Some (if String.eqb (id r) (id u) then u else r))
  /\ (~ In (id u) (map id (localData s)) -> localData s' = localData s)
  /\ editModalOpen s' = false
  /\ selectedItem s' = None
  /\ calls = optCall (has_onDataChange p) (onDataChange (localData s'))
             ++ optCall (has_onItemEdit p) (onItemEdit u).
Proof.
  cbn. repeat apply conj; try reflexivity.
  - apply length_map.
  - apply modalSave_keeps_ids.
  - intros i r Hr.
    change (map ?f ?l) with (f <$> l). rewrite list_lookup_fmap, Hr.
    reflexivity.
  - apply map_replace_absent.
Qed.

(** ** A row whose id is "bulk" *)

(** X11: the id "bulk" is taken for the bulk delete.  When the delete of a
    row whose id is "bulk" is requested and confirmed, the rows removed are
    those whose ids are selected, [onItemDelete] is invoked for the selected
    ids, and the selection is emptied; if the id "bulk" is not selected, the
    row itself stays in the table. *)
Theorem row_named_bulk_is_not_deleted (env : Env) (p : Props) (s : State)
  (item : Row) :
  id item = "bulk" ->
  has_onItemDelete p = true ->
  let pending := handleDelete env item s in
  let s' := fst (confirmDelete p pending) in
  let calls := snd (confirmDelete p pending) in
  localData s'
  = List.filter (fun r => negb (includesId (selectedItems s) (id r)))
                (localData s)
  /\ deleteNotifications calls = selectedItems s
  /\ selectedItems s' = []
  /\ (In item (localData s) -> ~ In "bulk" (selectedItems s) ->
      In item (localData s')).
Proof.
  intros Hid Hd pending s' calls.
  assert (Hp : itemId (deleteConfirm pending) = "bulk")
    by (subst pending; cbn; exact Hid).
  destruct (confirmDelete_query p pending) as (_ & _ & Hl).
  destruct (confirmDelete_calls p pending) as [_ Hc].
  rewrite Hp in Hl, Hc.
  change (String.eqb "bulk" "bulk") with true in Hl, Hc.
  change (selectedItems pending) with (selectedItems s) in Hl, Hc.
  change (localData pending) with (localData s) in Hl.
  cbv iota in Hl, Hc.
  subst s' calls. repeat apply conj.
  - exact Hl.
  - apply Hc, Hd.
  - unfold confirmDelete. rewrite Hp.
    change (String.eqb "bulk" "bulk") with true. cbv iota. cbn [fst].
    destruct (_ && _); reflexivity.
  - intros Hin Hns. rewrite Hl. apply bulk_filter_In.
    split; [exact Hin | rewrite Hid; exact Hns].
Qed.

Lemma row_named_bulk_is_not_deleted_witness :
  let s := setSelectedItems ["1"] (initialState Ex.withBulk) in
  let pending := handleDelete Host.env (Ex.named "bulk" "Bulk order") s in
  map id (localData (fst (confirmDelete Ex.props pending))) = ["bulk"; "2"]
  /\ deleteNotifications (snd (confirmDelete Ex.props pending)) = ["1"].
Proof.
  intros s pending.
  destruct (row_named_bulk_is_not_deleted Host.env Ex.props s
              (Ex.named "bulk" "Bulk order") eq_refl eq_refl)
    as (H1 & H2 & _).
  split.
  - subst pending. rewrite H1. reflexivity.
  - exact H2.
Defined.

Lemma saved_edit_replaces_in_place_witness :
  localData (fst (handleModalSave Ex.pairProps (Ex.named "9" "Zed")
                    (initialState Ex.four))) = Ex.four
  /\ localData (fst (handleModalSave Ex.pairProps (Ex.named "2" "Robert")
                       (initialState Ex.four))) !! 1%nat
     = Some (Ex.named "2" "Robert").
Proof.
  destruct (saved_edit_replaces_in_place Ex.pairProps (Ex.named "9" "Zed")
              (initialState Ex.four)) as (_ & _ & _ & H1 & _).
  destruct (saved_edit_replaces_in_place Ex.pairProps (Ex.named "2" "Robert")
              (initialState Ex.four)) as (_ & _ & H2 & _).
  split.
  - apply H1. cbn. intuition discriminate.
  - apply (H2 1%nat (Ex.named "2" "Bob")). reflexivity.
Defined.

(** ** Export *)

(** X12: exporting reads and does not write.  "Export" hands the filtered
    rows to [onExport], "Export Selected" hands it the filtered rows whose
    ids are selected, in the order they are displayed in; neither changes
    the state, and a row that the search or the filters hide is not
    exported even when its id is selected. *)
Theorem export_reads_only (env : Env) (p : Props) (s s' : State)
  (calls : list Call) :
  (step env p s Export = Some (s', calls) ->
   s' = s /\ calls = [onExport (filteredDataIn env p s)])
  /\ (step env p s ExportSelected = Some (s', calls) ->
      s' = s
      /\ exists data,
          calls = [onExport data]
          /\ data `sublist_of` filteredDataIn env p s
          /\ forall item,
              In item data
              <-> In item (filteredDataIn env p s)
                  /\ In (id item) (selectedItems s)).
Proof.
  split; intros H; step_inv H; inversion H; subst; clear H.
  - split; reflexivity.
  - split; [reflexivity|]. eexists. split; [reflexivity|]. split.
    + apply List_filter_sublist.
    + intros item. rewrite filter_In, includesId_true. reflexivity.
Qed.

Lemma export_reads_only_witness :
  let s := setSelectedItems ["1"; "2"]
             (setSearchTerm "bob" (initialState Ex.four)) in
  exists data,
    step Host.env Ex.pairProps s ExportSelected = Some (s, [onExport data])
    /\ map id data = ["2"].
Proof.
  intros s.
  destruct (step Host.env Ex.pairProps s ExportSelected)
    as [[s' calls]|] eqn:E; [|vm_compute in E; discriminate E].
  destruct (export_reads_only Host.env Ex.pairProps s s' calls) as [_ H].
  destruct (H E) as (-> & data & -> & _ & _).
  exists data. split; [reflexivity|].
  vm_compute in E. injection E as <-. reflexivity.
Defined.

(** ** Formatting amounts *)

Lemma stripCurrency_idem (s : string) :
  stripCurrency (stripCurrency s) = stripCurrency s.
Proof.
  induction s as [|c s IH]; [reflexivity|]. cbn [stripCurrency].
  destruct (Ascii.eqb c "$" || Ascii.eqb c ",")%char eqn:Hc; [exact IH|].
  cbn [stripCurrency]. rewrite Hc, IH. reflexivity.
Qed.

(** X13: formatting an amount is stable.  In a currency column a text is
    formatted like the same text without its "$" and "," characters; and,
    when the host reads the digits of a number back as that number,
    formatting the formatted text of the number gives the same text
    again. *)
Theorem currency_format_is_stable (env : Env) (col : ColumnConfig) (z : Z) :
  col_type col = ColCurrency ->
  parseFloat env (stripCurrency (numberToLocaleString env z)) = Fin z ->
  (forall s,
      formatValue env (VStr s) col
      = formatValue env (VStr (stripCurrency s)) col)
  /\ formatValue env (VNum (Fin z)) col = "$" +:+ numberToLocaleString env z
  /\ formatValue env (VStr (formatValue env (VNum (Fin z)) col)) col
     = formatValue env (VNum (Fin z)) col.
Proof.
  intros Hc Hrt. unfold formatValue. rewrite Hc. cbn [isNullish].
  repeat apply conj.
  - intros s. rewrite stripCurrency_idem. reflexivity.
  - reflexivity.
  - rewrite append_String, append_empty. cbn [stripCurrency].
    change (Ascii.eqb "$" "$" || Ascii.eqb "$" ",")%char with true.
    cbv iota. rewrite Hrt. reflexivity.
Qed.

Lemma currency_format_is_stable_witness :
  formatValue Host.env (VNum (Fin 1234567)) Ex.salaryColumn = "$1234567"
  /\ formatValue Host.env
       (VStr (formatValue Host.env (VNum (Fin 1234567)) Ex.salaryColumn))
       Ex.salaryColumn
     = "$1234567"
  /\ formatValue Host.env (VStr "$1,234,567") Ex.salaryColumn = "$1234567".
Proof.
  destruct (currency_format_is_stable Host.env Ex.salaryColumn 1234567
              eq_refl eq_refl) as (H1 & H2 & H3).
  repeat apply conj.
  - rewrite H2. reflexivity.
  - rewrite H3, H2. reflexivity.
  - rewrite H1. reflexivity.
Defined.

(** * Further properties of the edit modal *)

(** ** What the error mapping holds *)

Lemma append_nonempty (a b : string) : b <> "" -> a +:+ b <> "".
Proof.
  intros Hb. destruct a; [exact Hb|]. rewrite append_String. discriminate.
Qed.

Lemma wellKeyed_mono keys keys' r :
  (forall k, In k keys -> In k keys') -> wellKeyed keys r -> wellKeyed keys' r.
Proof.
  intros Hsub Hr k msg Hk. destruct (Hr k msg Hk) as [H1 H2]. auto.
Qed.

Lemma wellKeyed_setError keys key message r :
  message <> "" -> In key keys -> wellKeyed keys r ->
  wellKeyed keys (setError key message r).
Proof.
  intros Hm Hin Hr k msg. unfold setError. cbn.
  destruct (decide (key = k)) as [->|Hne].
  - rewrite lookup_insert_eq. intros [= <-]. auto.
  - rewrite lookup_insert_ne by exact Hne. apply Hr.
Qed.

Lemma wellKeyed_testRule keys key rule fails message r :
  (fails = true -> message <> "") -> In key keys -> wellKeyed keys r ->
  wellKeyed keys (testRule key rule fails message r).
Proof.
  intros Hm Hin Hr. unfold testRule. destruct fails.
  - apply wellKeyed_setError; auto.
  - intros k msg Hk. apply (Hr k msg Hk).
Qed.

(** The rules of a field store messages that are not empty, under its
    key. *)
Ltac wellKeyed_rules Hin Hr :=
  repeat match goal with
    | |- wellKeyed _ (match ?x with _ => _ end) => destruct x
    | |- wellKeyed _ (testRule _ _ _ _ _) =>
        apply wellKeyed_testRule;
        [ first [ intros _; apply append_nonempty; try rewrite append_String;
                  discriminate
                | intros H; apply negb_true_iff in H;
                  apply String.eqb_neq in H; exact H
                | intros H; discriminate H ]
        | exact Hin | ]
    end;
  exact Hr.

Lemma wellKeyed_stringRules env keys config s validation r r' :
  stringRules env config s validation r = Some r' ->
  In (field_key config) keys -> wellKeyed keys r -> wellKeyed keys r'.
Proof.
  unfold stringRules. intros Hrun Hin Hr.
  destruct (truthyPattern (pattern validation)) as [pat|];
    [destruct (newRegExp env pat) as [test|]; [|discriminate]|];
    injection Hrun as <-; wellKeyed_rules Hin Hr.
Qed.

Lemma wellKeyed_numberRules keys config n validation r :
  In (field_key config) keys -> wellKeyed keys r ->
  wellKeyed keys (numberRules config n validation r).
Proof. intros Hin Hr. unfold numberRules. wellKeyed_rules Hin Hr. Qed.

Lemma wellKeyed_customRule keys config v validation r :
  In (field_key config) keys -> wellKeyed keys r ->
  wellKeyed keys (customRule config v validation r).
Proof. intros Hin Hr. unfold customRule. wellKeyed_rules Hin Hr. Qed.

Lemma wellKeyed_applyValidation env keys config v validation r r' :
  applyValidation env config v validation r = Some r' ->
  In (field_key config) keys -> wellKeyed keys r -> wellKeyed keys r'.
Proof.
  unfold applyValidation. intros Hrun Hin Hr.
  destruct v; cbn in Hrun;
    try (injection Hrun as <-; apply wellKeyed_customRule; [exact Hin|];
         try apply wellKeyed_numberRules; assumption).
  destruct (stringRules env config s validation r) as [r1|] eqn:Hs;
    [|discriminate].
  injection Hrun as <-. apply wellKeyed_customRule; [exact Hin|].
  apply (wellKeyed_stringRules env keys config s validation r r1 Hs Hin Hr).
Qed.

Lemma wellKeyed_validateField env keys data r r' config :
  validateField env data r config = Some r' ->
  In (field_key config) keys -> wellKeyed keys r -> wellKeyed keys r'.
Proof.
  unfold validateField. intros Hrun Hin Hr.
  destruct (field_required config && _).
  - injection Hrun as <-. apply wellKeyed_setError; [|exact Hin|exact Hr].
    apply append_nonempty. discriminate.
  - destruct (negb _); [injection Hrun as <-; exact Hr|].
    destruct (field_validation config); [|injection Hrun as <-; exact Hr].
    apply (wellKeyed_applyValidation _ _ _ _ _ _ _ Hrun Hin Hr).
Qed.

Lemma wellKeyed_validateFields env fieldConfigs data report :
  validateFields env fieldConfigs data = Some report ->
  wellKeyed (map field_key fieldConfigs) report.
Proof.
  intros Hrun.
  refine (forEach_invariant (wellKeyed (map field_key fieldConfigs))
            (validateField env data) fieldConfigs _ emptyReport report _ Hrun).
  - intros r c r' Hc Hr Hc'.
    apply (wellKeyed_validateField env _ data r r' c Hc'); [|exact Hr].
    apply in_map. exact Hc.
  - intros k msg Hk. cbn in Hk. rewrite lookup_empty in Hk. discriminate.
Qed.

(** X14: the error mapping of a validation pass that comes to its end
    holds only messages that are not empty, each under the key of one of
    the validated fields; so no field without a specification ever blocks a
    save, and a field shows an error exactly when its key has an entry. *)
Theorem errors_belong_to_fields (env : Env)
  (fieldConfigs : list FormFieldConfig) (data : Row) (report : Report)
  (k msg : string) :
  validateFields env fieldConfigs data = Some report ->
  newErrors report !! k = Some msg ->
  msg <> "" /\ In k (map field_key fieldConfigs).
Proof.
  intros Hrun. apply (wellKeyed_validateFields env fieldConfigs data report Hrun).
Qed.

Lemma errors_belong_to_fields_witness :
  "Spouse is required" <> ""
  /\ In "spouse" (map field_key [Ex.spouseField; Ex.maidenNameField]).
Proof.
  apply (errors_belong_to_fields Host.env [Ex.spouseField; Ex.maidenNameField]
           Ex.single
           (mkReport
              {[ "spouse" := "Spouse is required";
                 "maidenName" := "Maiden name must be at least 3 characters" ]}
              [("maidenName", RuleMinLength)])
           "spouse" "Spouse is required").
  - reflexivity.
  - reflexivity.
Defined.

(** ** Which message a field gets *)

(** X15: when several rules of a field fail, the last one tested leaves
    its message.  For a field with rules whose value is present and passes
    the required check: the field throws exactly when the value is a text
    and the pattern is malformed; when it does not throw and the custom
    predicate returns a message, that message is the entry of the field,
    whatever the length, pattern and range rules found; and for a text
    without a custom predicate, a well-formed pattern that does not match
    leaves "<label> format is invalid", whatever the length rules found. *)
Theorem last_failing_rule_wins (env : Env) (data : Row) (r : Report)
  (config : FormFieldConfig) (validation : ValidationConfig) :
  field_validation config = Some validation ->
  truthy (getField data (field_key config)) = true ->
  field_required config
  && requiredFails env (getField data (field_key config)) = false ->
  (validateField env data r config = None
   <-> exists s pat,
         getField data (field_key config) = VStr s
         /\ truthyPattern (pattern validation) = Some pat
         /\ newRegExp env pat = None)
  /\ (forall f m r',
        custom validation = Some f ->
        f (getField data (field_key config)) = Some m -> m <> "" ->
        validateField env data r config = Some r' ->
        newErrors r' !! field_key config = Some m)
  /\ (forall s pat test,
        custom validation = None ->
        getField data (field_key config) = VStr s ->
        truthyPattern (pattern validation) = Some pat ->
        newRegExp env pat = Some test ->
        test s = false ->
        exists r',
          validateField env data r config = Some r'
          /\ newErrors r' !! field_key config
             = Some (field_label config +:+ " format is invalid")).
Proof.
  intros Hv Ht Hreq. unfold validateField. rewrite Hreq, Ht, Hv. cbn [negb].
  unfold applyValidation. split; [|split].
  - destruct (getField data (field_key config)) as [| | | |s| | |];
      try (split; [discriminate | intros (s0 & pat & Hs & _); discriminate]).
    unfold stringRules.
    destruct (truthyPattern (pattern validation)) as [pat|].
    + destruct (newRegExp env pat) as [test|] eqn:Hre.
      * split; [discriminate|].
        intros (s0 & pat0 & _ & [= <-] & Hnone). congruence.
      * split; [|reflexivity]. intros _. exists s, pat. auto.
    + split; [discriminate|]. intros (s0 & pat0 & _ & Hp & _). discriminate.
  - intros f m r' Hf Hm Hne Hrun.
    destruct (match getField data (field_key config) with
              | VStr s => stringRules env config s validation r
              | _ => Some r
              end) as [r1|]; [|discriminate].
    injection Hrun as <-. unfold customRule. rewrite Hf, Hm.
    apply String.eqb_neq in Hne. unfold testRule. rewrite Hne. cbn.
    apply lookup_insert_eq.
  - intros s pat test Hc Hs Hp Hre Hfail. rewrite Hs.
    unfold stringRules. rewrite Hp, Hre, Hfail. cbn [negb].
    eexists. split; [reflexivity|].
    unfold customRule. rewrite Hc.
    unfold testRule at 1. cbn. apply lookup_insert_eq.
Qed.

Lemma last_failing_rule_wins_witness :
  (exists r',
      validateField Host.env Ex.shortEmail emptyReport Ex.emailField = Some r'
      /\ tested r' = [("email", RuleMinLength); ("email", RulePattern);
                      ("email", RuleCustom)]
      /\ newErrors r' !! "email" = Some "Not accepted")
  /\ validateField Host.env Ex.blankEmail emptyReport Ex.brokenField = None.
Proof.
  split.
  - eexists. split; [reflexivity|]. split; [reflexivity|].
    destruct (last_failing_rule_wins Host.env Ex.shortEmail emptyReport
                Ex.emailField Ex.emailRules eq_refl eq_refl eq_refl)
      as (_ & H & _).
    apply (H (fun _ => Some "Not accepted") "Not accepted");
      [reflexivity | reflexivity | discriminate | reflexivity].
  - destruct (last_failing_rule_wins Host.env Ex.blankEmail emptyReport
                Ex.brokenField
                (mkValidation None None None None (Some "(") None)
                eq_refl eq_refl eq_refl)
      as (H & _).
    apply H. exists "x1", "(". repeat apply conj; reflexivity.
Defined.

(** ** A save that goes through *)

(** X16: a form none of whose fields fails is saved.  When every required
    field holds a value that is present and not blank, and every field with
    rules is empty, or has no rules at all, the validation pass leaves no
    error, the errors of the modal are emptied, and [onSave] is invoked
    once, with the record in which the uploads are merged. *)
Theorem clean_form_is_saved (env : Env) (fieldConfigs : list FormFieldConfig)
  (data : Row) (errs : gmap string string)
  (files : gmap string (list string)) :
  (forall c, In c fieldConfigs ->
             (field_required c = false
              \/ requiredFails env (getField data (field_key c)) = false)
             /\ (truthy (getField data (field_key c)) = false
                 \/ field_validation c = None)) ->
  validateFields env fieldConfigs data = Some emptyReport
  /\ handleSave env fieldConfigs (mkModal (Some data) errs files)
     = (mkModal (Some data) ∅ files, [finalDataOf data files]).
Proof.
  intros Hall.
  assert (Hr : forall fcs r,
            (forall c, In c fcs -> In c fieldConfigs) ->
            forEach (validateField env data) r fcs = Some r).
  { induction fcs as [|c fcs IH]; intros r Hsub; cbn [forEach];
      [reflexivity|].
    destruct (Hall c (Hsub c (or_introl eq_refl))) as [Hreq Hval].
    assert (Hc : validateField env data r c = Some r).
    { unfold validateField.
      assert (Hrq : field_required c
                    && requiredFails env (getField data (field_key c))
                    = false).
      { destruct Hreq as [->| ->]; [reflexivity | apply andb_false_r]. }
      rewrite Hrq.
      destruct Hval as [->| ->]; [reflexivity|].
      destruct (negb _); reflexivity. }
    rewrite Hc. apply IH. intros c' Hc'. apply Hsub. right. exact Hc'. }
  assert (Hrun : validateFields env fieldConfigs data = Some emptyReport)
    by (apply Hr; auto).
  split; [exact Hrun|].
  unfold handleSave, validateForm. cbn [formData uploadedFiles].
  rewrite Hrun. reflexivity.
Qed.

Lemma clean_form_is_saved_witness :
  handleSave Host.env [Ex.nameField; Ex.spouseField]
             (mkModal (Some Ex.married) {[ "name" := "Name is required" ]} ∅)
  = (mkModal (Some Ex.married) ∅ ∅, [finalDataOf Ex.married ∅]).
Proof.
  apply (clean_form_is_saved Host.env [Ex.nameField; Ex.spouseField]
           Ex.married).
  intros c [<-|[<-|[]]]; split; auto.
Defined.

(** ** Values that count as missing *)

(** X17: for the required check the number 0, NaN, [false] and the empty
    text are missing values.  A required field that holds one of them gets
    "<label> is required", none of its rules is tested, and the save is
    refused: [onSave] is not invoked.  When the pass over the fields comes
    to its end, the key of the field has an entry in the error mapping,
    and the entry is that message unless a later field has the same key. *)
Theorem falsy_required_value_is_missing (env : Env)
  (before after : list FormFieldConfig) (config : FormFieldConfig)
  (data : Row) (errs : gmap string string)
  (files : gmap string (list string)) :
  field_required config = true ->
  truthy (getField data (field_key config)) = false ->
  let message := field_label config +:+ " is required" in
  (truthy (VNum (Fin 0)) = false /\ truthy (VNum NaN) = false
   /\ truthy (VBool false) = false /\ truthy (VStr "") = false)
  /\ (forall r,
        validateField env data r config
        = Some (mkReport (<[field_key config := message]> (newErrors r))
                         (tested r)))
  /\ snd (handleSave env (before ++ config :: after)
                     (mkModal (Some data) errs files)) = []
  /\ (forall report,
        validateFields env (before ++ config :: after) data = Some report ->
        is_Some (newErrors report !! field_key config)
        /\ ((forall c, In c after -> field_key c <> field_key config) ->
            newErrors report !! field_key config = Some message)).
Proof.
  intros Hreq Hv message.
  assert (Hfails :
            requiredFails env (getField data (field_key config)) = true)
    by (unfold requiredFails; rewrite Hv; reflexivity).
  destruct (required_field_refuses env before after config data errs files
              Hreq Hfails) as (Hfield & Hsave & Hreport & _).
  split; [repeat apply conj; reflexivity|].
  split; [exact Hfield|]. split; [exact Hsave|].
  intros report Hrun. destruct (Hreport report Hrun) as (H1 & H2 & _).
  split; assumption.
Qed.

Lemma falsy_required_value_is_missing_witness :
  validateField Host.env Ex.newborn emptyReport Ex.ageField
  = Some (mkReport {[ "age" := "Age is required" ]} [])
  /\ snd (handleSave Host.env [Ex.ageField]
                     (mkModal (Some Ex.newborn) ∅ ∅)) = [].
Proof.
  destruct (falsy_required_value_is_missing Host.env [] [] Ex.ageField
              Ex.newborn ∅ ∅) as (_ & H1 & H2 & _).
  - reflexivity.
  - reflexivity.
  - split; [apply (H1 emptyReport) | exact H2].
Defined.

(** ** Editing a field *)

Lemma getField_setField key v item k :
  key <> "id" ->
  getField (setField key v item) k
  = if String.eqb key k then v else getField item k.
Proof.
  intros Hid. unfold setField, getField.
  apply String.eqb_neq in Hid. rewrite Hid. cbn [id fields].
  destruct (String.eqb_spec key k) as [->|Hne].
  - rewrite Hid, lookup_insert_eq. reflexivity.
  - destruct (String.eqb k "id"); [reflexivity|].
    rewrite lookup_insert_ne by exact Hne. reflexivity.
Qed.

(** X18: an edit of a field stores the value and clears the error of that
    field only.  After [handleInputChange(key, value)] on an open form, for
    a key other than "id": the record holds under [key] the value, passed
    through the [transform] of the first field with that key if it has one,
    and every other field of the record is as before; the error of [key],
    a message that is not empty, is gone, the errors of the other keys
    stay, the uploads stay.  So after a save whose validation pass came
    to its end, editing a field removes its message and no other; a save
    whose pass throws leaves the state as it was.  Without an open form
    nothing happens. *)
Theorem edit_clears_own_error (env : Env)
  (fieldConfigs : list FormFieldConfig) (key : string) (v : value)
  (m : ModalState) (data : Row) :
  formData m = Some data ->
  key <> "id" ->
  let m' := handleInputChange fieldConfigs key v m in
  let stored :=
    match Array_find (fun c => String.eqb (field_key c) key) fieldConfigs with
    | Some c => match transform c with Some f => f v | None => v end
    | None => v
    end in
  (exists data',
      formData m' = Some data'
      /\ getField data' key = stored
      /\ forall k, k <> key -> getField data' k = getField data k)
  /\ (errors m !! key <> Some "" -> errors m' !! key = None)
  /\ (forall k, k <> key -> errors m' !! k = errors m !! k)
  /\ uploadedFiles m' = uploadedFiles m
  /\ (forall report,
        validateFields env fieldConfigs data = Some report ->
        errors (handleInputChange fieldConfigs key v
                  (fst (handleSave env fieldConfigs m))) !! key = None)
  /\ (validateFields env fieldConfigs data = None ->
      fst (handleSave env fieldConfigs m) = m)
  /\ handleInputChange fieldConfigs key v
       (mkModal None (errors m) (uploadedFiles m))
     = mkModal None (errors m) (uploadedFiles m).
Proof.
  intros Hd Hid m' stored.
  assert (Herr : forall e : gmap string string,
            (e !! key <> Some "" ->
             match e !! key with
             | Some x => if String.eqb x "" then e else delete key e
             | None => e
             end !! key = None)
            /\ (forall k, k <> key ->
                match e !! key with
                | Some x => if String.eqb x "" then e else delete key e
                | None => e
                end !! k = e !! k)).
  { intros e. destruct (e !! key) as [x|] eqn:He.
    - destruct (String.eqb_spec x "") as [->|Hne].
      + split; [congruence | reflexivity].
      + split; [intros _; apply lookup_delete_eq|].
        intros k Hk. apply lookup_delete_ne. congruence.
    - split; [intros _; exact He | reflexivity]. }
  subst m' stored. unfold handleInputChange. rewrite Hd.
  cbn [formData errors uploadedFiles].
  repeat apply conj.
  - eexists. split; [reflexivity|].
    destruct (Array_find _ fieldConfigs) as [c|];
      [destruct (transform c) as [f|]|];
      rewrite ?getField_setField by exact Hid;
      rewrite ?String.eqb_refl;
      (split; [reflexivity|]);
      intros k Hk; rewrite ?getField_setField by exact Hid;
      apply not_eq_sym, String.eqb_neq in Hk; rewrite ?Hk; reflexivity.
  - apply Herr.
  - apply Herr.
  - reflexivity.
  - intros report Hrun. unfold handleSave, validateForm. rewrite Hd, Hrun.
    destruct (bool_decide _); cbn [fst formData errors];
      apply Herr; intros He;
      apply (wellKeyed_validateFields env fieldConfigs data report Hrun) in He;
      destruct He as [He _]; apply He; reflexivity.
  - intros Hrun. unfold handleSave, validateForm. rewrite Hd, Hrun.
    reflexivity.
  - reflexivity.
Qed.

Lemma edit_clears_own_error_witness :
  let m := mkModal (Some Ex.newborn)
             {[ "email" := "Email is required"; "age" := "Age is required" ]}
             ∅ in
  errors (handleInputChange [Ex.emailField; Ex.ageField] "email"
            (VStr "a@b.example") m) !! "email" = None
  /\ errors (handleInputChange [Ex.emailField; Ex.ageField] "email"
               (VStr "a@b.example") m) !! "age" = Some "Age is required".
Proof.
  intros m.
  destruct (edit_clears_own_error Host.env [Ex.emailField; Ex.ageField]
              "email" (VStr "a@b.example") m Ex.newborn eq_refl)
    as (_ & H1 & H2 & _).
  - discriminate.
  - split.
    + apply H1. vm_compute. discriminate.
    + rewrite H2 by discriminate. vm_compute. reflexivity.
Defined.

(** ** The record that is saved *)

Lemma mergeUploads_getField (data : Row) (l : list (string * list string))
  (k : string) :
  k <> "id" ->
  NoDup (l.*1) ->
  getField
    (foldr (fun '(key, names) acc =>
              if bool_decide (length names = 0%nat) then acc
              else setField key (VArr (VFile <$> names)) acc)
           data l) k
  = match (list_to_map l : gmap string (list string)) !! k with
    | Some (name :: names) => VArr (VFile <$> (name :: names))
    | _ => getField data k
    end.
Proof.
  intros Hk. induction l as [|[key names] l IH]; intros Hnd.
  - cbn. rewrite lookup_empty. reflexivity.
  - cbn [fmap list_fmap fst] in Hnd. apply NoDup_cons in Hnd as [Hfresh Hnd].
    specialize (IH Hnd). cbn [foldr list_to_map].
    destruct (decide (key = k)) as [->|Hne].
    + rewrite lookup_insert_eq.
      apply not_elem_of_list_to_map_1 in Hfresh.
      rewrite Hfresh in IH.
      destruct names as [|name names]; cbn [length].
      * rewrite bool_decide_eq_true_2 by reflexivity. exact IH.
      * rewrite bool_decide_eq_false_2 by discriminate.
        rewrite getField_setField by exact Hk.
        rewrite String.eqb_refl. reflexivity.
    + rewrite lookup_insert_ne by exact Hne.
      destruct (bool_decide (length names = 0%nat)); [exact IH|].
      destruct (String.eqb_spec key "id") as [->|Hid].
      * unfold setField. cbn. exact IH.
      * rewrite getField_setField by exact Hid.
        apply String.eqb_neq in Hne. rewrite Hne. exact IH.
Qed.

(** X19: the uploads are merged into the record that is saved, field by
    field.  For a key other than "id": if files were uploaded for the key,
    the saved record holds them, in their order, in place of the value of
    the field; if none were, or if their list is empty, the saved record
    holds the value the form has. *)
Theorem uploads_replace_fields (data : Row)
  (files : gmap string (list string)) (k : string) :
  k <> "id" ->
  getField (finalDataOf data files) k
  = match files !! k with
    | Some (name :: names) => VArr (VFile <$> (name :: names))
    | Some [] | None => getField data k
    end.
Proof.
  intros Hk. unfold finalDataOf.
  rewrite (mergeUploads_getField data (map_to_list files) k Hk
             (NoDup_fst_map_to_list files)).
  rewrite list_to_map_to_list.
  destruct (files !! k) as [[|name names]|]; reflexivity.
Qed.

Lemma uploads_replace_fields_witness :
  getField (finalDataOf Ex.married {[ "photo" := ["a.png"; "b.png"] ]})
           "photo"
  = VArr [VFile "a.png"; VFile "b.png"]
  /\ getField (finalDataOf Ex.married {[ "photo" := ["a.png"; "b.png"] ]})
              "name"
     = VStr "Dana".
Proof.
  split.
  - rewrite (uploads_replace_fields Ex.married
               {[ "photo" := ["a.png"; "b.png"] ]} "photo")
      by discriminate.
    reflexivity.
  - rewrite (uploads_replace_fields Ex.married
               {[ "photo" := ["a.png"; "b.png"] ]} "name")
      by discriminate.
    reflexivity.
Defined.

(** ** Uploads and their previews *)

Lemma take_take_app {A} (n : nat) (l l' : list A) :
  take n (take n l ++ l') = take n (l ++ l').
Proof.
  destruct (Nat.le_gt_cases (length l) n) as [Hle|Hgt].
  - rewrite (take_ge l n Hle). reflexivity.
  - rewrite (take_app_le l l' n) by lia.
    rewrite take_app_le by (rewrite length_take; lia).
    rewrite take_take, Nat.min_id. reflexivity.
Qed.

Lemma addPreviews_browser key fs : forall pv b,
  snd (foldl (Uploads.addPreview key) (pv, b) fs)
  = Uploads.mkBrowser
      (Uploads.nextUrl b + length fs)
      (Uploads.live b ++ seq (Uploads.nextUrl b) (length fs)).
Proof.
  induction fs as [|f fs IH]; intros pv b; cbn [foldl length seq].
  - destruct b. cbn. rewrite Nat.add_0_r, app_nil_r. reflexivity.
  - unfold Uploads.addPreview at 2. cbn [fst snd Uploads.createObjectURL].
    rewrite IH. cbn. f_equal; [lia|].
    rewrite <- app_assoc. reflexivity.
Qed.

Lemma addPreviews_other key fs k : forall pv b,
  key <> k ->
  fst (foldl (Uploads.addPreview key) (pv, b) fs) !! k = pv !! k.
Proof.
  induction fs as [|f fs IH]; intros pv b Hne; cbn [foldl]; [reflexivity|].
  unfold Uploads.addPreview at 2. cbn [fst snd Uploads.createObjectURL].
  rewrite IH by exact Hne. apply lookup_insert_ne. exact Hne.
Qed.

Lemma addPreviews_key key fs : forall pv b,
  fs <> [] ->
  fst (foldl (Uploads.addPreview key) (pv, b) fs) !! key
  = Some (take 5 (default [] (pv !! key)
                  ++ seq (Uploads.nextUrl b) (length fs))).
Proof.
  induction fs as [|f fs IH]; intros pv b Hne; [contradiction|].
  cbn [foldl]. unfold Uploads.addPreview at 2.
  cbn [fst snd Uploads.createObjectURL].
  destruct fs as [|g fs].
  - cbn. rewrite lookup_insert_eq. reflexivity.
  - rewrite IH by discriminate. rewrite lookup_insert_eq.
    change (default [] (Some ?x)) with x.
    cbn [Uploads.nextUrl]. f_equal.
    rewrite take_take_app, <- app_assoc. reflexivity.
Qed.

(** What an upload does to the previews of its field. *)
Lemma addPreviews_previews key fs pv b :
  (length (default [] (pv !! key)) <= 5)%nat ->
  default [] (fst (foldl (Uploads.addPreview key) (pv, b) fs) !! key)
  = take 5 (default [] (pv !! key) ++ seq (Uploads.nextUrl b) (length fs)).
Proof.
  intros Hlen. destruct fs as [|f fs].
  - cbn. rewrite app_nil_r, take_ge by exact Hlen. reflexivity.
  - rewrite addPreviews_key by discriminate. reflexivity.
Qed.

(** The map of the previews after an upload of at least one file. *)
Lemma addPreviews_map key fs pv b :
  fs <> [] ->
  fst (foldl (Uploads.addPreview key) (pv, b) fs)
  = <[key := take 5 (default [] (pv !! key)
                     ++ seq (Uploads.nextUrl b) (length fs))]> pv.
Proof.
  intros Hne. apply map_eq. intros k.
  destruct (decide (key = k)) as [<-|Hk].
  - rewrite addPreviews_key by exact Hne. rewrite lookup_insert_eq. reflexivity.
  - rewrite addPreviews_other by exact Hk.
    rewrite lookup_insert_ne by exact Hk. reflexivity.
Qed.

(** The previews of all fields, with those of one field in front. *)
Lemma allPreviews_split (m : gmap string (list nat)) (key : string) :
  concat (snd <$> map_to_list m)
  ≡ₚ default [] (m !! key) ++ concat (snd <$> map_to_list (delete key m)).
Proof.
  destruct (m !! key) as [l|] eqn:Hk.
  - rewrite <- (insert_delete_id m key l Hk) at 1.
    rewrite map_to_list_insert by apply lookup_delete_eq.
    reflexivity.
  - rewrite delete_id by exact Hk. reflexivity.
Qed.

Lemma allPreviews_insert (m : gmap string (list nat)) (key : string) l :
  concat (snd <$> map_to_list (<[key := l]> m))
  ≡ₚ l ++ concat (snd <$> map_to_list (delete key m)).
Proof.
  rewrite <- insert_delete_eq.
  rewrite map_to_list_insert by apply lookup_delete_eq.
  reflexivity.
Qed.

Lemma shown_allPreviews st url :
  Uploads.shown st url <-> In url (Uploads.allPreviews st).
Proof.
  unfold Uploads.shown, Uploads.allPreviews, Uploads.previewsOf. split.
  - intros [key Hin].
    rewrite <- list_elem_of_In.
    rewrite (allPreviews_split _ key). apply elem_of_app. left.
    apply list_elem_of_In. exact Hin.
  - intros Hin. apply in_concat in Hin. destruct Hin as (l & Hin & Hl).
    apply list_elem_of_In, list_elem_of_fmap in Hin.
    destruct Hin as ([k l'] & -> & Hin).
    apply elem_of_map_to_list in Hin. exists k. cbn in *. rewrite Hin.
    exact Hl.
Qed.

Lemma delete_past_end {A} (l : list A) i :
  (length l <= i)%nat -> delete i l = l.
Proof.
  intros Hle. rewrite delete_take_drop, take_ge, drop_ge by lia.
  apply app_nil_r.
Qed.

Lemma revokeAll_live urls : forall b url,
  In url (Uploads.live (foldl (fun b u => Uploads.revokeObjectURL u b) b urls))
  <-> In url (Uploads.live b) /\ ~ In url urls.
Proof.
  induction urls as [|u urls IH]; intros b url; cbn [foldl].
  - cbn. tauto.
  - rewrite IH. unfold Uploads.revokeObjectURL at 1. cbn [Uploads.live].
    rewrite filter_In, negb_true_iff, Nat.eqb_neq. cbn. intuition congruence.
Qed.

Lemma revokeAll_nextUrl urls : forall b,
  Uploads.nextUrl (foldl (fun b u => Uploads.revokeObjectURL u b) b urls)
  = Uploads.nextUrl b.
Proof.
  induction urls as [|u urls IH]; intros b; cbn [foldl]; [reflexivity|].
  rewrite IH. reflexivity.
Qed.

(** *** What an upload does *)

Lemma upload_filesOf st key fs k :
  Uploads.filesOf (Uploads.handleFileUpload key (Some fs) st) k
  = if decide (key = k)
    then take 5 (Uploads.filesOf st key ++ take 5 fs)
    else Uploads.filesOf st k.
Proof.
  unfold Uploads.handleFileUpload, Uploads.filesOf at 1.
  cbn [Uploads.modal uploadedFiles].
  destruct (decide (key = k)) as [<-|Hk].
  - rewrite lookup_insert_eq. reflexivity.
  - rewrite lookup_insert_ne by exact Hk. reflexivity.
Qed.

Lemma upload_previewsOf st key fs k :
  (length (Uploads.previewsOf st key) <= 5)%nat ->
  Uploads.previewsOf (Uploads.handleFileUpload key (Some fs) st) k
  = if decide (key = k)
    then take 5 (Uploads.previewsOf st key
                 ++ seq (Uploads.nextUrl (Uploads.browser st))
                        (length (take 5 fs)))
    else Uploads.previewsOf st k.
Proof.
  intros Hlen.
  unfold Uploads.handleFileUpload, Uploads.previewsOf at 1.
  cbn [Uploads.filePreviewUrls].
  destruct (decide (key = k)) as [<-|Hk].
  - apply addPreviews_previews. exact Hlen.
  - rewrite addPreviews_other by exact Hk. reflexivity.
Qed.

Lemma upload_browser st key fs :
  Uploads.browser (Uploads.handleFileUpload key (Some fs) st)
  = Uploads.mkBrowser
      (Uploads.nextUrl (Uploads.browser st) + length (take 5 fs))
      (Uploads.live (Uploads.browser st)
       ++ seq (Uploads.nextUrl (Uploads.browser st)) (length (take 5 fs))).
Proof.
  unfold Uploads.handleFileUpload. cbn [Uploads.browser].
  apply addPreviews_browser.
Qed.

Lemma upload_allPreviews st key fs :
  (length (Uploads.previewsOf st key) <= 5)%nat ->
  Uploads.allPreviews (Uploads.handleFileUpload key (Some fs) st)
  ≡ₚ take 5 (Uploads.previewsOf st key
             ++ seq (Uploads.nextUrl (Uploads.browser st))
                    (length (take 5 fs)))
     ++ Uploads.otherPreviews key st.
Proof.
  intros Hlen.
  unfold Uploads.allPreviews, Uploads.handleFileUpload.
  cbn [Uploads.filePreviewUrls].
  destruct (take 5 fs) as [|f nf] eqn:Hnf.
  - cbn [foldl fst length seq]. rewrite app_nil_r, take_ge by exact Hlen.
    apply allPreviews_split.
  - rewrite addPreviews_map by discriminate.
    apply allPreviews_insert.
Qed.

(** *** What the removal of a file does *)

Lemma remove_filesOf st key index k :
  Uploads.filesOf (Uploads.removeFile key index st) k
  = if decide (key = k)
    then delete index (Uploads.filesOf st key)
    else Uploads.filesOf st k.
Proof.
  unfold Uploads.removeFile, Uploads.filesOf.
  cbn [Uploads.modal uploadedFiles].
  destruct (decide (key = k)) as [<-|Hk].
  - rewrite lookup_insert_eq.
    destruct (uploadedFiles (Uploads.modal st) !! key); reflexivity.
  - rewrite lookup_insert_ne by exact Hk. reflexivity.
Qed.

Lemma remove_previewsOf st key index k :
  Uploads.previewsOf (Uploads.removeFile key index st) k
  = if decide (key = k)
    then delete index (Uploads.previewsOf st key)
    else Uploads.previewsOf st k.
Proof.
  unfold Uploads.removeFile, Uploads.previewsOf at 1.
  cbn [Uploads.filePreviewUrls].
  destruct (decide (key = k)) as [<-|Hk].
  - rewrite lookup_insert_eq. reflexivity.
  - rewrite lookup_insert_ne by exact Hk. reflexivity.
Qed.

Lemma remove_allPreviews st key index :
  Uploads.allPreviews (Uploads.removeFile key index st)
  ≡ₚ delete index (Uploads.previewsOf st key) ++ Uploads.otherPreviews key st.
Proof.
  unfold Uploads.allPreviews, Uploads.removeFile.
  cbn [Uploads.filePreviewUrls]. apply allPreviews_insert.
Qed.

Lemma remove_live st key index url :
  In url (Uploads.live (Uploads.browser (Uploads.removeFile key index st)))
  <-> In url (Uploads.live (Uploads.browser st))
      /\ Uploads.previewsOf st key !! index <> Some url.
Proof.
  unfold Uploads.removeFile. cbn [Uploads.browser].
  destruct (Uploads.previewsOf st key !! index) as [u|].
  - unfold Uploads.revokeObjectURL. cbn [Uploads.live].
    rewrite filter_In, negb_true_iff, Nat.eqb_neq. intuition congruence.
  - intuition congruence.
Qed.

Lemma remove_nextUrl st key index :
  Uploads.nextUrl (Uploads.browser (Uploads.removeFile key index st))
  = Uploads.nextUrl (Uploads.browser st).
Proof.
  unfold Uploads.removeFile. cbn [Uploads.browser].
  destruct (Uploads.previewsOf st key !! index); reflexivity.
Qed.

Lemma delete_length_eq {A B} (l : list A) (k : list B) i :
  length l = length k -> length (delete i l) = length (delete i k).
Proof.
  intros Hlen. destruct (Nat.lt_ge_cases i (length l)) as [Hlt|Hge].
  - rewrite !length_delete by (apply lookup_lt_is_Some; lia). lia.
  - rewrite !delete_past_end by lia. exact Hlen.
Qed.

Lemma delete_length_le {A} (l : list A) i :
  (length (delete i l) <= length l)%nat.
Proof.
  destruct (Nat.lt_ge_cases i (length l)) as [Hlt|Hge].
  - rewrite length_delete by (apply lookup_lt_is_Some; lia). lia.
  - rewrite delete_past_end by lia. lia.
Qed.

(** *** The consistency of the state is kept *)

Lemma aligned_empty data errs b :
  Uploads.aligned (Uploads.mkState (mkModal data errs ∅) ∅ b).
Proof.
  intros key. unfold Uploads.filesOf, Uploads.previewsOf.
  cbn [Uploads.modal uploadedFiles Uploads.filePreviewUrls].
  rewrite !lookup_empty. cbn. lia.
Qed.

Lemma consistent_initial : Uploads.consistent Uploads.initial.
Proof.
  repeat apply conj.
  - apply aligned_empty.
  - unfold Uploads.allPreviews. cbn. rewrite map_to_list_empty. constructor.
  - unfold Uploads.allPreviews. cbn. rewrite map_to_list_empty.
    intros url [].
  - intros url [].
Qed.

Lemma consistent_upload st key files :
  Uploads.consistent st ->
  Uploads.consistent (Uploads.handleFileUpload key files st).
Proof.
  intros (Hal & Hnd & Hlive & Hnew).
  destruct files as [fs|]; [|repeat apply conj; assumption].
  assert (Hlen : (length (Uploads.previewsOf st key) <= 5)%nat).
  { destruct (Hal key). lia. }
  pose proof (allPreviews_split (Uploads.filePreviewUrls st) key) as Hsplit.
  fold (Uploads.allPreviews st) in Hsplit.
  fold (Uploads.previewsOf st key) in Hsplit.
  repeat apply conj.
  - intros k. rewrite upload_filesOf, upload_previewsOf by exact Hlen.
    destruct (decide (key = k)) as [<-|Hk]; [|apply Hal].
    destruct (Hal key) as [Heq Hle].
    rewrite !length_take, !length_app, length_seq, length_take. lia.
  - rewrite (upload_allPreviews _ _ _ Hlen).
    apply sublist_NoDup with
      ((Uploads.previewsOf st key
        ++ seq (Uploads.nextUrl (Uploads.browser st)) (length (take 5 fs)))
       ++ Uploads.otherPreviews key st).
    2:{ apply sublist_app; [apply sublist_take | reflexivity]. }
    rewrite <- app_assoc.
    rewrite (Permutation_app_comm (seq _ _)), app_assoc, <- Hsplit.
    apply NoDup_app. split; [exact Hnd|]. split; [|apply NoDup_seq].
    intros u Hu Hs. apply elem_of_seq in Hs.
    apply list_elem_of_In, Hlive, Hnew in Hu. lia.
  - intros u Hu. rewrite upload_browser. cbn [Uploads.live].
    apply list_elem_of_In in Hu.
    rewrite (upload_allPreviews _ _ _ Hlen) in Hu.
    apply in_or_app.
    apply elem_of_app in Hu. destruct Hu as [Hu|Hu].
    + apply (sublist_subseteq _ _ (sublist_take _ _)) in Hu.
      apply elem_of_app in Hu. destruct Hu as [Hu|Hu].
      * left. apply Hlive, list_elem_of_In. rewrite Hsplit.
        apply elem_of_app. left. exact Hu.
      * right. apply list_elem_of_In. exact Hu.
    + left. apply Hlive, list_elem_of_In. rewrite Hsplit.
      apply elem_of_app. right. exact Hu.
  - intros u Hu. rewrite upload_browser in Hu |- *.
    cbn [Uploads.live Uploads.nextUrl] in *.
    apply in_app_or in Hu. destruct Hu as [Hu|Hu].
    + apply Hnew in Hu. lia.
    + apply in_seq in Hu. lia.
Qed.

Lemma consistent_remove st key index :
  Uploads.consistent st ->
  Uploads.consistent (Uploads.removeFile key index st).
Proof.
  intros (Hal & Hnd & Hlive & Hnew).
  pose proof (allPreviews_split (Uploads.filePreviewUrls st) key) as Hsplit.
  fold (Uploads.allPreviews st) in Hsplit.
  fold (Uploads.previewsOf st key) in Hsplit.
  repeat apply conj.
  - intros k. rewrite remove_filesOf, remove_previewsOf.
    destruct (decide (key = k)) as [<-|Hk]; [|apply Hal].
    destruct (Hal key) as [Heq Hle]. split.
    + apply delete_length_eq. exact Heq.
    + pose proof (delete_length_le (Uploads.filesOf st key) index). lia.
  - rewrite remove_allPreviews. rewrite Hsplit in Hnd.
    apply sublist_NoDup with (1 := Hnd).
    apply sublist_app; [apply sublist_delete | reflexivity].
  - intros u Hu. apply remove_live. apply list_elem_of_In in Hu.
    rewrite remove_allPreviews in Hu. split.
    + apply Hlive, list_elem_of_In. rewrite Hsplit.
      apply elem_of_app in Hu. apply elem_of_app.
      destruct Hu as [Hu|Hu]; [left|right; exact Hu].
      apply (sublist_subseteq _ _ (sublist_delete _ _)) in Hu. exact Hu.
    + intros Hi. rewrite Hsplit in Hnd.
      rewrite (delete_Permutation _ _ _ Hi) in Hnd. cbn in Hnd.
      apply NoDup_cons in Hnd. destruct Hnd as [Hnot _]. exact (Hnot Hu).
  - intros u Hu. rewrite remove_nextUrl. apply remove_live in Hu.
    apply Hnew, Hu.
Qed.

Lemma consistent_close st :
  Uploads.consistent st -> Uploads.consistent (Uploads.handleClose st).
Proof.
  intros (Hal & Hnd & Hlive & Hnew). repeat apply conj.
  - apply aligned_empty.
  - unfold Uploads.allPreviews. cbn. rewrite map_to_list_empty. constructor.
  - unfold Uploads.allPreviews at 1. cbn. rewrite map_to_list_empty.
    intros url [].
  - intros u Hu. unfold Uploads.handleClose in *. cbn [Uploads.browser] in *.
    rewrite revokeAll_nextUrl. apply revokeAll_live in Hu. apply Hnew, Hu.
Qed.

Lemma consistent_open st item :
  Uploads.consistent st -> Uploads.consistent (Uploads.openItem item st).
Proof.
  intros (Hal & Hnd & Hlive & Hnew). repeat apply conj.
  - apply aligned_empty.
  - unfold Uploads.allPreviews. cbn. rewrite map_to_list_empty. constructor.
  - unfold Uploads.allPreviews at 1. cbn. rewrite map_to_list_empty.
    intros url [].
  - exact Hnew.
Qed.

Lemma consistent_act st a :
  Uploads.consistent st -> Uploads.consistent (Uploads.act st a).
Proof.
  destruct a; cbn [Uploads.act].
  - apply consistent_upload.
  - apply consistent_remove.
  - apply consistent_close.
  - apply consistent_open.
Qed.

Lemma consistent_run actions : forall st,
  Uploads.consistent st -> Uploads.consistent (foldl Uploads.act st actions).
Proof.
  induction actions as [|a actions IH]; intros st Hc; cbn [foldl];
    [exact Hc|].
  apply IH, consistent_act, Hc.
Qed.

(** A URL that is alive and not the preview of a file stays so. *)
Lemma orphan_act st a url :
  Uploads.consistent st ->
  In url (Uploads.live (Uploads.browser st)) ->
  ~ Uploads.shown st url ->
  In url (Uploads.live (Uploads.browser (Uploads.act st a)))
  /\ ~ Uploads.shown (Uploads.act st a) url.
Proof.
  intros Hc Hin Hns. pose proof Hc as (Hal & Hnd & Hlive & Hnew).
  destruct a as [key [fs|]|key index| |item]; cbn [Uploads.act].
  - assert (Hlen : (length (Uploads.previewsOf st key) <= 5)%nat).
    { destruct (Hal key). lia. }
    split.
    + rewrite upload_browser. cbn [Uploads.live]. apply in_or_app. left.
      exact Hin.
    + intros [k Hk]. rewrite upload_previewsOf in Hk by exact Hlen.
      destruct (decide (key = k)) as [<-|Hne]; [|apply Hns; exists k; exact Hk].
      apply list_elem_of_In in Hk.
      apply (sublist_subseteq _ _ (sublist_take _ _)) in Hk.
      apply elem_of_app in Hk. destruct Hk as [Hk|Hk].
      * apply Hns. exists key. apply list_elem_of_In. exact Hk.
      * apply elem_of_seq in Hk. apply Hnew in Hin. lia.
  - split; assumption.
  - split.
    + apply remove_live. split; [exact Hin|].
      intros Hi. apply Hns. exists key. apply list_elem_of_In.
      apply list_elem_of_lookup. exists index. exact Hi.
    + intros [k Hk]. rewrite remove_previewsOf in Hk.
      destruct (decide (key = k)) as [<-|Hne]; [|apply Hns; exists k; exact Hk].
      apply Hns. exists key. apply list_elem_of_In.
      apply (sublist_subseteq _ _ (sublist_delete _ index)).
      apply list_elem_of_In. exact Hk.
  - split.
    + unfold Uploads.handleClose. cbn [Uploads.browser].
      apply revokeAll_live. split; [exact Hin|].
      intros Hs. apply Hns, shown_allPreviews. exact Hs.
    + intros [k Hk]. unfold Uploads.previewsOf, Uploads.handleClose in Hk.
      cbn [Uploads.filePreviewUrls] in Hk. rewrite lookup_empty in Hk.
      exact Hk.
  - split; [exact Hin|].
    intros [k Hk]. unfold Uploads.previewsOf, Uploads.openItem in Hk.
    cbn [Uploads.filePreviewUrls] in Hk. rewrite lookup_empty in Hk.
    exact Hk.
Qed.

Lemma orphan_stays_live actions : forall st url,
  Uploads.consistent st ->
  In url (Uploads.live (Uploads.browser st)) ->
  ~ Uploads.shown st url ->
  In url (Uploads.live (Uploads.browser (foldl Uploads.act st actions))).
Proof.
  induction actions as [|a actions IH]; intros st url Hc Hin Hns;
    cbn [foldl]; [exact Hin|].
  destruct (orphan_act st a url Hc Hin Hns) as [Hin' Hns'].
  apply IH; [apply consistent_act, Hc | exact Hin' | exact Hns'].
Qed.

Lemma take_app_take {A} (n : nat) (l k : list A) :
  take n (l ++ take n k) = take n (l ++ k).
Proof.
  rewrite !take_app, take_take. f_equal. f_equal. lia.
Qed.

(** X20: the uploads and their previews stay together.  Whatever the user
    does with the uploads of the modal (adding files to a field, removing
    one, closing the modal, opening another row), every field has as many
    previews as uploaded files, and at most five; no URL is the preview of
    two files; and every preview is a URL that has not been revoked. *)
Theorem previews_follow_uploads (st : Uploads.State)
  (actions : list Uploads.Action) :
  Uploads.consistent st ->
  let st' := foldl Uploads.act st actions in
  (forall key,
     length (Uploads.filesOf st' key) = length (Uploads.previewsOf st' key)
     /\ (length (Uploads.filesOf st' key) <= 5)%nat)
  /\ NoDup (Uploads.allPreviews st')
  /\ (forall url, Uploads.shown st' url ->
                  In url (Uploads.live (Uploads.browser st'))).
Proof.
  intros Hc st'.
  destruct (consistent_run actions st Hc) as (Hal & Hnd & Hlive & _).
  repeat apply conj.
  - exact Hal.
  - exact Hnd.
  - intros url Hs. apply Hlive, shown_allPreviews. exact Hs.
Qed.

Lemma previews_follow_uploads_witness :
  let st' :=
    foldl Uploads.act Uploads.initial
          [Uploads.Upload "photos" (Some ["a.png"; "b.png"; "c.png"]);
           Uploads.Remove "photos" 1;
           Uploads.Upload "photos" (Some ["d.png"; "e.png"; "f.png"; "g.png"])]
  in
  (forall key,
     length (Uploads.filesOf st' key) = length (Uploads.previewsOf st' key)
     /\ (length (Uploads.filesOf st' key) <= 5)%nat)
  /\ NoDup (Uploads.allPreviews st')
  /\ (forall url, Uploads.shown st' url ->
                  In url (Uploads.live (Uploads.browser st'))).
Proof.
  apply (previews_follow_uploads Uploads.initial). apply consistent_initial.
Defined.

(** X21: an upload appends to the files of its field and keeps the first
    five.  The files that were there stay where they are; of the new files
    as many are taken as fit; each of them gets a preview under a URL that
    was not alive before; the other fields, the values of the form and the
    errors are untouched.  Without a file list nothing happens. *)
Theorem upload_keeps_first_five (st : Uploads.State) (key : string)
  (fs : list string) :
  Uploads.consistent st ->
  let st' := Uploads.handleFileUpload key (Some fs) st in
  Uploads.filesOf st' key = take 5 (Uploads.filesOf st key ++ fs)
  /\ (exists urls,
        Uploads.previewsOf st' key = Uploads.previewsOf st key ++ urls
        /\ length urls
           = Nat.min (5 - length (Uploads.filesOf st key)) (length fs)
        /\ forall url, In url urls ->
             ~ In url (Uploads.live (Uploads.browser st))
             /\ In url (Uploads.live (Uploads.browser st')))
  /\ (forall k, k <> key ->
        Uploads.filesOf st' k = Uploads.filesOf st k
        /\ Uploads.previewsOf st' k = Uploads.previewsOf st k)
  /\ formData (Uploads.modal st') = formData (Uploads.modal st)
  /\ errors (Uploads.modal st') = errors (Uploads.modal st)
  /\ Uploads.handleFileUpload key None st = st.
Proof.
  intros Hc st'. pose proof Hc as (Hal & Hnd & Hlive & Hnew).
  destruct (Hal key) as [Heq Hle].
  assert (Hlen : (length (Uploads.previewsOf st key) <= 5)%nat) by lia.
  repeat apply conj; try reflexivity.
  - unfold st'. rewrite upload_filesOf.
    destruct (decide (key = key)) as [_|Hne]; [|contradiction].
    apply take_app_take.
  - exists (take (5 - length (Uploads.previewsOf st key))
                 (seq (Uploads.nextUrl (Uploads.browser st))
                      (length (take 5 fs)))).
    split; [|split].
    + unfold st'. rewrite upload_previewsOf by exact Hlen.
      destruct (decide (key = key)) as [_|Hne]; [|contradiction].
      rewrite take_app, take_ge by exact Hlen. reflexivity.
    + rewrite !length_take, length_seq. lia.
    + intros url Hu. apply list_elem_of_In in Hu.
      apply (sublist_subseteq _ _ (sublist_take _ _)) in Hu. split.
      * intros Hin. apply elem_of_seq in Hu. apply Hnew in Hin. lia.
      * unfold st'. rewrite upload_browser. cbn [Uploads.live].
        apply in_or_app. right. apply list_elem_of_In. exact Hu.
  - intros k Hk. unfold st'.
    rewrite upload_filesOf, upload_previewsOf by exact Hlen.
    destruct (decide (key = k)) as [<-|Hne]; [contradiction|].
    split; reflexivity.
Qed.

Lemma upload_keeps_first_five_witness :
  let st :=
    Uploads.handleFileUpload "photos" (Some ["a.png"; "b.png"; "c.png"])
                             Uploads.initial in
  let st' :=
    Uploads.handleFileUpload "photos"
      (Some ["d.png"; "e.png"; "f.png"; "g.png"]) st in
  Uploads.filesOf st' "photos"
  = ["a.png"; "b.png"; "c.png"; "d.png"; "e.png"]
  /\ Uploads.previewsOf st' "photos" = [0; 1; 2; 3; 4]%nat.
Proof.
  intros st st'.
  destruct (upload_keeps_first_five st "photos"
              ["d.png"; "e.png"; "f.png"; "g.png"])
    as (Hfiles & _).
  { apply consistent_upload, consistent_initial. }
  split; [exact Hfiles | vm_compute; reflexivity].
Defined.

(** X22: removing a file removes its preview and releases its URL.  The
    file and the preview at the index leave their lists, the other entries
    keep their order; the URL of the preview is revoked and is the preview
    of no other file; no other URL is revoked; the other fields are
    untouched. *)
Theorem remove_releases_preview (st : Uploads.State) (key : string)
  (index url : nat) :
  Uploads.consistent st ->
  Uploads.previewsOf st key !! index = Some url ->
  let st' := Uploads.removeFile key index st in
  Uploads.filesOf st' key = delete index (Uploads.filesOf st key)
  /\ Uploads.previewsOf st' key = delete index (Uploads.previewsOf st key)
  /\ ~ Uploads.shown st' url
  /\ ~ In url (Uploads.live (Uploads.browser st'))
  /\ (forall u, u <> url ->
        (In u (Uploads.live (Uploads.browser st'))
         <-> In u (Uploads.live (Uploads.browser st))))
  /\ (forall k, k <> key ->
        Uploads.filesOf st' k = Uploads.filesOf st k
        /\ Uploads.previewsOf st' k = Uploads.previewsOf st k).
Proof.
  intros Hc Hi st'. pose proof Hc as (Hal & Hnd & Hlive & Hnew).
  split; [|split; [|split; [|split; [|split]]]].
  - unfold st'. rewrite remove_filesOf.
    destruct (decide (key = key)) as [_|Hne]; [reflexivity|contradiction].
  - unfold st'. rewrite remove_previewsOf.
    destruct (decide (key = key)) as [_|Hne]; [reflexivity|contradiction].
  - intros Hs. apply shown_allPreviews, list_elem_of_In in Hs.
    unfold st' in Hs. rewrite remove_allPreviews in Hs.
    unfold Uploads.allPreviews in Hnd.
    rewrite (allPreviews_split _ key) in Hnd.
    fold (Uploads.previewsOf st key) in Hnd.
    fold (Uploads.otherPreviews key st) in Hnd.
    rewrite (delete_Permutation _ _ _ Hi) in Hnd. cbn in Hnd.
    apply NoDup_cons in Hnd. destruct Hnd as [Hnot _]. exact (Hnot Hs).
  - intros Hin. apply remove_live in Hin. destruct Hin as [_ Hne].
    exact (Hne Hi).
  - intros u Hu. unfold st'. rewrite remove_live. rewrite Hi.
    split; [tauto|]. intros Hin. split; [exact Hin|congruence].
  - intros k Hk. unfold st'. rewrite remove_filesOf, remove_previewsOf.
    destruct (decide (key = k)) as [<-|Hne]; [contradiction|].
    split; reflexivity.
Qed.

Lemma remove_releases_preview_witness :
  let st :=
    Uploads.handleFileUpload "photos" (Some ["a.png"; "b.png"; "c.png"])
                             Uploads.initial in
  let st' := Uploads.removeFile "photos" 1 st in
  Uploads.filesOf st' "photos" = ["a.png"; "c.png"]
  /\ Uploads.previewsOf st' "photos" = [0; 2]%nat
  /\ ~ In 1%nat (Uploads.live (Uploads.browser st')).
Proof.
  intros st st'.
  destruct (remove_releases_preview st "photos" 1 1)
    as (Hfiles & Hprev & _ & Hdead & _).
  { apply consistent_upload, consistent_initial. }
  { vm_compute. reflexivity. }
  repeat apply conj; [exact Hfiles | exact Hprev | exact Hdead].
Defined.

(** X23: closing the modal empties the form and releases the previews.
    After the close no field has a file or a preview, and the URLs that are
    still alive are those that were alive and were not a preview: every
    preview is revoked, and nothing else is. *)
Theorem close_releases_previews (st : Uploads.State) :
  let st' := Uploads.handleClose st in
  Uploads.modal st' = mkModal None ∅ ∅
  /\ (forall key,
        Uploads.filesOf st' key = [] /\ Uploads.previewsOf st' key = [])
  /\ (forall url,
        In url (Uploads.live (Uploads.browser st'))
        <-> In url (Uploads.live (Uploads.browser st))
            /\ ~ Uploads.shown st url).
Proof.
  intros st'. split; [reflexivity|]. split.
  - intros key. unfold Uploads.filesOf, Uploads.previewsOf, st'.
    cbn [Uploads.handleClose Uploads.modal uploadedFiles
         Uploads.filePreviewUrls].
    rewrite !lookup_empty. split; reflexivity.
  - intros url. unfold st', Uploads.handleClose. cbn [Uploads.browser].
    rewrite revokeAll_live, shown_allPreviews. reflexivity.
Qed.

(** X24: a URL made for a file that does not fit is never released.  An
    upload creates a URL for each of its first five files, but a field
    keeps five previews: the URLs of the files beyond the fifth of the field
    are alive after the upload and are revoked by nothing the user does
    afterwards, not even by closing the modal. *)
Theorem overflow_url_is_never_revoked (st : Uploads.State) (key : string)
  (fs : list string) (i : nat) (actions : list Uploads.Action) :
  Uploads.consistent st ->
  (5 - length (Uploads.filesOf st key) <= i)%nat ->
  (i < Nat.min 5 (length fs))%nat ->
  let st1 := Uploads.handleFileUpload key (Some fs) st in
  let url := (Uploads.nextUrl (Uploads.browser st) + i)%nat in
  ~ In url (Uploads.live (Uploads.browser st))
  /\ ~ Uploads.shown st1 url
  /\ In url (Uploads.live (Uploads.browser (foldl Uploads.act st1 actions))).
Proof.
  intros Hc Hlo Hhi st1 url. pose proof Hc as (Hal & Hnd & Hlive & Hnew).
  destruct (Hal key) as [Heq Hle].
  assert (Hlen : (length (Uploads.previewsOf st key) <= 5)%nat) by lia.
  assert (Hold : forall k, ~ In url (Uploads.previewsOf st k)).
  { intros k Hk.
    assert (Hs : In url (Uploads.allPreviews st)).
    { apply shown_allPreviews. exists k. exact Hk. }
    apply Hlive, Hnew in Hs. unfold url in Hs. lia. }
  assert (Hns : ~ Uploads.shown st1 url).
  { intros [k Hk]. unfold st1 in Hk.
    rewrite upload_previewsOf in Hk by exact Hlen.
    destruct (decide (key = k)) as [<-|Hne]; [|exact (Hold k Hk)].
    rewrite take_app in Hk. apply in_app_or in Hk. destruct Hk as [Hk|Hk].
    - apply list_elem_of_In in Hk.
      apply (sublist_subseteq _ _ (sublist_take _ _)) in Hk.
      apply list_elem_of_In in Hk. exact (Hold key Hk).
    - apply list_elem_of_In, elem_of_take in Hk.
      destruct Hk as (j & Hj & Hlt).
      apply lookup_seq in Hj. destruct Hj as [Hj _]. unfold url in Hj. lia. }
  split; [|split].
  - intros Hin. apply Hnew in Hin. unfold url in Hin. lia.
  - exact Hns.
  - apply orphan_stays_live.
    + apply consistent_upload, Hc.
    + unfold st1. rewrite upload_browser. cbn [Uploads.live].
      apply in_or_app. right. apply in_seq. rewrite length_take.
      unfold url. lia.
    + exact Hns.
Qed.

Lemma overflow_url_is_never_revoked_witness :
  let st :=
    Uploads.handleFileUpload "photos"
      (Some ["a.png"; "b.png"; "c.png"; "d.png"; "e.png"]) Uploads.initial in
  let st1 := Uploads.handleFileUpload "photos" (Some ["f.png"]) st in
  Uploads.filesOf st1 "photos" = Uploads.filesOf st "photos"
  /\ In 5%nat (Uploads.live (Uploads.browser (Uploads.handleClose st1))).
Proof.
  intros st st1. split; [vm_compute; reflexivity|].
  destruct (overflow_url_is_never_revoked st "photos" ["f.png"] 0
              [Uploads.Close])
    as (_ & _ & Hlive).
  { apply consistent_upload, consistent_initial. }
  { vm_compute. lia. }
  { vm_compute. lia. }
  exact Hlive.
Defined.

(** X25: the previews of a row that is replaced are never released.  When
    the modal is given another row while previews are on screen, the
    previews are dropped without being revoked: their URLs stay alive
    whatever the user does afterwards. *)
Theorem reopen_keeps_urls_alive (st : Uploads.State) (item : Row)
  (url : nat) (actions : list Uploads.Action) :
  Uploads.consistent st ->
  Uploads.shown st url ->
  let st1 := Uploads.openItem item st in
  (forall key, Uploads.previewsOf st1 key = [])
  /\ In url (Uploads.live (Uploads.browser (foldl Uploads.act st1 actions))).
Proof.
  intros Hc Hs st1. pose proof Hc as (Hal & Hnd & Hlive & Hnew).
  assert (Hempty : forall key, Uploads.previewsOf st1 key = []).
  { intros key. unfold Uploads.previewsOf, st1, Uploads.openItem.
    cbn [Uploads.filePreviewUrls]. rewrite lookup_empty. reflexivity. }
  split; [exact Hempty|].
  apply orphan_stays_live.
  - apply consistent_open, Hc.
  - apply Hlive, shown_allPreviews, Hs.
  - intros [k Hk]. rewrite Hempty in Hk. exact Hk.
Qed.

Lemma reopen_keeps_urls_alive_witness :
  let st :=
    Uploads.handleFileUpload "photos" (Some ["a.png"; "b.png"])
                             Uploads.initial in
  In 1%nat
     (Uploads.live
        (Uploads.browser
           (Uploads.handleClose (Uploads.openItem Ex.newborn st)))).
Proof.
  intros st.
  destruct (reopen_keeps_urls_alive st Ex.newborn 1 [Uploads.Close])
    as (_ & Hlive).
  { apply consistent_upload, consistent_initial. }
  { exists "photos". vm_compute. right. left. reflexivity. }
  exact Hlive.
Defined.

(** ** The sidebar of the dashboard frame *)

Lemma toggleEffect_width s :
  DashboardWrapper.minWidth <= DashboardWrapper.sidebarWidth s
                            <= DashboardWrapper.maxWidth ->
  DashboardWrapper.minWidth
  <= DashboardWrapper.sidebarWidth (DashboardWrapper.toggleEffect s)
  <= DashboardWrapper.maxWidth.
Proof.
  intros Hw. unfold DashboardWrapper.toggleEffect.
  destruct (negb (DashboardWrapper.isResizing s)
            && DashboardWrapper.manualToggle s); [|exact Hw].
  cbn [DashboardWrapper.sidebarWidth].
  unfold DashboardWrapper.minWidth, DashboardWrapper.maxWidth.
  destruct (DashboardWrapper.open s); lia.
Qed.

Lemma step_width s e :
  DashboardWrapper.minWidth <= DashboardWrapper.sidebarWidth s
                            <= DashboardWrapper.maxWidth ->
  DashboardWrapper.minWidth
  <= DashboardWrapper.sidebarWidth (DashboardWrapper.step s e)
  <= DashboardWrapper.maxWidth.
Proof.
  intros Hw. unfold DashboardWrapper.step. apply toggleEffect_width.
  destruct e as [x|x| | |b]; cbn [DashboardWrapper.handleMouseDown
    DashboardWrapper.handleToggleClick DashboardWrapper.setOpen
    DashboardWrapper.sidebarWidth]; try exact Hw.
  - unfold DashboardWrapper.handleMouseMove.
    destruct (negb (DashboardWrapper.isResizing s)); [exact Hw|].
    cbn [DashboardWrapper.sidebarWidth].
    unfold DashboardWrapper.minWidth, DashboardWrapper.maxWidth. lia.
  - unfold DashboardWrapper.handleMouseUp.
    destruct (negb (DashboardWrapper.isResizing s)); exact Hw.
Qed.

(** A move of the mouse during a drag. *)
Lemma drag_move s x :
  DashboardWrapper.isResizing s = true ->
  DashboardWrapper.step s (DashboardWrapper.MouseMove x)
  = DashboardWrapper.mkState
      (DashboardWrapper.minWidth + 20
       <? DashboardWrapper.clampWidth
            (DashboardWrapper.startWidth s + (x - DashboardWrapper.startX s)))
      (DashboardWrapper.clampWidth
         (DashboardWrapper.startWidth s + (x - DashboardWrapper.startX s)))
      true (DashboardWrapper.startX s) (DashboardWrapper.startWidth s)
      (DashboardWrapper.manualToggle s).
Proof.
  intros Hr. unfold DashboardWrapper.step, DashboardWrapper.handleMouseMove.
  rewrite Hr. cbn [negb]. unfold DashboardWrapper.toggleEffect.
  cbn [DashboardWrapper.isResizing negb andb].
  unfold DashboardWrapper.clampWidth. f_equal.
  rewrite Z.ltb_antisym. reflexivity.
Qed.

Lemma drag_moves xs : forall s,
  DashboardWrapper.isResizing s = true ->
  let s' := DashboardWrapper.run s (DashboardWrapper.MouseMove <$> xs) in
  DashboardWrapper.isResizing s' = true
  /\ DashboardWrapper.startX s' = DashboardWrapper.startX s
  /\ DashboardWrapper.startWidth s' = DashboardWrapper.startWidth s
  /\ DashboardWrapper.manualToggle s' = DashboardWrapper.manualToggle s.
Proof.
  induction xs as [|x xs IH]; intros s Hr; cbn [fmap list_fmap].
  - cbn. repeat split. exact Hr.
  - unfold DashboardWrapper.run. cbn [foldl]. rewrite (drag_move s x Hr).
    apply (IH (DashboardWrapper.mkState _ _ true _ _ _)). reflexivity.
Qed.

(** X26: the sidebar is never narrower than 72 pixels nor wider than 400.
    Whatever the user does (dragging the border, clicking the toggle) and
    whenever the sidebar opens or closes itself, the width stays within
    these bounds. *)
Theorem sidebar_width_stays_in_range (s : DashboardWrapper.State)
  (events : list DashboardWrapper.Event) :
  DashboardWrapper.minWidth <= DashboardWrapper.sidebarWidth s
                            <= DashboardWrapper.maxWidth ->
  72 <= DashboardWrapper.sidebarWidth (DashboardWrapper.run s events) <= 400.
Proof.
  revert s. unfold DashboardWrapper.run.
  induction events as [|e events IH]; intros s Hw; cbn [foldl].
  - exact Hw.
  - apply IH, step_width, Hw.
Qed.

Lemma sidebar_width_stays_in_range_witness :
  72 <= DashboardWrapper.sidebarWidth
          (DashboardWrapper.run DashboardWrapper.initial
             [DashboardWrapper.MouseDown 220;
              DashboardWrapper.MouseMove 900;
              DashboardWrapper.MouseUp;
              DashboardWrapper.ToggleClick])
     <= 400.
Proof.
  apply (sidebar_width_stays_in_range DashboardWrapper.initial).
  vm_compute. split; discriminate.
Defined.

(** X27: while the border is dragged the width follows the mouse.  After
    the press at [x0] and any moves that end at [x], the width is the width
    at the press plus [x - x0], brought into the range from 72 to 400,
    whatever the path of the mouse; the sidebar is open exactly when it is
    wider than 92 pixels; and the release of the button keeps both, after
    which the mouse no longer moves the border. *)
Theorem drag_follows_mouse (s : DashboardWrapper.State) (x0 x x' : Z)
  (xs : list Z) :
  DashboardWrapper.manualToggle s = false ->
  let w := DashboardWrapper.clampWidth
             (DashboardWrapper.sidebarWidth s + (x - x0)) in
  let dragged :=
    DashboardWrapper.run s
      (DashboardWrapper.MouseDown x0
       :: (DashboardWrapper.MouseMove <$> (xs ++ [x]))) in
  let released := DashboardWrapper.step dragged DashboardWrapper.MouseUp in
  DashboardWrapper.sidebarWidth dragged = w
  /\ DashboardWrapper.open dragged = (92 <? w)
  /\ DashboardWrapper.sidebarWidth released = w
  /\ DashboardWrapper.open released = (92 <? w)
  /\ DashboardWrapper.isResizing released = false
  /\ DashboardWrapper.step released (DashboardWrapper.MouseMove x')
     = released.
Proof.
  intros Hm w dragged released.
  set (s0 := DashboardWrapper.step s (DashboardWrapper.MouseDown x0)).
  assert (Hs0 : s0 = DashboardWrapper.mkState
                       (DashboardWrapper.open s)
                       (DashboardWrapper.sidebarWidth s) true x0
                       (DashboardWrapper.sidebarWidth s) false).
  { unfold s0, DashboardWrapper.step, DashboardWrapper.handleMouseDown,
      DashboardWrapper.toggleEffect.
    cbn [DashboardWrapper.isResizing negb andb]. rewrite Hm. reflexivity. }
  assert (Hd : dragged
               = DashboardWrapper.step
                   (DashboardWrapper.run s0 (DashboardWrapper.MouseMove <$> xs))
                   (DashboardWrapper.MouseMove x)).
  { unfold dragged, DashboardWrapper.run. cbn [foldl]. fold s0.
    rewrite fmap_app, foldl_app. reflexivity. }
  destruct (drag_moves xs s0) as (Hr & Hx & Hw & Ht).
  { rewrite Hs0. reflexivity. }
  rewrite (drag_move _ x Hr), Hx, Hw, Ht, Hs0 in Hd.
  cbn [DashboardWrapper.startX DashboardWrapper.startWidth
       DashboardWrapper.manualToggle] in Hd.
  fold w in Hd.
  assert (Hrel : released
                 = DashboardWrapper.mkState (92 <? w) w false x0
                     (DashboardWrapper.sidebarWidth s) false).
  { unfold released. rewrite Hd. reflexivity. }
  rewrite Hrel, Hd. repeat apply conj; reflexivity.
Qed.

Lemma drag_follows_mouse_witness :
  let dragged :=
    DashboardWrapper.run DashboardWrapper.initial
      [DashboardWrapper.MouseDown 220; DashboardWrapper.MouseMove 50;
       DashboardWrapper.MouseMove 900; DashboardWrapper.MouseMove 300] in
  DashboardWrapper.sidebarWidth dragged = 300
  /\ DashboardWrapper.open dragged = true.
Proof.
  destruct (drag_follows_mouse DashboardWrapper.initial 220 300 0 [50; 900])
    as (Hw & Ho & _).
  { reflexivity. }
  split; [exact Hw | exact Ho].
Defined.

(** X28: the toggle opens to 220 pixels and closes to 72, and forgets a
    dragged width.  Outside a drag, a click on the toggle flips the
    sidebar and sets the width to 72 when it closes and to 220 when it
    opens; so after two clicks the sidebar is open or closed as before, but
    an open sidebar is 220 pixels wide whatever its width was. *)
Theorem toggle_resets_width (s : DashboardWrapper.State) :
  DashboardWrapper.isResizing s = false ->
  DashboardWrapper.manualToggle s = false ->
  let once := DashboardWrapper.step s DashboardWrapper.ToggleClick in
  let twice := DashboardWrapper.step once DashboardWrapper.ToggleClick in
  DashboardWrapper.open once = negb (DashboardWrapper.open s)
  /\ DashboardWrapper.sidebarWidth once
     = (if DashboardWrapper.open s then 72 else 220)
  /\ DashboardWrapper.open twice = DashboardWrapper.open s
  /\ DashboardWrapper.sidebarWidth twice
     = (if DashboardWrapper.open s then 220 else 72)
  /\ DashboardWrapper.manualToggle twice = false.
Proof.
  intros Hr Hm once twice.
  unfold twice, once, DashboardWrapper.step, DashboardWrapper.handleToggleClick,
    DashboardWrapper.toggleEffect.
  cbn [DashboardWrapper.isResizing DashboardWrapper.manualToggle
       DashboardWrapper.open DashboardWrapper.sidebarWidth].
  rewrite Hr. cbn [negb andb].
  cbn [DashboardWrapper.isResizing DashboardWrapper.manualToggle
       DashboardWrapper.open DashboardWrapper.sidebarWidth].
  destruct (DashboardWrapper.open s); repeat apply conj; reflexivity.
Qed.

Lemma toggle_resets_width_witness :
  let dragged :=
    DashboardWrapper.run DashboardWrapper.initial
      [DashboardWrapper.MouseDown 220; DashboardWrapper.MouseMove 300;
       DashboardWrapper.MouseUp] in
  DashboardWrapper.sidebarWidth dragged = 300
  /\ DashboardWrapper.sidebarWidth
       (DashboardWrapper.run dragged
          [DashboardWrapper.ToggleClick; DashboardWrapper.ToggleClick])
     = 220.
Proof.
  intros dragged. split; [reflexivity|].
  destruct (toggle_resets_width dragged) as (_ & _ & _ & Hw & _).
  { reflexivity. }
  { reflexivity. }
  exact Hw.
Defined.

(** ** The colours of an icon *)

Lemma entry_nonempty kv : Lordicon.entry kv <> "".
Proof.
  unfold Lordicon.entry. apply append_nonempty.
  rewrite append_String. discriminate.
Qed.

Lemma concat_nonempty sep (l : list string) :
  l <> [] -> (forall s, In s l -> s <> "") -> String.concat sep l <> "".
Proof.
  intros Hl Hall. destruct l as [|x l]; [contradiction|].
  assert (Hx : x <> "") by (apply Hall; left; reflexivity).
  destruct x as [|c x]; [contradiction|].
  destruct l; cbn [String.concat]; [discriminate|].
  rewrite append_String. discriminate.
Qed.

Lemma formatColors_None obj :
  Lordicon.formatColors (Some obj) = None
  <-> forall kv, In kv obj -> Lordicon.truthy (snd kv) = false.
Proof.
  unfold Lordicon.formatColors. rewrite length_map.
  destruct (List.filter (fun kv => Lordicon.truthy (snd kv)) obj)
    as [|kv l] eqn:Hf.
  - cbn. split; [|reflexivity]. intros _ kv Hin.
    destruct (Lordicon.truthy (snd kv)) eqn:Ht; [|reflexivity].
    assert (Hkv : In kv (List.filter (fun kv => Lordicon.truthy (snd kv)) obj)).
    { apply filter_In. split; assumption. }
    rewrite Hf in Hkv. destruct Hkv.
  - cbn [length]. destruct (0 <? Z.of_nat (S (length l))) eqn:Hlt.
    + split; [discriminate|]. intros Hall.
      assert (Hkv : In kv (List.filter (fun kv => Lordicon.truthy (snd kv)) obj)).
      { rewrite Hf. left. reflexivity. }
      apply filter_In in Hkv. destruct Hkv as [Hin Ht].
      rewrite (Hall kv Hin) in Ht. discriminate.
    + apply Z.ltb_ge in Hlt. lia.
Qed.

Lemma formatColors_Some obj s :
  Lordicon.formatColors (Some obj) = Some s -> s <> "".
Proof.
  unfold Lordicon.formatColors.
  destruct (0 <? _) eqn:Hlt; [|discriminate].
  intros [= <-]. apply concat_nonempty.
  - intros Hnil. rewrite Hnil in Hlt. discriminate.
  - intros s Hs. apply in_map_iff in Hs. destruct Hs as (kv & <- & _).
    apply entry_nonempty.
Qed.

(** X29: the colours attribute of an icon.  An active icon does not change
    colour when the mouse is over it, whatever hover palettes it has; in a
    theme other than dark the dark palettes play no part; the attribute is
    absent exactly when the palette in force has no colour that is set, and
    is never empty. *)
Theorem icon_colours_by_state (p : Lordicon.Props) (theme : option string)
  (isHovered : bool) :
  (forall hover darkHover isHovered',
     Lordicon.formattedColors
       (Lordicon.mkProps (Lordicon.colors p) hover (Lordicon.darkColors p)
                         darkHover true)
       theme isHovered'
     = Lordicon.formattedColors
         (Lordicon.mkProps (Lordicon.colors p) (Lordicon.hoverColors p)
                           (Lordicon.darkColors p) (Lordicon.darkHoverColors p)
                           true)
         theme isHovered)
  /\ (theme <> Some "dark" ->
      forall dark darkHover,
        Lordicon.formattedColors
          (Lordicon.mkProps (Lordicon.colors p) (Lordicon.hoverColors p)
                            dark darkHover (Lordicon.isActive p))
          theme isHovered
        = Lordicon.formattedColors p theme isHovered)
  /\ (Lordicon.formattedColors p theme isHovered = None
      <-> forall kv, In kv (Lordicon.getCurrentColors p theme isHovered) ->
                     Lordicon.truthy (snd kv) = false)
  /\ Lordicon.formattedColors p theme isHovered <> Some "".
Proof.
  split; [|split; [|split]].
  - intros hover darkHover isHovered'. reflexivity.
  - intros Hlight dark darkHover.
    unfold Lordicon.formattedColors, Lordicon.getCurrentColors.
    rewrite (bool_decide_eq_false_2 _ Hlight).
    cbn [Lordicon.inDark Lordicon.isActive Lordicon.colors
         Lordicon.hoverColors Lordicon.darkColors Lordicon.darkHoverColors].
    reflexivity.
  - apply formatColors_None.
  - intros Hs. apply formatColors_Some in Hs. apply Hs. reflexivity.
Qed.

Lemma icon_colours_by_state_witness :
  let p :=
    Lordicon.mkProps (Some [("primary", Some "#121331")])
                     (Some [("primary", Some "#ff0000")]) None None true in
  Lordicon.formattedColors p (Some "light") true = Some "primary:#121331"
  /\ Lordicon.formattedColors
       (Lordicon.mkProps (Lordicon.colors p) (Lordicon.hoverColors p)
                         (Some [("primary", Some "#ffffff")]) None
                         (Lordicon.isActive p))
       (Some "light") true
     = Lordicon.formattedColors p (Some "light") true.
Proof.
  intros p. split; [vm_compute; reflexivity|].
  destruct (icon_colours_by_state p (Some "light") true) as (_ & Hlight & _).
  apply Hlight. discriminate.
Defined.

(** X30: the icons of the sidebar are coloured by the theme alone.  The
    icon of a link is yellow in the dark theme and green otherwise, whether
    or not the link is that of the current page and whether or not the
    mouse is over the icon. *)
Theorem sidebar_icon_colour (pathname href : string) (theme : option string)
  (isHovered : bool) :
  Lordicon.formattedColors
    (DashboardWrapper.linkIcon pathname href theme) theme isHovered
  = Some (if bool_decide (theme = Some "dark")
          then "primary:#FFFF00,secondary:#FFFF00"
          else "primary:#4dba28,secondary:#4dba28").
Proof.
  unfold DashboardWrapper.linkIcon, DashboardWrapper.getIconColors,
    Lordicon.formattedColors, Lordicon.getCurrentColors.
  cbn [Lordicon.isActive Lordicon.colors Lordicon.hoverColors
       Lordicon.darkColors Lordicon.darkHoverColors].
  destruct (String.eqb pathname href), (bool_decide (theme = Some "dark")),
    isHovered; reflexivity.
Qed.
